(** * neon-cube: the cubelet store, the move engine, the solved check and the
      gesture resolver of [components/Cube3D.tsx]

    The component keeps 27 logical cubelets (array [cubelets]) and, for each
    of them, a scene-graph mesh ([cubieRefs.current[c.id]]).  A move
    re-parents the meshes of one slice to a pivot, turns the pivot by a
    quarter turn, re-parents them to the root group, rounds the mesh
    positions and copies them to [currentPos].

    Numbers.  JavaScript numbers are doubles.  Coordinates that went through
    [Math.round] are integers and are kept in [Z]; every other number
    (quaternions and scales of meshes, drag vectors, normals) is a rational
    that stands for a double, and the operations on them round as the
    operations on doubles do: to the nearest double, ties to the even
    significand ([Js.double]).  Overflow, subnormal numbers, NaN and the
    sign of zero are not part of the model.

    The matrix of the pivot after a quarter turn has, besides 0 and 1, the
    two entries 1 - 2*sin(pi/4)^2 and 2*sin(pi/4)*cos(pi/4), up to sign.
    They are taken as data ([Numerics]), so that the statements on positions
    hold for whatever values the platform's [Math.sin] and [Math.cos] give,
    within bounds.

    The development also covers the ranking service
    ([services/rankingService.ts], with [MOCK_RANKINGS] of constants.ts and
    the item it keeps in [localStorage]) and the handlers and the clock
    display of the application shell ([App.tsx]). *)

From Stdlib Require Import ZArith QArith Qround Qabs Qminmax Qpower List Bool String Lia Lqa.
From Stdlib Require Import Permutation Sorted Ascii DecimalString DecimalZ.
Import ListNotations.

Open Scope Z_scope.

(** ** JavaScript numbers *)

Module Js.

(** [Math.sign]. *)
Definition sign (v : Q) : Q := inject_Z (Z.sgn (Qnum v)).

(** [a > b], [a < b] and [a === b] on numbers. *)
Definition gtb (a b : Q) : bool := negb (Qle_bool a b).
Definition ltb (a b : Q) : bool := negb (Qle_bool b a).
Definition eqb (a b : Q) : bool := Qeq_bool a b.

(** The binary exponent of a positive number: [2^e <= v < 2^(e+1)]. *)
Definition ilog2 (v : Q) : Z :=
  let e := Z.log2 (Qnum v) - Z.log2 (Zpos (Qden v)) in
  if Qle_bool (2 ^ e) v then e else e - 1.

(** The nearest integer, ties to the even one. *)
Definition roundHalfEven (v : Q) : Z :=
  let f := Qfloor v in
  match (v - inject_Z f ?= 1 # 2)%Q with
  | Lt => f
  | Gt => f + 1
  | Eq => if Z.even f then f else f + 1
  end.

(** The double nearest to a real number: a multiple of [2^(e-52)], where
    [e] is the binary exponent of the number. *)
Definition double (v : Q) : Q :=
  if Qeq_bool v 0 then 0%Q
  else
    let u := (2 ^ (ilog2 (Qabs v) - 52))%Q in
    Qred (inject_Z (roundHalfEven (v / u)) * u).

(** [a + b], [a - b], [a * b] and [a / b] on doubles. *)
Definition add (a b : Q) : Q := double (a + b).
Definition sub (a b : Q) : Q := double (a - b).
Definition mul (a b : Q) : Q := double (a * b).
Definition div (a b : Q) : Q := double (a / b).

(** [Math.sqrt]: the double nearest to the square root.  With [k] the
    integer square root of [v / u^2], the root lies between [k * u] and
    [(k + 1) * u], and the comparison of [v] with the square of the
    midpoint says which of the two is nearer. *)
Definition sqrt (v : Q) : Q :=
  if Qle_bool v 0 then 0%Q
  else
    let es := ilog2 v / 2 in
    let u := (2 ^ (es - 52))%Q in
    let k := Z.sqrt (Qfloor (v / (u * u))) in
    let mid := ((inject_Z k + (1 # 2)) * u)%Q in
    let k' := match (v ?= mid * mid)%Q with
              | Lt => k
              | Gt => k + 1
              | Eq => if Z.even k then k else k + 1
              end in
    Qred (inject_Z k' * u).

(** [Math.PI]. *)
Definition PI : Q := 884279719003555 # 281474976710656.

End Js.

(** [const round = (v: number) => Math.round(v)]: nearest integer, ties
    towards plus infinity. *)
Definition round (v : Q) : Z := Qfloor (v + (1 # 2))%Q.

(** ** The part of three.js the component relies on *)

Module Three.

(** [THREE.Vector3]. *)
Record Vector3 : Type := vec3 { x : Q; y : Q; z : Q }.

(** [a.sub(b)]. *)
Definition sub (a b : Vector3) : Vector3 :=
  vec3 (Js.sub (x a) (x b)) (Js.sub (y a) (y b)) (Js.sub (z a) (z b)).

Definition negate (a : Vector3) : Vector3 :=
  vec3 (- x a)%Q (- y a)%Q (- z a)%Q.

(** The exact square of the length, and [a.length()], which is
    [Math.sqrt(x * x + y * y + z * z)] in doubles. *)
Definition lengthSq (a : Vector3) : Q :=
  (x a * x a + y a * y a + z a * z a)%Q.

Definition length (a : Vector3) : Q :=
  Js.sqrt (Js.add (Js.add (Js.mul (x a) (x a)) (Js.mul (y a) (y a)))
                  (Js.mul (z a) (z a))).

(** [a.length() < t]. *)
Definition length_lt (a : Vector3) (t : Q) : bool := Js.ltb (length a) t.

(** The exact scalar product. *)
Definition dot (a b : Vector3) : Q :=
  (x a * x b + y a * y b + z a * z b)%Q.

(** The upper left 3x3 block of a [Matrix4], in rows.  The transforms of
    the component have no perspective part, and the translation column is
    followed separately, as the position of the mesh. *)
Record Matrix3 : Type := mat3 { r1 : Vector3; r2 : Vector3; r3 : Vector3 }.

Definition identity : Matrix3 :=
  mat3 (vec3 1 0 0) (vec3 0 1 0) (vec3 0 0 1).

(** The exact product of a matrix and a vector. *)
Definition applyMatrix3 (m : Matrix3) (v : Vector3) : Vector3 :=
  vec3 (dot (r1 m) v) (dot (r2 m) v) (dot (r3 m) v).

(** The matrix of a rotation about one principal axis, given the entries
    [c] and [s] that stand for the cosine and the sine of the angle
    ([Object3D.rotation.x = angle] and likewise for y, z, with the two
    other Euler angles at 0). *)
Definition rotationX (c s : Q) : Matrix3 :=
  mat3 (vec3 1 0 0) (vec3 0 c (- s)) (vec3 0 s c).
Definition rotationY (c s : Q) : Matrix3 :=
  mat3 (vec3 c 0 s) (vec3 0 1 0) (vec3 (- s) 0 c).
Definition rotationZ (c s : Q) : Matrix3 :=
  mat3 (vec3 c (- s) 0) (vec3 s c 0) (vec3 0 0 1).

(** [Matrix4.determinant], for a matrix with last row (0,0,0,1); its sign
    is all that is used, and it is taken from the exact value. *)
Definition det (m : Matrix3) : Q :=
  let a := r1 m in let b := r2 m in let c := r3 m in
  (x a * (y b * z c - z b * y c)
   - y a * (x b * z c - z b * x c)
   + z a * (x b * y c - y b * x c))%Q.

(** [THREE.Quaternion]. *)
Record Quaternion : Type := quat { qx : Q; qy : Q; qz : Q; qw : Q }.

(** [new THREE.Quaternion()]. *)
Definition identityQuaternion : Quaternion := quat 0 0 0 1.

(** [Matrix4.compose(position, quaternion, scale)], the 3x3 block:
    what [Object3D.updateMatrix] writes to [matrix]. *)
Definition compose (q : Quaternion) (s : Vector3) : Matrix3 :=
  let x2 := Js.add (qx q) (qx q) in
  let y2 := Js.add (qy q) (qy q) in
  let z2 := Js.add (qz q) (qz q) in
  let xx := Js.mul (qx q) x2 in
  let xy := Js.mul (qx q) y2 in
  let xz := Js.mul (qx q) z2 in
  let yy := Js.mul (qy q) y2 in
  let yz := Js.mul (qy q) z2 in
  let zz := Js.mul (qz q) z2 in
  let wx := Js.mul (qw q) x2 in
  let wy := Js.mul (qw q) y2 in
  let wz := Js.mul (qw q) z2 in
  mat3
    (vec3 (Js.mul (Js.sub 1 (Js.add yy zz)) (x s))
          (Js.mul (Js.sub xy wz) (y s))
          (Js.mul (Js.add xz wy) (z s)))
    (vec3 (Js.mul (Js.add xy wz) (x s))
          (Js.mul (Js.sub 1 (Js.add xx zz)) (y s))
          (Js.mul (Js.sub yz wx) (z s)))
    (vec3 (Js.mul (Js.sub xz wy) (x s))
          (Js.mul (Js.add yz wx) (y s))
          (Js.mul (Js.sub 1 (Js.add xx yy)) (z s))).

(** One entry of [Matrix4.multiplyMatrices]: [a1*b1 + a2*b2 + a3*b3], the
    sum taken from the left (the fourth product is 0 in the 3x3 block). *)
Definition entry (a : Vector3) (b1 b2 b3 : Q) : Q :=
  Js.add (Js.add (Js.mul (x a) b1) (Js.mul (y a) b2)) (Js.mul (z a) b3).

(** [Matrix4.multiplyMatrices(a, b)], the 3x3 block. *)
Definition multiplyMatrices (a b : Matrix3) : Matrix3 :=
  let row r :=
    vec3 (entry r (x (r1 b)) (x (r2 b)) (x (r3 b)))
         (entry r (y (r1 b)) (y (r2 b)) (y (r3 b)))
         (entry r (z (r1 b)) (z (r2 b)) (z (r3 b))) in
  mat3 (row (r1 a)) (row (r2 a)) (row (r3 a)).

(** [Quaternion.setFromRotationMatrix]. *)
Definition setFromRotationMatrix (m : Matrix3) : Quaternion :=
  let m11 := x (r1 m) in let m12 := y (r1 m) in let m13 := z (r1 m) in
  let m21 := x (r2 m) in let m22 := y (r2 m) in let m23 := z (r2 m) in
  let m31 := x (r3 m) in let m32 := y (r3 m) in let m33 := z (r3 m) in
  let trace := Js.add (Js.add m11 m22) m33 in
  if Js.gtb trace 0 then
    let s := Js.div (1 # 2) (Js.sqrt (Js.add trace 1)) in
    quat (Js.mul (Js.sub m32 m23) s) (Js.mul (Js.sub m13 m31) s)
         (Js.mul (Js.sub m21 m12) s) (Js.div (1 # 4) s)
  else if Js.gtb m11 m22 && Js.gtb m11 m33 then
    let s := Js.mul 2 (Js.sqrt (Js.sub (Js.sub (Js.add 1 m11) m22) m33)) in
    quat (Js.mul (1 # 4) s) (Js.div (Js.add m12 m21) s)
         (Js.div (Js.add m13 m31) s) (Js.div (Js.sub m32 m23) s)
  else if Js.gtb m22 m33 then
    let s := Js.mul 2 (Js.sqrt (Js.sub (Js.sub (Js.add 1 m22) m11) m33)) in
    quat (Js.div (Js.add m12 m21) s) (Js.mul (1 # 4) s)
         (Js.div (Js.add m23 m32) s) (Js.div (Js.sub m13 m31) s)
  else
    let s := Js.mul 2 (Js.sqrt (Js.sub (Js.sub (Js.add 1 m33) m11) m22)) in
    quat (Js.div (Js.add m13 m31) s) (Js.div (Js.add m23 m32) s)
         (Js.mul (1 # 4) s) (Js.div (Js.sub m21 m12) s).

(** [Matrix4.decompose], the quaternion and the scale: the scale is the
    length of the columns (the first one negated when the determinant is
    negative), and the quaternion is read from the matrix with its columns
    divided by the scale. *)
Definition decompose (m : Matrix3) : Quaternion * Vector3 :=
  let sx0 := length (vec3 (x (r1 m)) (x (r2 m)) (x (r3 m))) in
  let sy := length (vec3 (y (r1 m)) (y (r2 m)) (y (r3 m))) in
  let sz := length (vec3 (z (r1 m)) (z (r2 m)) (z (r3 m))) in
  let sx := if Js.ltb (det m) 0 then (- sx0)%Q else sx0 in
  let invSX := Js.div 1 sx in
  let invSY := Js.div 1 sy in
  let invSZ := Js.div 1 sz in
  let scaled r :=
    vec3 (Js.mul (x r) invSX) (Js.mul (y r) invSY) (Js.mul (z r) invSZ) in
  (setFromRotationMatrix (mat3 (scaled (r1 m)) (scaled (r2 m)) (scaled (r3 m))),
   vec3 sx sy sz).

(** [v.applyQuaternion(q)]: [t = 2 * cross(q.xyz, v)] and
    [v + q.w * t + cross(q.xyz, t)], in doubles. *)
Definition applyQuaternion (q : Quaternion) (v : Vector3) : Vector3 :=
  let tx := Js.mul 2 (Js.sub (Js.mul (qy q) (z v)) (Js.mul (qz q) (y v))) in
  let ty := Js.mul 2 (Js.sub (Js.mul (qz q) (x v)) (Js.mul (qx q) (z v))) in
  let tz := Js.mul 2 (Js.sub (Js.mul (qx q) (y v)) (Js.mul (qy q) (x v))) in
  vec3
    (Js.sub (Js.add (Js.add (x v) (Js.mul (qw q) tx)) (Js.mul (qy q) tz))
            (Js.mul (qz q) ty))
    (Js.sub (Js.add (Js.add (y v) (Js.mul (qw q) ty)) (Js.mul (qz q) tx))
            (Js.mul (qx q) tz))
    (Js.sub (Js.add (Js.add (z v) (Js.mul (qw q) tz)) (Js.mul (qx q) ty))
            (Js.mul (qy q) tx)).

(** Entry-wise numerical equality. *)
Definition vec_eq (a b : Vector3) : Prop :=
  (x a == x b /\ y a == y b /\ z a == z b)%Q.
Definition mat_eq (a b : Matrix3) : Prop :=
  vec_eq (r1 a) (r1 b) /\ vec_eq (r2 a) (r2 b) /\ vec_eq (r3 a) (r3 b).
Definition quat_eq (a b : Quaternion) : Prop :=
  (qx a == qx b /\ qy a == qy b /\ qz a == qz b /\ qw a == qw b)%Q.

Definition vec_eqb (a b : Vector3) : bool :=
  Js.eqb (x a) (x b) && Js.eqb (y a) (y b) && Js.eqb (z a) (z b).
Definition mat_eqb (a b : Matrix3) : bool :=
  vec_eqb (r1 a) (r1 b) && vec_eqb (r2 a) (r2 b) && vec_eqb (r3 a) (r3 b).

(** The squared norm of a quaternion, and the rotation the quaternion
    stands for, in exact arithmetic: the matrix of the quaternion divided
    by its norm. *)
Definition normSq (q : Quaternion) : Q :=
  (qx q * qx q + qy q * qy q + qz q * qz q + qw q * qw q)%Q.

Definition rotationOf (q : Quaternion) : Matrix3 :=
  let n := normSq q in
  let a := qx q in let b := qy q in let c := qz q in let w := qw q in
  mat3 (vec3 (1 - 2 * (b * b + c * c) / n) (2 * (a * b - w * c) / n)
             (2 * (a * c + w * b) / n))
       (vec3 (2 * (a * b + w * c) / n) (1 - 2 * (a * a + c * c) / n)
             (2 * (b * c - w * a) / n))
       (vec3 (2 * (a * c - w * b) / n) (2 * (b * c + w * a) / n)
             (1 - 2 * (a * a + b * b) / n))%Q.

Definition col1 (m : Matrix3) : Vector3 := vec3 (x (r1 m)) (x (r2 m)) (x (r3 m)).
Definition col2 (m : Matrix3) : Vector3 := vec3 (y (r1 m)) (y (r2 m)) (y (r3 m)).
Definition col3 (m : Matrix3) : Vector3 := vec3 (z (r1 m)) (z (r2 m)) (z (r3 m)).

Definition transpose (m : Matrix3) : Matrix3 := mat3 (col1 m) (col2 m) (col3 m).

(** The exact product of two matrices. *)
Definition multiply (a b : Matrix3) : Matrix3 :=
  let row r := vec3 (dot r (col1 b)) (dot r (col2 b)) (dot r (col3 b)) in
  mat3 (row (r1 a)) (row (r2 a)) (row (r3 a)).

(** Membership in the rotation group of the cube: every entry is -1, 0
    or 1, the matrix is orthogonal and its determinant is 1.  There are
    24 such matrices. *)
Definition unitEntry (v : Q) : bool :=
  Js.eqb v (-1) || Js.eqb v 0 || Js.eqb v 1.
Definition unitEntries (v : Vector3) : bool :=
  unitEntry (x v) && unitEntry (y v) && unitEntry (z v).
Definition inCubeGroup (m : Matrix3) : bool :=
  unitEntries (r1 m) && unitEntries (r2 m) && unitEntries (r3 m)
  && mat_eqb (multiply m (transpose m)) identity
  && Js.eqb (det m) 1.

End Three.

(** ** types.ts and constants.ts *)

Inductive GameState : Type := IDLE | PLAYING | SOLVED.

Definition GameState_eqb (a b : GameState) : bool :=
  match a, b with
  | IDLE, IDLE | PLAYING, PLAYING | SOLVED, SOLVED => true
  | _, _ => false
  end.

(** [Vector3Tuple], for the coordinates that are integers. *)
Definition Vector3Tuple : Type := (Z * Z * Z)%type.

Inductive Axis : Type := ax_x | ax_y | ax_z.

(** [direction: 1 | -1]. *)
Inductive Direction : Type := dir_pos | dir_neg.

Definition dirZ (d : Direction) : Z :=
  match d with dir_pos => 1 | dir_neg => -1 end.

Definition opposite (d : Direction) : Direction :=
  match d with dir_pos => dir_neg | dir_neg => dir_pos end.

Record Move : Type := mkMove { axis : Axis; slice : Z; direction : Direction }.

Module CUBE_COLORS.
Definition U : string := "#ffffff".
Definition D : string := "#ffd500".
Definition F : string := "#00d936".
Definition B : string := "#0051ff".
Definition L : string := "#ff5900".
Definition R : string := "#ff0055".
Definition CORE : string := "#1a1a1a".
End CUBE_COLORS.

(** ** The cubelet store ([Cube3D], lines 24-57) *)

Record ColorMap : Type := mkColorMap
  { right : string; left : string; up : string;
    down : string; front : string; back : string }.

(** The scene-graph object behind one cubelet: its position, its
    quaternion and its scale, relative to its parent.  Positions are
    integers: the mesh is created at [initialPos] and every later write to
    [mesh.position] goes through [round]. *)
Record Mesh : Type := mkMesh
  { position : Vector3Tuple;
    quaternion : Three.Quaternion;
    scale : Three.Vector3 }.

(** The scale of a new [Object3D]. *)
Definition unitScale : Three.Vector3 := Three.vec3 1 1 1.

(** One entry of [cubelets].  [ref] is the slot [cubieRefs.current[c.id]]
    of this cubelet ([None] while the mesh is not mounted); [rotation] is
    the field initialised with [new THREE.Quaternion()], which no code
    writes afterwards. *)
Record Cubelet : Type := mkCubelet
  { id : nat;
    initialPos : Vector3Tuple;
    currentPos : Vector3Tuple;
    rotation : Three.Quaternion;
    colorMap : ColorMap;
    ref : option Mesh }.

Definition initialColorMap (p : Vector3Tuple) : ColorMap :=
  let '(x, y, z) := p in
  mkColorMap
    (if x =? 1 then CUBE_COLORS.R else CUBE_COLORS.CORE)
    (if x =? -1 then CUBE_COLORS.L else CUBE_COLORS.CORE)
    (if y =? 1 then CUBE_COLORS.U else CUBE_COLORS.CORE)
    (if y =? -1 then CUBE_COLORS.D else CUBE_COLORS.CORE)
    (if z =? 1 then CUBE_COLORS.F else CUBE_COLORS.CORE)
    (if z =? -1 then CUBE_COLORS.B else CUBE_COLORS.CORE).

(** The three nested loops [for (let x = -1; x <= 1; x++) ...], outermost
    first. *)
Definition lattice : list Vector3Tuple :=
  flat_map (fun x => flat_map (fun y => map (fun z => (x, y, z)) [-1; 0; 1])
                              [-1; 0; 1])
           [-1; 0; 1].

(** [cubes.push({ id: id++, ... })], with the mesh [Cubie] mounts for the
    entry: [position={data.initialPos}], identity quaternion, scale 1. *)
Fixpoint pushAll (id : nat) (ps : list Vector3Tuple) : list Cubelet :=
  match ps with
  | [] => []
  | p :: rest =>
      mkCubelet id p p Three.identityQuaternion (initialColorMap p)
                (Some (mkMesh p Three.identityQuaternion unitScale))
      :: pushAll (S id) rest
  end.

Definition initialCubelets : list Cubelet := pushAll 0 lattice.

(** [c.currentPos[axis === 'x' ? 0 : axis === 'y' ? 1 : 2]]. *)
Definition coord (a : Axis) (p : Vector3Tuple) : Z :=
  let '(x, y, z) := p in
  match a with ax_x => x | ax_y => y | ax_z => z end.

(** ** Component state *)

(** [interactRef.current]. *)
Record Interact : Type := mkInteract
  { startFaceNormal : Three.Vector3;
    startPoint : Three.Vector3;
    intersectedCubieId : Z;
    isDragging : bool }.

(** The state of one mounted [Cube3D]: the [cubelets] array (mutated in
    place, never replaced), the [isAnimating] flag, whether [groupRef] and
    [pivotRef] hold an object, and the drag state.  The props [gameState]
    and [scramble] are arguments of the functions that read them. *)
Record Component : Type := mkComponent
  { cubelets : list Cubelet;
    isAnimating : bool;
    groupRef : bool;
    pivotRef : bool;
    interactRef : Interact }.

Definition initialInteract : Interact :=
  mkInteract (Three.vec3 0 0 0) (Three.vec3 0 0 0) (-1) false.

Definition initialComponent : Component :=
  mkComponent initialCubelets false true true initialInteract.

Definition setIsAnimating (b : bool) (s : Component) : Component :=
  mkComponent (cubelets s) b (groupRef s) (pivotRef s) (interactRef s).

Definition setCubelets (cs : list Cubelet) (s : Component) : Component :=
  mkComponent cs (isAnimating s) (groupRef s) (pivotRef s) (interactRef s).

Definition setInteract (i : Interact) (s : Component) : Component :=
  mkComponent (cubelets s) (isAnimating s) (groupRef s) (pivotRef s) i.

(** ** The solved check ([checkSolved], lines 71-122) *)

(** An integer position as a vector, and a vector rounded coordinate by
    coordinate. *)
Definition injV (p : Vector3Tuple) : Three.Vector3 :=
  let '(x, y, z) := p in Three.vec3 (inject_Z x) (inject_Z y) (inject_Z z).

Definition roundV (v : Three.Vector3) : Vector3Tuple :=
  (round (Three.x v), round (Three.y v), round (Three.z v)).

(** [0.1], the double nearest to 1/10. *)
Definition tolerance : Q := Eval vm_compute in Js.double (1 # 10).

(** The body of the loop for one cubelet: [true] when the iteration leaves
    [solved] untouched, [false] when it sets [solved = false] and breaks.
    [up.y - 1] and [front.z - 1] are subtractions of doubles. *)
Definition cubieSolved (c : Cubelet) : bool :=
  match ref c with
  | None => true
  | Some r =>
      if negb (coord ax_x (roundV (injV (currentPos c))) =? coord ax_x (initialPos c))
         || negb (coord ax_y (roundV (injV (currentPos c))) =? coord ax_y (initialPos c))
         || negb (coord ax_z (roundV (injV (currentPos c))) =? coord ax_z (initialPos c))
      then false
      else
        let up := Three.applyQuaternion (quaternion r) (Three.vec3 0 1 0) in
        if Js.gtb (Qabs (Js.sub (Three.y up) 1)) tolerance then false
        else
          let front := Three.applyQuaternion (quaternion r) (Three.vec3 0 0 1) in
          if Js.gtb (Qabs (Js.sub (Three.z front) 1)) tolerance then false
          else true
  end.

(** The value of [solved] after [for (let i = 0; i < 27; i++)].  The array
    always holds 27 entries. *)
Definition solvedLoop (cs : list Cubelet) : bool :=
  forallb cubieSolved (firstn 27 cs).

(** [checkSolved]: the result says whether [onSolve()] is called.
    [gameState] is the prop of the render that made the function
    ([useCallback] with the dependencies [cubelets, gameState, onSolve]). *)
Definition checkSolved (gameState : GameState) (cs : list Cubelet) : bool :=
  if negb (GameState_eqb gameState PLAYING) then false
  else solvedLoop cs.

(** ** [isSolved] of constants.ts (lines 257-271) *)

(** [CubeletData] of types.ts; the tuples hold numbers of any kind. *)
Module CubeletData.
Record t : Type := mk
  { id : Z;
    initialPos : Q * Q * Q;
    currentPos : Q * Q * Q;
    rotation : Q * Q * Q }.
End CubeletData.

(** [angle / (Math.PI / 2)]: the angle in quarter turns. *)
Definition quarterTurns (angle : Q) : Q := Js.div angle (Js.div Js.PI 2).

(** [isSolved]; [%] keeps the sign of the dividend.  No code of the
    application calls the function. *)
Definition isSolved (cubelets : list CubeletData.t) : bool :=
  forallb
    (fun c =>
       let '(r0, r1, r2) := CubeletData.rotation c in
       let '(c0, c1, c2) := CubeletData.currentPos c in
       let '(i0, i1, i2) := CubeletData.initialPos c in
       let rx := Z.rem (round (quarterTurns r0)) 4 in
       let ry := Z.rem (round (quarterTurns r1)) 4 in
       let rz := Z.rem (round (quarterTurns r2)) 4 in
       let isRotZero := (rx =? 0) && (ry =? 0) && (rz =? 0) in
       let matchesPos :=
         (round c0 =? round i0) && (round c1 =? round i1)
         && (round c2 =? round i2) in
       isRotZero && matchesPos)
    cubelets.

(** ** The move engine ([rotateSlice], lines 126-203) *)

(** The entries of the pivot's matrix that stand for cos(pi/2) and
    sin(pi/2): with (s, 0, 0, c) the quaternion [Quaternion.setFromEuler]
    gives the pivot, they are [1 - 2*s*s] and [2*s*c] as
    [Matrix4.compose] evaluates them. *)
Record Numerics : Type := mkNumerics { cosHalfPi : Q; sinHalfPi : Q }.

(** The values of exact trigonometry. *)
Definition exactNumerics : Numerics := mkNumerics 0 1.

(** Double precision, as three.js obtains the matrix of the pivot: from the
    quaternion (sin(pi/4), 0, 0, cos(pi/4)) up to the sign of the turn,
    which in doubles is (0.7071067811865475, 0, 0, 0.7071067811865476), the entry
    1 - 2*sin*sin evaluates to 2^-52 and the entry 2*sin*cos to 1. *)
Definition doubleNumerics : Numerics :=
  mkNumerics (1 # 4503599627370496) 1.

(** [Math.sin(Math.PI / 4)] and [Math.cos(Math.PI / 4)], and the
    quaternion [Quaternion.setFromEuler] gives the pivot for the angle
    [t * Math.PI / 2] about one axis, [t] being 1 or -1: the products with
    the cosine 1 and the sine 0 of the two other angles are exact. *)
Definition sinQuarterPi : Q := 1592262918131443 # 2251799813685248.
Definition cosQuarterPi : Q := 6369051672525773 # 9007199254740992.

Definition pivotQuaternion (a : Axis) (t : Z) : Three.Quaternion :=
  let s := (inject_Z t * sinQuarterPi)%Q in
  match a with
  | ax_x => Three.quat s 0 0 cosQuarterPi
  | ax_y => Three.quat 0 s 0 cosQuarterPi
  | ax_z => Three.quat 0 0 s cosQuarterPi
  end.

(** The computed values are within 1/8 of the exact ones. *)
Definition numerics_ok (num : Numerics) : Prop :=
  (Qabs (cosHalfPi num) <= 1 # 8 /\ Qabs (sinHalfPi num - 1) <= 1 # 8)%Q.

(** [targetRot = (Math.PI / 2) * direction * -1], in units of pi/2. *)
Definition targetRot (d : Direction) : Z := dirZ d * -1.

(** The pivot after [pivotRef.current.rotation.set(0,0,0)] and
    [rotation.<axis> = targetRot]: cos is even and sin is odd, so the
    angle [t * pi/2] with [t] = 1 or -1 has cosine [cosHalfPi] and sine
    [t * sinHalfPi]. *)
Definition pivotRotation (num : Numerics) (a : Axis) (t : Z) : Three.Matrix3 :=
  let c := cosHalfPi num in
  let s := (inject_Z t * sinHalfPi num)%Q in
  match a with
  | ax_x => Three.rotationX c s
  | ax_y => Three.rotationY c s
  | ax_z => Three.rotationZ c s
  end.

(** What the completion callback keeps from the call that started the
    move: the axis, the target angle, and [activeCubies], the objects of
    [cubelets] selected when the move started (given by their indices in
    the array). *)
Record Flight : Type := mkFlight
  { fl_axis : Axis; fl_targetRot : Z; fl_active : list nat }.

(** [round(c.currentPos[...]) === sliceIndex]. *)
Definition inSlice (a : Axis) (sliceIndex : Z) (c : Cubelet) : bool :=
  coord a (roundV (injV (currentPos c))) =? sliceIndex.

(** [cubelets.filter(...)], as the indices (from [i] on) of the entries
    kept. *)
Fixpoint activeFrom (a : Axis) (sliceIndex : Z) (i : nat) (cs : list Cubelet)
  : list nat :=
  match cs with
  | [] => []
  | c :: rest =>
      if inSlice a sliceIndex c
      then i :: activeFrom a sliceIndex (S i) rest
      else activeFrom a sliceIndex (S i) rest
  end.

(** [Object3D.attach] and [Object3D.applyMatrix4] on a mesh: the matrix
    of the mesh is composed anew from its quaternion and its scale, it is
    multiplied from the left by the matrix [m] that takes the old parent's
    frame to the new parent's, and quaternion and scale are read back from
    the product. *)
Definition applyMatrix4 (m : Three.Matrix3) (mesh : Mesh)
  : Three.Quaternion * Three.Vector3 :=
  Three.decompose
    (Three.multiplyMatrices m (Three.compose (quaternion mesh) (scale mesh))).

(** Lines 141-146 for one cubelet of [activeCubies]:
    [pivotRef.current.attach(mesh)], with the pivot and the group both at
    the identity.  The matrix of the mesh is multiplied by the identity,
    which changes no entry; the position stays, quaternion and scale are
    read back from the composed matrix. *)
Definition attach (c : Cubelet) : Cubelet :=
  match ref c with
  | None => c
  | Some mesh =>
      let '(q, s) :=
        Three.decompose (Three.compose (quaternion mesh) (scale mesh)) in
      mkCubelet (id c) (initialPos c) (currentPos c) (rotation c) (colorMap c)
                (Some (mkMesh (position mesh) q s))
  end.

(** [activeCubies.forEach(...)] over the array, entry [i] first. *)
Fixpoint forActive (f : Cubelet -> Cubelet) (active : list nat)
    (i : nat) (cs : list Cubelet) : list Cubelet :=
  match cs with
  | [] => []
  | c :: rest =>
      (if existsb (Nat.eqb i) active then f c else c)
      :: forActive f active (S i) rest
  end.

(** The synchronous part of [rotateSlice] (lines 127-146): [None] when a
    ref is missing and the call returns at once; otherwise the flag is
    set, the slice is selected and its meshes are attached to the pivot,
    which sits at the identity. *)
Definition rotateSlice_start (s : Component) (a : Axis) (sliceIndex : Z)
    (d : Direction) : option (Component * Flight) :=
  if negb (pivotRef s) || negb (groupRef s) then None
  else
    let active := activeFrom a sliceIndex 0 (cubelets s) in
    Some (setIsAnimating true
            (setCubelets (forActive attach active 0 (cubelets s)) s),
          mkFlight a (targetRot d) active).

(** Lines 178-194 for one cubelet of [activeCubies]:
    [groupRef.current.attach(mesh)] multiplies the matrix of the mesh by
    the matrix of the pivot and reads position, quaternion and scale back;
    the position is rounded, quaternion and scale are left as they are,
    and [currentPos] is read back from the mesh.  The position column of
    the product is followed in exact arithmetic, since it is rounded at
    once. *)
Definition detach (num : Numerics) (a : Axis) (t : Z) (c : Cubelet) : Cubelet :=
  match ref c with
  | None => c
  | Some mesh =>
      let pivot := pivotRotation num a t in
      let p := roundV (Three.applyMatrix3 pivot (injV (position mesh))) in
      let '(q, s) := applyMatrix4 pivot mesh in
      mkCubelet (id c) (initialPos c) p (rotation c) (colorMap c)
                (Some (mkMesh p q s))
  end.

Definition detachAll (num : Numerics) (a : Axis) (t : Z) (active : list nat)
    (i : nat) (cs : list Cubelet) : list Cubelet :=
  forActive (detach num a t) active i cs.

(** The last animation frame (lines 170-198).  The pivot was reset when
    the move started and only the angle of the move's axis was written
    since, so its matrix is [pivotRotation]; the result says whether
    [onSolve()] was called.  [gameState] is the prop of the render whose
    [rotateSlice] was called: the callback [animate] keeps the
    [checkSolved] of that render, whatever the state of the game is when
    the frame runs. *)
Definition rotateSlice_finish (num : Numerics) (gameState : GameState)
    (s : Component) (fl : Flight) : Component * bool :=
  let cs := detachAll num (fl_axis fl) (fl_targetRot fl) (fl_active fl) 0
                      (cubelets s) in
  (setIsAnimating false (setCubelets cs s), checkSolved gameState cs).

(** A whole move, from the call to the resolution of its promise. *)
Definition rotateSlice (num : Numerics) (gameState : GameState)
    (s : Component) (a : Axis) (sliceIndex : Z) (d : Direction)
  : Component * bool :=
  match rotateSlice_start s a sliceIndex d with
  | None => (s, false)
  | Some (s1, fl) => rotateSlice_finish num gameState s1 fl
  end.

(** The component after a whole move. *)
Definition commit (num : Numerics) (gameState : GameState)
    (s : Component) (m : Move) : Component :=
  fst (rotateSlice num gameState s (axis m) (slice m) (direction m)).

(** The states the component reaches from its mount by whole moves, under
    any values of the [gameState] prop. *)
Inductive Reachable (num : Numerics) : Component -> Prop :=
| reach_mount : Reachable num initialComponent
| reach_commit : forall s gameState m,
    Reachable num s -> Reachable num (commit num gameState s m).

(** ** The scramble effect (lines 206-222) and [startSequence] of App.tsx *)

(** [for (let i = 0; i < 20; i++) await rotateSlice(axis, slice, dir, 100)]:
    [pick i] is the move drawn in iteration [i]; the result counts the calls
    of [onSolve]. *)
Fixpoint runScramble (num : Numerics) (gameState : GameState)
    (pick : nat -> Move) (n i : nat) (s : Component) : Component * nat :=
  match n with
  | O => (s, O)
  | S n' =>
      let m := pick i in
      let '(s1, solved) :=
        rotateSlice num gameState s (axis m) (slice m) (direction m) in
      let '(s2, k) := runScramble num gameState pick n' (S i) s1 in
      (s2, ((if solved then 1 else 0) + k)%nat)
  end.

(** [useEffect(() => { if (scramble && !isAnimating) runScramble() }, [scramble])]. *)
Definition scrambleEffect (num : Numerics) (gameState : GameState)
    (scramble : bool) (pick : nat -> Move) (s : Component) : Component * nat :=
  if scramble && negb (isAnimating s)
  then runScramble num gameState pick 20 0 s
  else (s, O).

(** The props [App] passes down: [gameState] and [scramble={isScrambling}]. *)
Record Props : Type := mkProps { gameState : GameState; scramble : bool }.

(** [startSequence]: [setIsScrambling(true); setGameState(GameState.IDLE)]. *)
Definition startSequence (p : Props) : Props := mkProps IDLE true.

(** The callback of its timer: [setIsScrambling(false); setGameState(PLAYING)]. *)
Definition startPlaying (p : Props) : Props := mkProps PLAYING false.

(** ** The gesture handlers (lines 225-343) *)

(** What the handlers read from a pointer event: the normal of the hit
    face in world space ([e.face.normal] through the normal matrix of the
    hit object, normalised; [None] when the event has no face), the hit
    point [e.point], and [cubieRefs.current.indexOf(e.object)]. *)
Record PointerEvent : Type := mkPointerEvent
  { worldNormal : option Three.Vector3;
    point : Three.Vector3;
    objectIndex : Z }.

(** Lines 241-244: snap the world normal to the nearest axis. *)
Definition snapNormal (n : Three.Vector3) : Three.Vector3 :=
  let ax := Qabs (Three.x n) in
  let ay := Qabs (Three.y n) in
  let az := Qabs (Three.z n) in
  let maxComp := Qmax (Qmax ax ay) az in
  if Js.eqb ax maxComp then Three.vec3 (Js.sign (Three.x n)) 0 0
  else if Js.eqb ay maxComp then Three.vec3 0 (Js.sign (Three.y n)) 0
  else Three.vec3 0 0 (Js.sign (Three.z n)).

Definition handlePointerDown (gameState : GameState) (s : Component)
    (e : PointerEvent) : Component :=
  if negb (GameState_eqb gameState PLAYING) || isAnimating s then s
  else
    match worldNormal e with
    | None => s
    | Some n =>
        setInteract (mkInteract (snapNormal n) (point e) (objectIndex e) true) s
    end.

Definition handlePointerUp (s : Component) : Component :=
  if negb (isDragging (interactRef s)) then s
  else
    let i := interactRef s in
    setInteract (mkInteract (startFaceNormal i) (startPoint i)
                            (intersectedCubieId i) false) s.

(** Lines 284-340: the move chosen from the snapped normal, the drag
    vector and the pressed cubelet. *)
Definition resolveMove (normal moveVector : Three.Vector3) (cubie : Cubelet)
  : Move :=
  let absX := Qabs (Three.x moveVector) in
  let absY := Qabs (Three.y moveVector) in
  let absZ := Qabs (Three.z moveVector) in
  let pos := roundV (injV (currentPos cubie)) in
  if Js.gtb (Qabs (Three.x normal)) (1 # 2) then
    if Js.gtb absY absZ then
      mkMove ax_z (coord ax_z pos)
        (if Js.gtb (Three.y moveVector * Three.x normal) 0
         then dir_neg else dir_pos)
    else
      mkMove ax_y (coord ax_y pos)
        (if Js.gtb (Three.z moveVector * Three.x normal) 0
         then dir_pos else dir_neg)
  else if Js.gtb (Qabs (Three.y normal)) (1 # 2) then
    if Js.gtb absX absZ then
      mkMove ax_z (coord ax_z pos)
        (if Js.gtb (Three.x moveVector * Three.y normal) 0
         then dir_pos else dir_neg)
    else
      mkMove ax_x (coord ax_x pos)
        (if Js.gtb (Three.z moveVector * Three.y normal) 0
         then dir_neg else dir_pos)
  else
    if Js.gtb absX absY then
      mkMove ax_y (coord ax_y pos)
        (if Js.gtb (Three.x moveVector * Three.z normal) 0
         then dir_neg else dir_pos)
    else
      mkMove ax_x (coord ax_x pos)
        (if Js.gtb (Three.y moveVector * Three.z normal) 0
         then dir_pos else dir_neg).

(** What a drag update did: nothing, an exception on an index outside the
    array, or a call of [rotateSlice] (with the flight it started, if the
    refs were there). *)
Inductive Outcome : Type :=
| Ignored
| Threw
| Requested (m : Move) (fl : option Flight).

(** [handlePointerMove], up to the return of the [rotateSlice] call: the
    animation it starts completes later, in [rotateSlice_finish]. *)
Definition handlePointerMove (s : Component) (e : PointerEvent)
  : Component * Outcome :=
  let i := interactRef s in
  if negb (isDragging i) || isAnimating s || (intersectedCubieId i =? -1)
  then (s, Ignored)
  else
    let moveVector := Three.sub (point e) (startPoint i) in
    if Three.length_lt moveVector (1 # 4) then (s, Ignored)
    else
      let s1 := setInteract (mkInteract (startFaceNormal i) (startPoint i)
                                        (intersectedCubieId i) false) s in
      let found :=
        if intersectedCubieId i <? 0 then None
        else nth_error (cubelets s) (Z.to_nat (intersectedCubieId i)) in
      match found with
      | None => (s1, Threw)
      | Some cubie =>
          let m := resolveMove (startFaceNormal i) moveVector cubie in
          match rotateSlice_start s1 (axis m) (slice m) (direction m) with
          | None => (s1, Requested m None)
          | Some (s2, fl) => (s2, Requested m (Some fl))
          end
      end.

(** The move a drag update resolves, if any. *)
Definition resolved (o : Outcome) : option Move :=
  match o with Requested m _ => Some m | _ => None end.

(** ** Vocabulary of the statements *)

(** A lattice position: every coordinate is -1, 0 or 1. *)
Definition inLattice (p : Vector3Tuple) : Prop :=
  let '(x, y, z) := p in
  (-1 <= x <= 1) /\ (-1 <= y <= 1) /\ (-1 <= z <= 1).

(** The exact quarter turn of a position about an axis, by the angle
    [t * pi/2]. *)
Definition quarterTurn (a : Axis) (t : Z) (p : Vector3Tuple) : Vector3Tuple :=
  let '(x, y, z) := p in
  match a with
  | ax_x => (x, - t * z, t * y)
  | ax_y => (t * z, y, - t * x)
  | ax_z => (- t * y, t * x, z)
  end.

(** The exact effect of a move on a position: the slice turns, the rest
    stays. *)
Definition sliceTurn (a : Axis) (sliceIndex : Z) (d : Direction)
    (p : Vector3Tuple) : Vector3Tuple :=
  if coord a p =? sliceIndex then quarterTurn a (targetRot d) p else p.

(** A move applied to one cubelet: the two re-parentings, if it is in the
    slice. *)
Definition turnSlice (num : Numerics) (a : Axis) (sliceIndex : Z)
    (d : Direction) (c : Cubelet) : Cubelet :=
  if inSlice a sliceIndex c then detach num a (targetRot d) (attach c) else c.

(** Quaternion and scale of a mesh after the two re-parentings of a move
    about the axis [a] by [t] quarter turns. *)
Definition turned (num : Numerics) (a : Axis) (t : Z)
    (qs : Three.Quaternion * Three.Vector3) : Three.Quaternion * Three.Vector3 :=
  let '(q1, s1) := Three.decompose (Three.compose (fst qs) (snd qs)) in
  Three.decompose
    (Three.multiplyMatrices (pivotRotation num a t) (Three.compose q1 s1)).

(** The mesh of the cubelet is mounted and sits where [currentPos] says, on
    the lattice. *)
Definition wellPlaced (c : Cubelet) : Prop :=
  inLattice (currentPos c) /\
  exists q s, ref c = Some (mkMesh (currentPos c) q s).

(** A cubelet with its mesh mounted at [p] with quaternion [q] and scale
    [s]. *)
Definition placed (c : Cubelet) (p : Vector3Tuple) (q : Three.Quaternion)
    (s : Three.Vector3) : Cubelet :=
  mkCubelet (id c) (initialPos c) p (rotation c) (colorMap c)
            (Some (mkMesh p q s)).

(** The invariant of the component between moves. *)
Definition Inv (s : Component) : Prop :=
  groupRef s = true /\ pivotRef s = true /\ Forall wellPlaced (cubelets s).

(** The orientation and the mesh position of a cubelet, read from its
    mesh. *)
Definition orientation (c : Cubelet) : option Three.Quaternion :=
  option_map quaternion (ref c).

Definition meshPosition (c : Cubelet) : option Vector3Tuple :=
  option_map position (ref c).

(** The position is a lattice point, and the mesh sits there. *)
Definition snappedPosition (c : Cubelet) : Prop :=
  inLattice (currentPos c) /\ meshPosition c = Some (currentPos c).

(** Same logical and mesh position. *)
Definition samePosition (c' c : Cubelet) : Prop :=
  currentPos c' = currentPos c /\ meshPosition c' = meshPosition c.

(** Same orientation: the quaternions have the same components. *)
Definition sameOrientation (c' c : Cubelet) : Prop :=
  match orientation c', orientation c with
  | Some q', Some q => Three.quat_eq q' q
  | None, None => True
  | _, _ => False
  end.

(** The orientations stand for the same rotation: a weaker reading, under
    which a quaternion, its opposite and its multiples are one
    orientation. *)
Definition sameRotation (c' c : Cubelet) : Prop :=
  match orientation c', orientation c with
  | Some q', Some q => Three.mat_eq (Three.rotationOf q') (Three.rotationOf q)
  | None, None => True
  | _, _ => False
  end.

(** Position and orientation both as before. *)
Definition samePose (c' c : Cubelet) : Prop :=
  samePosition c' c /\ sameOrientation c' c.

(** The orientation is a member of the rotation group of the cube: the
    rotation the quaternion stands for is one of the 24. *)
Definition inGroup (c : Cubelet) : Prop :=
  exists q, orientation c = Some q
            /\ Three.inCubeGroup (Three.rotationOf q) = true.

(** The inverse of a move, four commits of one move, and a move followed
    by its inverse. *)
Definition inverse (m : Move) : Move :=
  mkMove (axis m) (slice m) (opposite (direction m)).

Definition commit4 (num : Numerics) (gs : GameState) (s : Component) (m : Move)
  : Component :=
  commit num gs (commit num gs (commit num gs (commit num gs s m) m) m) m.

Definition commitBack (num : Numerics) (gs : GameState) (s : Component)
    (m : Move) : Component :=
  commit num gs (commit num gs s m) (inverse m).

(** The cubelet is outside the slice of the move. *)
Definition outside (m : Move) (c : Cubelet) : Prop :=
  inSlice (axis m) (slice m) c = false.

(** The frame of a move on one cubelet: identity, home position and
    colours stay; the position stays unless the cubelet is in the slice. *)
Definition framed (a : Axis) (sliceIndex : Z) (c c' : Cubelet) : Prop :=
  id c' = id c /\ initialPos c' = initialPos c /\ colorMap c' = colorMap c
  /\ (inSlice a sliceIndex c = true \/ currentPos c' = currentPos c).

(** The reference directions of the solved check. *)
Definition upAxis : Three.Vector3 := Three.vec3 0 1 0.
Definition frontAxis : Three.Vector3 := Three.vec3 0 0 1.

(** An orientation applied to a direction: the rotation the quaternion
    stands for, in exact arithmetic. *)
Definition rotated (q : Three.Quaternion) (v : Three.Vector3) : Three.Vector3 :=
  Three.applyMatrix3 (Three.rotationOf q) v.

(** The angle between [v] and [u] is at most the angle of the given
    cosine, which is not negative: the scalar product is at least the
    cosine times the two lengths. *)
Definition withinAngle (cosine : Q) (v u : Three.Vector3) : Prop :=
  (0 <= Three.dot v u
   /\ cosine * cosine * (Three.lengthSq v * Three.lengthSq u)
      <= Three.dot v u * Three.dot v u)%Q.

(** What the solved state asks of one cubelet, for an angular tolerance
    given by its cosine: the cubelet is at home, and its orientation takes
    up to within the tolerance of up and front to within the tolerance of
    front. *)
Definition homeAndUpright (cosine : Q) (c : Cubelet) : Prop :=
  currentPos c = initialPos c /\
  exists q, orientation c = Some q
            /\ withinAngle cosine (rotated q upAxis) upAxis
            /\ withinAngle cosine (rotated q frontAxis) frontAxis.

(** The squared norm of the quaternion is within 1e-6 of 1, and its
    boolean form on the orientation of a cubelet. *)
Definition nearUnit (q : Three.Quaternion) : Prop :=
  (Qabs (Three.normSq q - 1) <= 1 # 1000000)%Q.

Definition nearUnitb (c : Cubelet) : bool :=
  match orientation c with
  | Some q => Qle_bool (Qabs (Three.normSq q - 1)) (1 # 1000000)
  | None => true
  end.

(** 2^-46: a bound on the error of the rounding of a number up to 128. *)
Definition eta : Q := 1 # 70368744177664.

(** An angle that is a whole number of turns, up to an eighth of a turn
    either way: in quarter turns it is within 1/2 of a multiple of 4. *)
Definition wholeTurns (angle : Q) : Prop :=
  exists k : Z,
    (inject_Z (4 * k) - (1 # 2) <= quarterTurns angle
     < inject_Z (4 * k) + (1 # 2))%Q.

(** The same cell of the unit grid: the coordinates round to the same
    integers. *)
Definition sameCell (p p' : Q * Q * Q) : Prop :=
  let '(x, y, z) := p in
  let '(x', y', z') := p' in
  round x = round x' /\ round y = round y' /\ round z = round z'.

(** The six axis directions a normal is snapped to. *)
Definition snapped (n : Three.Vector3) : Prop :=
  In n [Three.vec3 1 0 0; Three.vec3 (-1) 0 0;
        Three.vec3 0 1 0; Three.vec3 0 (-1) 0;
        Three.vec3 0 0 1; Three.vec3 0 0 (-1)].

(** The drag has no component in the plane of the face: its cross product
    with the normal vanishes. *)
Definition alongNormal (n d : Three.Vector3) : Prop :=
  (Three.y n * Three.z d - Three.z n * Three.y d == 0
   /\ Three.z n * Three.x d - Three.x n * Three.z d == 0
   /\ Three.x n * Three.y d - Three.y n * Three.x d == 0)%Q.

(** The component with another face normal latched. *)
Definition withNormal (n : Three.Vector3) (s : Component) : Component :=
  let i := interactRef s in
  setInteract (mkInteract n (startPoint i) (intersectedCubieId i) (isDragging i)) s.

(** The exact difference of two points. *)
Definition difference (a b : Three.Vector3) : Three.Vector3 :=
  Three.vec3 (Three.x a - Three.x b)%Q (Three.y a - Three.y b)%Q
             (Three.z a - Three.z b)%Q.

(** The drag vector of an update, as [currentPoint.sub(startPoint)]
    computes it. *)
Definition dragVector (s : Component) (e : PointerEvent) : Three.Vector3 :=
  Three.sub (point e) (startPoint (interactRef s)).

(** The component is ready to resolve a drag: a press is latched on a
    cubelet of the array and no move is in flight. *)
Definition armed (s : Component) : Prop :=
  isDragging (interactRef s) = true /\ isAnimating s = false
  /\ 0 <= intersectedCubieId (interactRef s)
  /\ exists c, nth_error (cubelets s)
                 (Z.to_nat (intersectedCubieId (interactRef s))) = Some c.

(** ** Sample inputs *)

(** A press on the middle of the right face (cubelet 22, at (1,0,0)) while
    playing, and the component after it. *)
Definition pressRight : PointerEvent :=
  mkPointerEvent (Some (Three.vec3 1 0 0)) (Three.vec3 (3 # 2) 0 0) 22.

Definition pressed : Component :=
  handlePointerDown PLAYING initialComponent pressRight.

(** Pointer updates: a jitter of 0.1 upwards (the double nearest to 0.1), a
    drag of 0.5 upwards, and a drag of one unit along the normal. *)
Definition jitter : PointerEvent :=
  mkPointerEvent None (Three.vec3 (3 # 2) (Js.double (1 # 10)) 0) 22.

Definition dragUp : PointerEvent :=
  mkPointerEvent None (Three.vec3 (3 # 2) (1 # 2) 0) 22.

Definition dragOut : PointerEvent :=
  mkPointerEvent None (Three.vec3 (5 # 2) 0 0) 22.

(** A drag of 9/64 upwards and 0.20669... towards the viewer, whose length
    is below 0.25 by less than 1e-17. *)
Definition graze : PointerEvent :=
  mkPointerEvent None
    (Three.vec3 (3 # 2) (9 # 64) (1861781971660233 # 9007199254740992)) 22.

(** The component while the move (x, 1, +1) is in flight. *)
Definition inFlight : Component :=
  match rotateSlice_start initialComponent ax_x 1 dir_pos with
  | Some (s, _) => s
  | None => initialComponent
  end.

(** Some moves, and the component after the second of them. *)
Definition moveRight : Move := mkMove ax_x 1 dir_pos.
Definition moveLeft : Move := mkMove ax_x (-1) dir_pos.
Definition moveDown : Move := mkMove ax_y (-1) dir_pos.

Definition afterLeft : Component :=
  commit doubleNumerics PLAYING initialComponent moveLeft.

(** ** Runs of moves *)

(** The component after the moves of a list, first to last, and the list
    that undoes a list: the inverses, last to first. *)
Definition commits (num : Numerics) (gs : GameState) (s : Component)
    (ms : list Move) : Component :=
  fold_left (commit num gs) ms s.

Definition undo (ms : list Move) : list Move := rev (map inverse ms).

(** The moves of a list applied to one cubelet. *)
Definition turnsBy (num : Numerics) (ms : list Move) (c : Cubelet) : Cubelet :=
  fold_left (fun c m => turnSlice num (axis m) (slice m) (direction m) c) ms c.

(** The component of a vector along an axis. *)
Definition component (a : Axis) (v : Three.Vector3) : Q :=
  match a with
  | ax_x => Three.x v
  | ax_y => Three.y v
  | ax_z => Three.z v
  end.

(** The number of coordinates of a position that are 0: 0 for a corner,
    1 for an edge, 2 for a face centre, 3 for the core. *)
Definition zeros (p : Vector3Tuple) : nat :=
  let '(x, y, z) := p in
  ((if (x =? 0)%Z then 1 else 0) + (if (y =? 0)%Z then 1 else 0)
   + (if (z =? 0)%Z then 1 else 0))%nat.

(** Every cubelet is where it was mounted. *)
Definition allHome (s : Component) : Prop :=
  Forall (fun c => currentPos c = initialPos c) (cubelets s).

(** * The ranking service (services/rankingService.ts) *)

(** [PlayerRecord] of types.ts.  [timeMs] is a difference of two
    [Date.now()] values, an integer. *)
Record PlayerRecord : Type := mkPlayerRecord
  { nickname : string; timeMs : Z; date : string }.

(** [MOCK_RANKINGS] of constants.ts; the three dates are the values of
    [new Date().toISOString()] when the module is loaded. *)
Definition MOCK_RANKINGS (d1 d2 d3 : string) : list PlayerRecord :=
  [ mkPlayerRecord "SpeedDemon"%string 45000 d1;
    mkPlayerRecord "CubeMaster"%string 120000 d2;
    mkPlayerRecord "RookieOne"%string 300000 d3 ].

(** What the service reads and writes: the item of [localStorage] under
    [STORAGE_KEY] ([None] when [getItem] returns [null]; the JSON text is
    held as the array it encodes), and the array [MOCK_RANKINGS], which the
    service can mutate. *)
Record Storage : Type := mkStorage
  { item : option (list PlayerRecord); mock : list PlayerRecord }.

(** The array a call of [getRankings] returns: [MOCK_RANKINGS] itself, or
    the fresh array made by [JSON.parse]. *)
Inductive RankingsRef : Type :=
| TheMock
| Parsed (l : list PlayerRecord).

Definition deref (st : Storage) (r : RankingsRef) : list PlayerRecord :=
  match r with
  | TheMock => mock st
  | Parsed l => l
  end.

(** [getRankings] (lines 6-14). *)
Definition getRankings (st : Storage) : Storage * RankingsRef :=
  match item st with
  | None => (mkStorage (Some (mock st)) (mock st), TheMock)
  | Some l => (st, Parsed l)
  end.

(** [rankings.sort((a, b) => a.timeMs - b.timeMs)]: [Array.prototype.sort]
    is stable, so that records with equal times keep their order. *)
Fixpoint insertRecord (r : PlayerRecord) (l : list PlayerRecord)
  : list PlayerRecord :=
  match l with
  | [] => [r]
  | y :: rest =>
      if timeMs r <=? timeMs y then r :: l else y :: insertRecord r rest
  end.

Definition sortByTimeMs (l : list PlayerRecord) : list PlayerRecord :=
  fold_right insertRecord [] l.

(** [saveScore] (lines 16-27); [now] is [new Date().toISOString()].  The
    push and the sort are done in place, on [MOCK_RANKINGS] when that is
    the array [getRankings] returned. *)
Definition saveScore (now : string) (st : Storage) (nickname : string)
    (timeMs : Z) : Storage * list PlayerRecord :=
  let '(st1, rankings) := getRankings st in
  let newRecord := mkPlayerRecord nickname timeMs now in
  let sorted := sortByTimeMs (deref st1 rankings ++ [newRecord]) in
  match rankings with
  | TheMock => (mkStorage (Some sorted) sorted, sorted)
  | Parsed _ => (mkStorage (Some sorted) (mock st1), sorted)
  end.

(** [checkNicknameAvailability] (lines 29-33); [toLowerCase] is the
    method of the strings. *)
Definition checkNicknameAvailability (toLowerCase : string -> string)
    (st : Storage) (nickname' : string) : Storage * bool :=
  let '(st1, rankings) := getRankings st in
  (st1,
   negb (existsb (fun r => String.eqb (toLowerCase (nickname r))
                                      (toLowerCase nickname'))
                 (deref st1 rankings))).

(** [getPlayerRank] (lines 35-41). *)
Definition getPlayerRank (st : Storage) (timeMs' : Z) : Storage * nat :=
  let '(st1, rankings) := getRankings st in
  (st1,
   (List.length (filter (fun r => (timeMs r <? timeMs')%Z)
                        (deref st1 rankings))
    + 1)%nat).

(** The rankings a call of [getRankings] would return. *)
Definition rankingsOf (st : Storage) : list PlayerRecord :=
  deref (fst (getRankings st)) (snd (getRankings st)).

(** Ordered by time, fastest first. *)
Definition byTime (l : list PlayerRecord) : Prop :=
  StronglySorted (fun a b => timeMs a <= timeMs b) l.

(** One save, as an argument list. *)
Record Save : Type := mkSave
  { sv_nickname : string; sv_timeMs : Z; sv_now : string }.

Definition saveAll (saves : list Save) (st : Storage) : Storage :=
  fold_left (fun st sv =>
               fst (saveScore (sv_now sv) st (sv_nickname sv) (sv_timeMs sv)))
            saves st.

(** The stores a browser reaches: the module is loaded on an empty store;
    the service is called; the page is loaded again, which makes a new
    [MOCK_RANKINGS] and keeps the item; the item is removed from outside. *)
Inductive Stored : Storage -> Prop :=
| stored_load : forall d1 d2 d3,
    Stored (mkStorage None (MOCK_RANKINGS d1 d2 d3))
| stored_get : forall st, Stored st -> Stored (fst (getRankings st))
| stored_save : forall st now n t,
    Stored st -> Stored (fst (saveScore now st n t))
| stored_reload : forall st d1 d2 d3,
    Stored st -> Stored (mkStorage (item st) (MOCK_RANKINGS d1 d2 d3))
| stored_removed : forall st,
    Stored st -> Stored (mkStorage None (mock st)).

(** * The application shell (App.tsx) *)

Module App.

(** The state variables of [App] (lines 12-21). *)
Record State : Type := mkState
  { gameState : GameState;
    nickname : string;
    nicknameError : string;
    startTime : Z;
    elapsed : Z;
    isScrambling : bool;
    finalRank : option nat;
    aiMessage : string;
    loadingAi : bool;
    isMuted : bool }.

(** What the handlers act on besides the state variables: the stored
    rankings, [audioManager.isPlayingBGM], and the number of timers that
    [startSequence] has set and that have not fired. *)
Record World : Type := mkWorld
  { ui : State;
    store : Storage;
    isPlayingBGM : bool;
    timers : nat }.

Definition initialState : State :=
  mkState IDLE EmptyString EmptyString 0 0 false None EmptyString false false.

Definition setUi (u : State) (w : World) : World :=
  mkWorld u (store w) (isPlayingBGM w) (timers w).

(** [n.toString()] and the interpolation of a number, an integer here. *)
Definition toString (v : Z) : string :=
  NilEmpty.string_of_int (Z.to_int v).

(** [s.padStart(n, c)] for a pad string of one character. *)
Definition padStart (n : nat) (c : ascii) (s : string) : string :=
  (string_of_list_ascii (repeat c (n - String.length s)) ++ s)%string.

(** [formatTime] (lines 107-113) on an integer number of milliseconds:
    [Math.floor] of a quotient is the floored division, [%] keeps the sign
    of the dividend. *)
Definition formatTime (ms : Z) : string :=
  let s := ms / 1000 in
  let m := s / 60 in
  let remS := Z.rem s 60 in
  let dec := Z.rem ms 1000 / 100 in
  (toString m ++ ":" ++ padStart 2 "0" (toString remS) ++ "." ++ toString dec)%string.

(** [startSequence] (lines 54-60): the three state updates and the timer
    it sets. *)
Definition startSequence (w : World) : World :=
  let u := ui w in
  mkWorld (mkState IDLE (nickname u) (nicknameError u) (startTime u) 0 true
                   (finalRank u) (aiMessage u) (loadingAi u) (isMuted u))
          (store w) (isPlayingBGM w) (S (timers w)).

(** The callback of the timer (lines 61-66); [nowMs] is [Date.now()]. *)
Definition timerFires (nowMs : Z) (w : World) : World :=
  match timers w with
  | O => w
  | S k =>
      let u := ui w in
      mkWorld (mkState PLAYING (nickname u) (nicknameError u) nowMs 0 false
                       (finalRank u) (aiMessage u) (loadingAi u) (isMuted u))
              (store w) (isPlayingBGM w) k
  end.

(** [handleStart] (lines 35-52); [trim] and [toLowerCase] are the methods
    of the strings.  [audioManager.startBGM()] sets [isPlayingBGM]. *)
Definition handleStart (trim toLowerCase : string -> string) (w : World)
  : World :=
  let u := ui w in
  if String.eqb (trim (nickname u)) EmptyString then
    setUi (mkState (gameState u) (nickname u) "Please enter a nickname"
                   (startTime u) (elapsed u) (isScrambling u) (finalRank u)
                   (aiMessage u) (loadingAi u) (isMuted u)) w
  else
    let '(st1, available) :=
      checkNicknameAvailability toLowerCase (store w) (trim (nickname u)) in
    if negb available then
      mkWorld (mkState (gameState u) (nickname u)
                       "Nickname already taken. Choose another."
                       (startTime u) (elapsed u) (isScrambling u)
                       (finalRank u) (aiMessage u) (loadingAi u) (isMuted u))
              st1 (isPlayingBGM w) (timers w)
    else
      startSequence
        (mkWorld (mkState (gameState u) (nickname u) EmptyString (startTime u)
                          (elapsed u) (isScrambling u) (finalRank u)
                          (aiMessage u) (loadingAi u) (isMuted u))
                 st1
                 (if negb (isMuted u) then true else isPlayingBGM w)
                 (timers w)).

(** [handleSolve] (lines 69-82), up to the request of the victory message.
    The function is the one of the render [r] that [Cube3D] received as
    [onSolve]: it reads [gameState], [startTime] and [nickname] of that
    render.  [nowMs] is [Date.now()], [nowIso] the date of the record. *)
Definition handleSolve (nowMs : Z) (nowIso : string) (r : State) (w : World)
  : World :=
  if negb (GameState_eqb (gameState r) PLAYING) then w
  else
    let finalTime := nowMs - startTime r in
    let '(st1, _) := saveScore nowIso (store w) (nickname r) finalTime in
    let '(st2, rank) := getPlayerRank st1 finalTime in
    let u := ui w in
    mkWorld (mkState SOLVED (nickname u) (nicknameError u) (startTime u)
                     finalTime (isScrambling u) (Some rank) (aiMessage u)
                     true (isMuted u))
            st2 (isPlayingBGM w) (timers w).

(** The end of [handleSolve] (lines 83-85), when the message arrives. *)
Definition messageArrives (msg : string) (w : World) : World :=
  let u := ui w in
  setUi (mkState (gameState u) (nickname u) (nicknameError u) (startTime u)
                 (elapsed u) (isScrambling u) (finalRank u) msg false
                 (isMuted u)) w.

(** [handleReset] (lines 88-94); [audioManager.stopBGM()] clears
    [isPlayingBGM]. *)
Definition handleReset (w : World) : World :=
  let u := ui w in
  mkWorld (mkState IDLE (nickname u) (nicknameError u) (startTime u) 0
                   (isScrambling u) None EmptyString (loadingAi u) (isMuted u))
          (store w) false (timers w).

(** [handleRetry] (lines 96-99). *)
Definition handleRetry (w : World) : World := startSequence w.

(** [toggleMute] (lines 101-104), with [audioManager.toggleBGM()]. *)
Definition toggleMute (w : World) : World :=
  let playing := negb (isPlayingBGM w) in
  let u := ui w in
  mkWorld (mkState (gameState u) (nickname u) (nicknameError u) (startTime u)
                   (elapsed u) (isScrambling u) (finalRank u) (aiMessage u)
                   (loadingAi u) (negb playing))
          (store w) playing (timers w).

(** [onChange={(e) => setNickname(e.target.value)}]. *)
Definition setNickname (v : string) (w : World) : World :=
  let u := ui w in
  setUi (mkState (gameState u) v (nicknameError u) (startTime u) (elapsed u)
                 (isScrambling u) (finalRank u) (aiMessage u) (loadingAi u)
                 (isMuted u)) w.

(** The callback of the interval of the timer effect (lines 24-32), set
    while the game is played. *)
Definition tick (nowMs : Z) (w : World) : World :=
  let u := ui w in
  if GameState_eqb (gameState u) PLAYING then
    setUi (mkState (gameState u) (nickname u) (nicknameError u) (startTime u)
                   (nowMs - startTime u) (isScrambling u) (finalRank u)
                   (aiMessage u) (loadingAi u) (isMuted u)) w
  else w.

(** What happens to the application, in any order. *)
Inductive Event : Type :=
| ClickStart
| ClickHome
| ClickRetry
| ClickMute
| TypeNickname (v : string)
| ScrambleOver (nowMs : Z)
| ClockTick (nowMs : Z)
| CubeSolved (nowMs : Z) (nowIso : string) (r : State)
| MessageArrives (msg : string).

Definition step (trim toLowerCase : string -> string) (w : World) (e : Event)
  : World :=
  match e with
  | ClickStart => handleStart trim toLowerCase w
  | ClickHome => handleReset w
  | ClickRetry => handleRetry w
  | ClickMute => toggleMute w
  | TypeNickname v => setNickname v w
  | ScrambleOver nowMs => timerFires nowMs w
  | ClockTick nowMs => tick nowMs w
  | CubeSolved nowMs nowIso r => handleSolve nowMs nowIso r w
  | MessageArrives msg => messageArrives msg w
  end.

Definition run (trim toLowerCase : string -> string) (w : World)
    (es : list Event) : World :=
  fold_left (step trim toLowerCase) es w.

End App.

(** ** Sample states of the game *)

(** The component after a scramble that drew the move (x, 1, +1) twenty
    times, which brings every cubelet home, and after one more such move
    made while playing: one move from home. *)
Definition scrambled : Component :=
  fst (scrambleEffect doubleNumerics IDLE true (fun _ => moveRight)
                      initialComponent).

Definition oneMoveAway : Component :=
  commit doubleNumerics PLAYING scrambled moveRight.

(** The request of the inverse move on that component, and the completion
    of the move when the render of the request had the given
    [gameState]. *)
Definition requested : option (Component * Flight) :=
  rotateSlice_start oneMoveAway ax_x 1 dir_neg.

Definition landed (gameState : GameState) : Component * bool :=
  match requested with
  | Some (s1, fl) => rotateSlice_finish doubleNumerics gameState s1 fl
  | None => (oneMoveAway, false)
  end.

(** The application while a game is played: started at 1000 ms by the
    player Neo, with nothing stored yet. *)
Definition whilePlaying : App.World :=
  App.mkWorld
    (App.mkState PLAYING "Neo" EmptyString 1000 0 false None EmptyString
                 false false)
    (mkStorage None (MOCK_RANKINGS "d1" "d2" "d3")) true 0.

(** A cubelet whose mesh is not mounted, and a cubelet whose mesh has the
    quaternion (1/8, 0, 0, 1/8): a quarter turn about x, not of unit
    length. *)
Definition unmount (c : Cubelet) : Cubelet :=
  mkCubelet (id c) (initialPos c) (currentPos c) (rotation c) (colorMap c)
            None.

Definition tilt (c : Cubelet) : Cubelet :=
  mkCubelet (id c) (initialPos c) (currentPos c) (rotation c) (colorMap c)
            (option_map
               (fun mesh => mkMesh (position mesh)
                                   (Three.quat (1 # 8) 0 0 (1 # 8))
                                   (scale mesh))
               (ref c)).

(** A store in the sense of types.ts with one cubelet, three eighths of a
    unit from its home. *)
Definition offGrid : list CubeletData.t :=
  [CubeletData.mk 0 (0, 0, 0) (3 # 8, 0, 0) (0, 0, 0)]%Q.

(** * Proofs *)

(** ** Rounding *)

Lemma round_inject_Z (v : Z) : round (inject_Z v) = v.
Proof.
  unfold round, Qfloor, Qplus, inject_Z; simpl.
  apply eq_sym, Z.div_unique with (r := 1); lia.
Qed.

(** A number within 1/2 of an integer rounds to it. *)
Lemma round_near (v : Z) (q : Q) :
  (Qabs (q - inject_Z v) < 1 # 2)%Q -> round q = v.
Proof.
  intros H. apply Qabs_Qlt_condition in H. destruct H as [Hlo Hhi].
  unfold round.
  pose proof (Qfloor_le (q + (1 # 2))) as Hf.
  pose proof (Qlt_floor (q + (1 # 2))) as Hc.
  rewrite inject_Z_plus in Hc.
  assert (H1 : (inject_Z (Qfloor (q + (1 # 2))) < inject_Z (v + 1))%Q).
  { rewrite inject_Z_plus. change (inject_Z 1) with 1%Q in *. lra. }
  assert (H2 : (inject_Z v < inject_Z (Qfloor (q + (1 # 2)) + 1))%Q).
  { rewrite inject_Z_plus. change (inject_Z 1) with 1%Q in *. lra. }
  rewrite <- Zlt_Qlt in H1, H2. lia.
Qed.

Lemma roundV_injV p : roundV (injV p) = p.
Proof.
  destruct p as [[x y] z]; unfold roundV, injV; simpl.
  now rewrite !round_inject_Z.
Qed.

Lemma inSlice_coord a k c : inSlice a k c = (coord a (currentPos c) =? k).
Proof. unfold inSlice. now rewrite roundV_injV. Qed.

(** ** Lists *)

Lemma NoDup_map_injective {A B : Type} (f : A -> B) (l : list A) :
  (forall u v, f u = f v -> u = v) -> NoDup l -> NoDup (map f l).
Proof.
  intros Hinj H. induction H as [| u l Hu H IH]; simpl; constructor; auto.
  rewrite in_map_iff. intros [v [E Hv]]. apply Hinj in E. now subst.
Qed.

Lemma Forall2_map_right {A : Type} (R : A -> A -> Prop) (f : A -> A) (l : list A) :
  (forall u, R u (f u)) -> Forall2 R l (map f l).
Proof. intros H. induction l; simpl; constructor; auto. Qed.

Lemma Forall2_map_left {A : Type} (R : A -> A -> Prop) (f : A -> A) (l : list A) :
  Forall (fun u => R (f u) u) l -> Forall2 R (map f l) l.
Proof. intros H. induction H; simpl; constructor; auto. Qed.

Lemma Forall2_same {A : Type} (R : A -> A -> Prop) (l : list A) :
  (forall u, R u u) -> Forall2 R l l.
Proof. intros H. induction l; constructor; auto. Qed.

(** ** A move is a map over the store *)

Section MoveAsMap.

Variable num : Numerics.
Variables (a : Axis) (k : Z).

Lemma activeFrom_ge cs : forall i j,
  existsb (Nat.eqb j) (activeFrom a k i cs) = true -> (i <= j)%nat.
Proof.
  induction cs as [| c rest IH]; intros i j H; simpl in H.
  - discriminate.
  - destruct (inSlice a k c); simpl in H.
    + apply orb_true_iff in H. destruct H as [H | H].
      * apply Nat.eqb_eq in H. lia.
      * apply IH in H. lia.
    + apply IH in H. lia.
Qed.

Lemma forActive_skip (f : Cubelet -> Cubelet) j active cs : forall i,
  (j < i)%nat ->
  forActive f (j :: active) i cs = forActive f active i cs.
Proof.
  induction cs as [| c rest IH]; intros i Hlt; simpl.
  - reflexivity.
  - rewrite IH by lia.
    replace (Nat.eqb i j) with false; [reflexivity |].
    symmetry. apply Nat.eqb_neq. lia.
Qed.

(** The callback runs on the entries selected when the move started, also
    when the entries have been worked on in between. *)
Lemma forActive_activeFrom (f h : Cubelet -> Cubelet) cs : forall i,
  forActive f (activeFrom a k i cs) i (map h cs)
  = map (fun c => if inSlice a k c then f (h c) else h c) cs.
Proof.
  induction cs as [| c rest IH]; intros i; simpl.
  - reflexivity.
  - destruct (inSlice a k c) eqn:E; simpl.
    + rewrite Nat.eqb_refl; simpl.
      rewrite forActive_skip by lia. now rewrite IH.
    + destruct (existsb (Nat.eqb i) (activeFrom a k (S i) rest)) eqn:Ex.
      * apply activeFrom_ge in Ex. lia.
      * now rewrite IH.
Qed.

Lemma rotateSlice_start_cubelets s d s1 fl :
  rotateSlice_start s a k d = Some (s1, fl) ->
  cubelets s1
  = map (fun c => if inSlice a k c then attach c else c) (cubelets s)
  /\ fl = mkFlight a (targetRot d) (activeFrom a k 0 (cubelets s)).
Proof.
  unfold rotateSlice_start.
  destruct (negb (pivotRef s) || negb (groupRef s)); [discriminate |].
  intros H. injection H as <- <-. split; [| reflexivity].
  cbn [setIsAnimating setCubelets cubelets].
  rewrite <- (map_id (cubelets s)) at 2.
  rewrite forActive_activeFrom. apply map_ext. intros c. reflexivity.
Qed.

Lemma rotateSlice_cubelets gs s d :
  groupRef s = true -> pivotRef s = true ->
  cubelets (fst (rotateSlice num gs s a k d))
  = map (turnSlice num a k d) (cubelets s).
Proof.
  intros Hg Hp. unfold rotateSlice.
  destruct (rotateSlice_start s a k d) as [[s1 fl] |] eqn:E.
  - destruct (rotateSlice_start_cubelets _ _ _ _ E) as [H1 ->].
    unfold rotateSlice_finish, detachAll.
    cbn [fst setIsAnimating setCubelets cubelets fl_axis fl_targetRot fl_active].
    rewrite H1, forActive_activeFrom. apply map_ext. intros c.
    unfold turnSlice. destruct (inSlice a k c); reflexivity.
  - unfold rotateSlice_start in E. rewrite Hg, Hp in E. discriminate E.
Qed.

Lemma rotateSlice_refs gs s d :
  groupRef (fst (rotateSlice num gs s a k d)) = groupRef s /\
  pivotRef (fst (rotateSlice num gs s a k d)) = pivotRef s.
Proof.
  unfold rotateSlice, rotateSlice_start.
  destruct (negb (pivotRef s) || negb (groupRef s)); simpl; auto.
Qed.

Lemma turnSlice_framed d c : framed a k c (turnSlice num a k d c).
Proof.
  unfold framed, turnSlice. destruct (inSlice a k c) eqn:E.
  - unfold detach, attach, applyMatrix4. destruct (ref c) as [mesh |].
    + destruct (Three.decompose _); cbn [ref].
      destruct (Three.decompose _); simpl; auto.
    + destruct (ref c); simpl; auto.
  - auto.
Qed.

End MoveAsMap.

Lemma commit_cubelets num gs s m :
  Inv s ->
  cubelets (commit num gs s m)
  = map (turnSlice num (axis m) (slice m) (direction m)) (cubelets s).
Proof.
  intros (Hg & Hp & _). unfold commit. now apply rotateSlice_cubelets.
Qed.

(** ** Exact lattice arithmetic *)

Lemma lattice_cases (v : Z) : -1 <= v <= 1 -> v = -1 \/ v = 0 \/ v = 1.
Proof. lia. Qed.

Ltac lattice_split p :=
  let x := fresh "x" in let y := fresh "y" in let z := fresh "z" in
  let Hx := fresh in let Hy := fresh in let Hz := fresh in
  destruct p as [[x y] z]; intros (Hx & Hy & Hz);
  apply lattice_cases in Hx; apply lattice_cases in Hy;
  apply lattice_cases in Hz;
  destruct Hx as [-> | [-> | ->]]; destruct Hy as [-> | [-> | ->]];
  destruct Hz as [-> | [-> | ->]].

Lemma quarterTurn_coord a d p :
  coord a (quarterTurn a (targetRot d) p) = coord a p.
Proof. destruct p as [[x y] z]; destruct a; reflexivity. Qed.

Lemma quarterTurn_lattice a d p :
  inLattice p -> inLattice (quarterTurn a (targetRot d) p).
Proof.
  destruct p as [[x y] z]; destruct a, d;
    unfold inLattice, quarterTurn, targetRot; simpl dirZ; lia.
Qed.

Lemma quarterTurn_inverse a d p :
  quarterTurn a (targetRot (opposite d)) (quarterTurn a (targetRot d) p) = p.
Proof.
  destruct p as [[x y] z]; destruct a, d; unfold quarterTurn, targetRot;
    simpl dirZ; f_equal; try f_equal; lia.
Qed.

Lemma quarterTurn_four a d p :
  quarterTurn a (targetRot d) (quarterTurn a (targetRot d)
    (quarterTurn a (targetRot d) (quarterTurn a (targetRot d) p))) = p.
Proof.
  destruct p as [[x y] z]; destruct a, d; unfold quarterTurn, targetRot;
    simpl dirZ; f_equal; try f_equal; lia.
Qed.

Lemma sliceTurn_coord a k d p :
  coord a (sliceTurn a k d p) = coord a p.
Proof.
  unfold sliceTurn. destruct (coord a p =? k); auto using quarterTurn_coord.
Qed.

Lemma sliceTurn_lattice a k d p :
  inLattice p -> inLattice (sliceTurn a k d p).
Proof.
  unfold sliceTurn. destruct (coord a p =? k); auto using quarterTurn_lattice.
Qed.

Create HintDb lattice.
#[local] Hint Resolve quarterTurn_lattice sliceTurn_lattice : lattice.

Lemma sliceTurn_in a k d p :
  coord a p = k -> sliceTurn a k d p = quarterTurn a (targetRot d) p.
Proof. intros H. unfold sliceTurn. now rewrite H, Z.eqb_refl. Qed.

Lemma sliceTurn_out a k d p :
  coord a p <> k -> sliceTurn a k d p = p.
Proof.
  intros H. unfold sliceTurn. apply Z.eqb_neq in H. now rewrite H.
Qed.

Lemma sliceTurn_inverse a k d p :
  sliceTurn a k (opposite d) (sliceTurn a k d p) = p.
Proof.
  destruct (Z.eq_dec (coord a p) k) as [E | E].
  - rewrite (sliceTurn_in a k d p E).
    rewrite sliceTurn_in by (now rewrite quarterTurn_coord).
    apply quarterTurn_inverse.
  - now rewrite !sliceTurn_out by (now rewrite ?sliceTurn_coord).
Qed.

Lemma sliceTurn_four a k d p :
  sliceTurn a k d (sliceTurn a k d (sliceTurn a k d (sliceTurn a k d p))) = p.
Proof.
  destruct (Z.eq_dec (coord a p) k) as [E | E].
  - rewrite (sliceTurn_in a k d p E).
    rewrite !sliceTurn_in by (now rewrite ?sliceTurn_coord, ?quarterTurn_coord).
    apply quarterTurn_four.
  - now rewrite !sliceTurn_out by (now rewrite ?sliceTurn_coord).
Qed.

Lemma sliceTurn_injective a k d p p' :
  sliceTurn a k d p = sliceTurn a k d p' -> p = p'.
Proof.
  intros H. rewrite <- (sliceTurn_inverse a k d p), H.
  apply sliceTurn_inverse.
Qed.

Lemma initial_positions : map currentPos initialCubelets = lattice.
Proof. reflexivity. Qed.

Lemma lattice_NoDup : NoDup lattice.
Proof.
  unfold lattice; simpl.
  repeat (constructor; [simpl; intuition congruence |]).
  constructor.
Qed.

Lemma lattice_In p : inLattice p <-> In p lattice.
Proof.
  split.
  - revert p. intros p. lattice_split p; simpl; tauto.
  - unfold lattice; simpl. intros H.
    repeat (destruct H as [<- | H]; [simpl; lia |]). destruct H.
Qed.

Lemma wellPlaced_placed c :
  wellPlaced c -> exists q s, c = placed c (currentPos c) q s.
Proof.
  intros [_ [q [s Hq]]]. exists q, s. destruct c; simpl in *. now rewrite Hq.
Qed.

Lemma wellPlaced_snapped c : wellPlaced c -> snappedPosition c.
Proof.
  intros [Hp [q [s Hq]]]. split; [exact Hp |].
  unfold meshPosition. now rewrite Hq.
Qed.

Lemma initial_Inv : Inv initialComponent.
Proof.
  unfold Inv; repeat split.
  unfold initialComponent, initialCubelets, lattice; simpl.
  repeat (constructor; [split; [simpl; lia | do 2 eexists; reflexivity] |]).
  constructor.
Qed.

(** ** Moves under computed trigonometry *)

Section Tolerance.

Variable num : Numerics.
Hypothesis num_ok : numerics_ok num.

Lemma numerics_ok_bounds :
  (- (1 # 8) <= cosHalfPi num <= 1 # 8 /\ 7 # 8 <= sinHalfPi num <= 9 # 8)%Q.
Proof.
  destruct num_ok as [Hc Hs].
  apply Qabs_Qle_condition in Hc. apply Qabs_Qle_condition in Hs.
  split; lra.
Qed.

(** Rounding removes the residue: the position the mesh gets is the exact
    quarter turn of the position it had. *)
Lemma detach_position a d p :
  inLattice p ->
  roundV (Three.applyMatrix3 (pivotRotation num a (targetRot d)) (injV p))
  = quarterTurn a (targetRot d) p.
Proof.
  pose proof numerics_ok_bounds as [Hc Hs].
  destruct num as [c s]; simpl in Hc, Hs. clear num_ok.
  lattice_split p; destruct a, d;
    unfold roundV, quarterTurn, pivotRotation, Three.applyMatrix3,
      Three.dot, targetRot;
    cbn [Three.x Three.y Three.z Three.r1 Three.r2 Three.r3 Three.rotationX
         Three.rotationY Three.rotationZ injV dirZ cosHalfPi sinHalfPi];
    repeat f_equal; apply round_near; apply Qabs_Qlt_condition;
    cbn [Z.mul Z.opp Pos.mul inject_Z]; unfold inject_Z; split; lra.
Qed.

(** A move on a mounted cubelet: the position makes the exact quarter
    turn, quaternion and scale are the ones the two re-parentings
    compute. *)
Lemma turnSlice_placed a k d c p q s :
  inLattice p ->
  turnSlice num a k d (placed c p q s)
  = let qs := if coord a p =? k then turned num a (targetRot d) (q, s)
              else (q, s) in
    placed c (sliceTurn a k d p) (fst qs) (snd qs).
Proof.
  intros Hp. unfold turnSlice, sliceTurn. rewrite inSlice_coord.
  cbn [placed currentPos].
  destruct (coord a p =? k); [| reflexivity].
  unfold detach, attach, applyMatrix4, turned, placed.
  cbn [ref position quaternion scale id initialPos rotation colorMap fst snd].
  destruct (Three.decompose (Three.compose q s)) as [q1 s1].
  cbn [ref position quaternion scale id initialPos rotation colorMap
       currentPos].
  destruct (Three.decompose _) as [q2 s2].
  cbv zeta. cbn [fst snd]. now rewrite detach_position.
Qed.

Lemma turnSlice_wellPlaced a k d c :
  wellPlaced c -> wellPlaced (turnSlice num a k d c).
Proof.
  intros Hw. destruct (wellPlaced_placed c Hw) as [q [s Hq]].
  destruct Hw as [Hp _]. rewrite Hq, turnSlice_placed by assumption.
  split; cbn [placed currentPos ref].
  - auto with lattice.
  - do 2 eexists; reflexivity.
Qed.

Lemma turnSlice_currentPos a k d c :
  wellPlaced c ->
  currentPos (turnSlice num a k d c) = sliceTurn a k d (currentPos c).
Proof.
  intros Hw. destruct (wellPlaced_placed c Hw) as [q [s Hq]].
  destruct Hw as [Hp _]. rewrite Hq at 1.
  now rewrite turnSlice_placed.
Qed.

(** A cubelet outside the slice is not touched. *)
Lemma turnSlice_outside a k d c :
  inSlice a k c = false -> turnSlice num a k d c = c.
Proof. intros H. unfold turnSlice. now rewrite H. Qed.

(** The positions after a move are the positions of the exact quarter
    turn of the slice. *)
Lemma turnSlice_position a k d c :
  wellPlaced c ->
  wellPlaced (turnSlice num a k d c)
  /\ currentPos (turnSlice num a k d c) = sliceTurn a k d (currentPos c)
  /\ meshPosition (turnSlice num a k d c)
     = Some (sliceTurn a k d (currentPos c)).
Proof.
  intros Hw. split; [now apply turnSlice_wellPlaced |].
  split; [now apply turnSlice_currentPos |].
  destruct (wellPlaced_snapped _ (turnSlice_wellPlaced a k d c Hw)) as [_ E].
  rewrite E. f_equal. now apply turnSlice_currentPos.
Qed.

Lemma turnSlice_four_position a k d c :
  wellPlaced c ->
  let t := turnSlice num a k d in
  samePosition (t (t (t (t c)))) c.
Proof.
  intros Hw t.
  destruct (turnSlice_position a k d c Hw) as (W1 & P1 & M1).
  destruct (turnSlice_position a k d _ W1) as (W2 & P2 & M2).
  destruct (turnSlice_position a k d _ W2) as (W3 & P3 & M3).
  destruct (turnSlice_position a k d _ W3) as (W4 & P4 & M4).
  destruct (wellPlaced_snapped c Hw) as [_ M0].
  assert (E : currentPos (t (t (t (t c)))) = currentPos c).
  { unfold t. rewrite P4, P3, P2, P1. apply sliceTurn_four. }
  split; [exact E |].
  unfold t in *. rewrite M4, M0, P3, P2, P1. f_equal. apply sliceTurn_four.
Qed.

Lemma turnSlice_inverse_position a k d c :
  wellPlaced c ->
  samePosition (turnSlice num a k (opposite d) (turnSlice num a k d c)) c.
Proof.
  intros Hw.
  destruct (turnSlice_position a k d c Hw) as (W1 & P1 & M1).
  destruct (turnSlice_position a k (opposite d) _ W1) as (W2 & P2 & M2).
  destruct (wellPlaced_snapped c Hw) as [_ M0].
  split.
  - rewrite P2, P1. apply sliceTurn_inverse.
  - rewrite M2, M0, P1. f_equal. apply sliceTurn_inverse.
Qed.

Lemma commit_Inv gs s m : Inv s -> Inv (commit num gs s m).
Proof.
  intros HI. pose proof HI as (Hg & Hp & Hw).
  unfold Inv. rewrite commit_cubelets by assumption.
  unfold commit.
  destruct (rotateSlice_refs num (axis m) (slice m) gs s (direction m))
    as [-> ->].
  repeat split; auto.
  apply Forall_map. eapply Forall_impl; [| exact Hw].
  intros c Hc. now apply turnSlice_wellPlaced.
Qed.

Lemma Reachable_Inv s : Reachable num s -> Inv s.
Proof.
  intros H. induction H; auto using initial_Inv, commit_Inv.
Qed.

Lemma commit_positions gs s m :
  Inv s ->
  map currentPos (cubelets (commit num gs s m))
  = map (sliceTurn (axis m) (slice m) (direction m))
        (map currentPos (cubelets s)).
Proof.
  intros HI. rewrite commit_cubelets by assumption.
  rewrite !map_map. apply map_ext_in. intros c Hc.
  apply turnSlice_currentPos.
  destruct HI as (_ & _ & Hw). rewrite Forall_forall in Hw. auto.
Qed.

Lemma Reachable_positions s :
  Reachable num s ->
  List.length (map currentPos (cubelets s)) = 27%nat
  /\ NoDup (map currentPos (cubelets s))
  /\ Forall inLattice (map currentPos (cubelets s)).
Proof.
  intros H. induction H as [| s gs m H IH].
  - change (cubelets initialComponent) with initialCubelets.
    rewrite initial_positions.
    split; [reflexivity |]. split; [apply lattice_NoDup |].
    apply Forall_forall. intros p. apply lattice_In.
  - destruct IH as (Hlen & Hnd & Hlat).
    rewrite commit_positions by auto using Reachable_Inv.
    split; [now rewrite length_map |]. split.
    + apply NoDup_map_injective; auto.
      intros p p'. apply sliceTurn_injective.
    + apply Forall_map. eapply Forall_impl; [| exact Hlat].
      intros p. apply sliceTurn_lattice.
Qed.

Lemma commit4_cubelets gs s m :
  Inv s ->
  cubelets (commit4 num gs s m)
  = map (fun c =>
           let t := turnSlice num (axis m) (slice m) (direction m) in
           t (t (t (t c)))) (cubelets s).
Proof.
  intros HI. unfold commit4.
  rewrite !commit_cubelets by auto using commit_Inv.
  now rewrite !map_map.
Qed.

Lemma commitBack_cubelets gs s m :
  Inv s ->
  cubelets (commitBack num gs s m)
  = map (fun c =>
           turnSlice num (axis m) (slice m) (opposite (direction m))
             (turnSlice num (axis m) (slice m) (direction m) c)) (cubelets s).
Proof.
  intros HI. unfold commitBack.
  rewrite !commit_cubelets by auto using commit_Inv.
  now rewrite !map_map.
Qed.

End Tolerance.

Lemma doubleNumerics_ok : numerics_ok doubleNumerics.
Proof. split; apply Qle_bool_iff; reflexivity. Qed.

(** The matrix [Object3D.updateMatrix] composes for the pivot is the one
    of [doubleNumerics], for the three axes and the two directions. *)
Lemma pivot_matrix_in_doubles a d :
  Three.mat_eq
    (Three.compose (pivotQuaternion a (targetRot d)) unitScale)
    (pivotRotation doubleNumerics a (targetRot d)).
Proof. destruct a, d; vm_compute; repeat split; reflexivity. Qed.

(** ** Poses *)

Lemma Forall2_nth_error {A : Type} (R : A -> A -> Prop) (l' l : list A) :
  Forall2 R l' l ->
  forall n u' u, nth_error l' n = Some u' -> nth_error l n = Some u -> R u' u.
Proof.
  induction 1 as [| a' a l' l Ha _ IH]; intros [| n] u' u H' H;
    simpl in *; try discriminate.
  - injection H' as <-. injection H as <-. exact Ha.
  - eauto.
Qed.

Lemma Forall2_at {A : Type} (R : A -> A -> Prop) (l' l : list A) (n : nat)
    u' u :
  nth_error l' n = Some u' -> nth_error l n = Some u ->
  Forall2 R l' l -> R u' u.
Proof. intros H' H F. exact (Forall2_nth_error R l' l F n u' u H' H). Qed.

(** From a relation between two stores to its instance at entry [k],
    evaluated. *)
Ltac at_entry H k :=
  eapply (Forall2_at _ _ _ k) in H;
  [| vm_compute; reflexivity | vm_compute; reflexivity];
  vm_compute in H.

(** ** Comparisons and the gesture handlers *)

Lemma gtb_true_iff a b : Js.gtb a b = true <-> (b < a)%Q.
Proof.
  unfold Js.gtb. rewrite negb_true_iff.
  destruct (Qle_bool a b) eqn:E.
  - apply Qle_bool_iff in E. split; [discriminate | intros H; lra].
  - split; [intros _ | reflexivity].
    destruct (Qlt_le_dec b a) as [Hlt | Hle]; auto.
    apply Qle_bool_iff in Hle. congruence.
Qed.

Lemma ltb_true_iff a b : Js.ltb a b = true <-> (a < b)%Q.
Proof. exact (gtb_true_iff b a). Qed.

Lemma gtb_false_iff a b : Js.gtb a b = false <-> (a <= b)%Q.
Proof.
  unfold Js.gtb. rewrite negb_false_iff. apply Qle_bool_iff.
Qed.

Lemma Qabs_facts v : (0 <= Qabs v /\ (Qabs v == v \/ Qabs v == - v))%Q.
Proof.
  split; [apply Qabs_nonneg |].
  destruct (Qlt_le_dec v 0) as [H | H].
  - right. apply Qabs_neg. lra.
  - left. now apply Qabs_pos.
Qed.

Lemma Qabs_zero v : (Qabs v == 0)%Q -> (v == 0)%Q.
Proof.
  intros H. destruct (Qabs_facts v) as [_ [E | E]]; lra.
Qed.

Lemma sign_nonzero v :
  ~ (v == 0)%Q -> Js.sign v = 1%Q \/ Js.sign v = (-1)%Q.
Proof.
  intros H. unfold Js.sign. destruct v as [n dn]. simpl.
  destruct n as [| p | p]; simpl; auto.
  exfalso. apply H. reflexivity.
Qed.

(** The handler snaps every normal that is not the zero vector to one of
    the six axis directions. *)
Lemma snapNormal_snapped n :
  ~ Three.vec_eq n (Three.vec3 0 0 0) -> snapped (snapNormal n).
Proof.
  intros Hn. destruct n as [nx ny nz]. unfold Three.vec_eq in Hn; simpl in Hn.
  unfold snapNormal; cbn [Three.x Three.y Three.z].
  pose proof (Q.le_max_l (Qmax (Qabs nx) (Qabs ny)) (Qabs nz)) as M1.
  pose proof (Q.le_max_r (Qmax (Qabs nx) (Qabs ny)) (Qabs nz)) as M2.
  pose proof (Q.le_max_l (Qabs nx) (Qabs ny)) as M3.
  pose proof (Q.le_max_r (Qabs nx) (Qabs ny)) as M4.
  destruct (Qabs_facts nx) as [Px _].
  destruct (Qabs_facts ny) as [Py _].
  destruct (Qabs_facts nz) as [Pz _].
  set (mx := Qmax (Qmax (Qabs nx) (Qabs ny)) (Qabs nz)) in *.
  assert (Hmax : (mx == Qabs nx \/ mx == Qabs ny \/ mx == Qabs nz)%Q).
  { unfold mx.
    destruct (Q.max_spec (Qmax (Qabs nx) (Qabs ny)) (Qabs nz))
      as [[_ E] | [_ E]].
    - right; right; exact E.
    - destruct (Q.max_spec (Qabs nx) (Qabs ny)) as [[_ E'] | [_ E']];
        [right; left | left]; rewrite E; exact E'. }
  assert (Hpos : ~ (mx == 0)%Q).
  { intros E. apply Hn. repeat split; apply Qabs_zero; lra. }
  unfold Js.eqb, snapped.
  destruct (Qeq_bool (Qabs nx) mx) eqn:Ex.
  { apply Qeq_bool_iff in Ex.
    assert (Hx : ~ (nx == 0)%Q).
    { intros E. apply Hpos. rewrite <- Ex, E. reflexivity. }
    destruct (sign_nonzero nx Hx) as [-> | ->]; simpl; tauto. }
  destruct (Qeq_bool (Qabs ny) mx) eqn:Ey.
  { apply Qeq_bool_iff in Ey.
    assert (Hy : ~ (ny == 0)%Q).
    { intros E. apply Hpos. rewrite <- Ey, E. reflexivity. }
    destruct (sign_nonzero ny Hy) as [-> | ->]; simpl; tauto. }
  assert (Ez : (mx == Qabs nz)%Q).
  { destruct Hmax as [E | [E | E]]; auto.
    - apply Qeq_sym, Qeq_bool_iff in E. congruence.
    - apply Qeq_sym, Qeq_bool_iff in E. congruence. }
  assert (Hz : ~ (nz == 0)%Q).
  { intros E. apply Hpos. rewrite Ez, E. reflexivity. }
  destruct (sign_nonzero nz Hz) as [-> | ->]; simpl; tauto.
Qed.

Ltac normal_tests :=
  repeat match goal with
  | |- context [Js.gtb (Qabs ?v) (1 # 2)] =>
      let b := eval vm_compute in (Js.gtb (Qabs v) (1 # 2)) in
      change (Js.gtb (Qabs v) (1 # 2)) with b
  end;
  cbv iota.

Ltac compare_cases :=
  repeat match goal with
  | |- context [Js.gtb ?u ?v] =>
      let E := fresh "E" in
      destruct (Js.gtb u v) eqn:E;
      [apply gtb_true_iff in E | apply gtb_false_iff in E]
  end.

(** On opposite faces, a drag with a component in the plane of the face
    resolves to opposite turns of the same slice. *)
Lemma resolveMove_opposite n d c :
  snapped n -> ~ alongNormal n d ->
  axis (resolveMove (Three.negate n) d c) = axis (resolveMove n d c)
  /\ slice (resolveMove (Three.negate n) d c) = slice (resolveMove n d c)
  /\ direction (resolveMove (Three.negate n) d c)
     = opposite (direction (resolveMove n d c)).
Proof.
  intros Hs Hn. destruct d as [dx dy dz].
  destruct (Qabs_facts dx) as [Px [Ax | Ax]];
  destruct (Qabs_facts dy) as [Py [Ay | Ay]];
  destruct (Qabs_facts dz) as [Pz [Az | Az]];
  unfold snapped in Hs; simpl in Hs;
  destruct Hs as [<- | [<- | [<- | [<- | [<- | [<- | []]]]]]];
  unfold alongNormal in Hn; cbn [Three.x Three.y Three.z] in Hn;
  unfold resolveMove; cbn [Three.x Three.y Three.z Three.negate];
  normal_tests; compare_cases; cbn [axis slice direction opposite];
  repeat split; try reflexivity; try lra;
  exfalso; apply Hn; repeat split; lra.
Qed.

Lemma handlePointerMove_resolved s e :
  armed s ->
  Three.length_lt (dragVector s e) (1 # 4) = false ->
  exists c,
    nth_error (cubelets s) (Z.to_nat (intersectedCubieId (interactRef s)))
    = Some c
    /\ resolved (snd (handlePointerMove s e))
       = Some (resolveMove (startFaceNormal (interactRef s)) (dragVector s e) c).
Proof.
  intros (Hd & Ha & Hi & c & Hc) Hl. exists c. split; [exact Hc |].
  unfold handlePointerMove. rewrite Hd, Ha. cbn [negb orb].
  destruct (Z.eqb_spec (intersectedCubieId (interactRef s)) (-1)) as [E | _];
    [lia |].
  unfold dragVector in Hl. rewrite Hl.
  destruct (Z.ltb_spec (intersectedCubieId (interactRef s)) 0) as [E | _];
    [lia |].
  rewrite Hc.
  match goal with
  | |- context [rotateSlice_start ?u ?a ?k ?d] =>
      destruct (rotateSlice_start u a k d) as [[s2 fl] |]
  end; reflexivity.
Qed.

Lemma withNormal_armed n s : armed s -> armed (withNormal n s).
Proof. intros H. exact H. Qed.

Lemma pressed_armed : armed pressed.
Proof.
  repeat split; try reflexivity; try (vm_compute; discriminate).
  eexists. reflexivity.
Qed.

(** ** The solved check and its guard *)

(** ** Rounding to doubles *)

Lemma roundHalfEven_near (v : Q) :
  (Qabs (inject_Z (Js.roundHalfEven v) - v) <= 1 # 2)%Q.
Proof.
  unfold Js.roundHalfEven.
  pose proof (Qfloor_le v) as Hlo. pose proof (Qlt_floor v) as Hhi.
  rewrite inject_Z_plus in Hhi. change (inject_Z 1) with 1%Q in Hhi.
  set (f := Qfloor v) in *.
  apply Qabs_Qle_condition.
  destruct (Qcompare_spec (v - inject_Z f) (1 # 2)) as [E | E | E].
  - destruct (Z.even f); [| rewrite inject_Z_plus; change (inject_Z 1) with 1%Q];
      split; lra.
  - split; lra.
  - rewrite inject_Z_plus; change (inject_Z 1) with 1%Q. split; lra.
Qed.

Lemma pow2_pos (e : Z) : (0 < 2 ^ e)%Q.
Proof. apply Qpower_0_lt. reflexivity. Qed.

(** The binary exponent is not too large. *)
Lemma ilog2_le (v : Q) : (0 < v)%Q -> (2 ^ Js.ilog2 v <= v)%Q.
Proof.
  intros Hv. unfold Js.ilog2.
  set (e := Z.log2 (Qnum v) - Z.log2 (Z.pos (Qden v))).
  destruct (Qle_bool (2 ^ e) v) eqn:E; [now apply Qle_bool_iff |].
  destruct v as [n d]. cbn [Qnum Qden] in *.
  assert (Hn : 0 < n). { unfold Qlt in Hv; simpl in Hv. lia. }
  pose proof (Z.log2_spec n Hn) as [Hn1 _].
  pose proof (Z.log2_spec (Z.pos d) (Pos2Z.is_pos d)) as [_ Hd2].
  set (A := Z.log2 n) in *. set (B := Z.log2 (Z.pos d)) in *.
  assert (HA : 0 <= A) by apply Z.log2_nonneg.
  assert (HB : 0 <= B) by apply Z.log2_nonneg.
  replace (e - 1) with (A + - (Z.succ B)) by (unfold e; lia).
  rewrite Qpower_plus by discriminate.
  rewrite Qpower_opp.
  change (2 ^ A)%Q with (inject_Z 2 ^ A)%Q.
  change (2 ^ Z.succ B)%Q with (inject_Z 2 ^ Z.succ B)%Q.
  rewrite <- !Zpower_Qpower by lia.
  rewrite (Qmake_Qdiv n d).
  assert (H1 : (inject_Z (2 ^ A) <= inject_Z n)%Q) by (now rewrite <- Zle_Qle).
  assert (H2 : (inject_Z (Z.pos d) < inject_Z (2 ^ Z.succ B))%Q)
    by (now rewrite <- Zlt_Qlt).
  assert (H3 : (0 < inject_Z (Z.pos d))%Q) by (rewrite <- (Zlt_Qlt 0); lia).
  assert (H4 : (0 < inject_Z (2 ^ A))%Q).
  { rewrite <- (Zlt_Qlt 0). apply Z.pow_pos_nonneg; lia. }
  set (P := inject_Z (2 ^ A)) in *. set (R := inject_Z (2 ^ Z.succ B)) in *.
  set (N := inject_Z n) in *. set (D := inject_Z (Z.pos d)) in *.
  apply Qle_shift_div_l; [exact H3 |].
  apply Qle_trans with (P * / R * R)%Q.
  - apply Qmult_le_l.
    + apply Qmult_lt_0_compat; [exact H4 | apply Qinv_lt_0_compat; lra].
    + lra.
  - setoid_replace (P * / R * R)%Q with P by (field; lra). exact H1.
Qed.

(** The relative error of a rounding is at most 2^-53. *)
Lemma double_error (v : Q) :
  (Qabs (Js.double v - v) <= Qabs v * (1 # 9007199254740992))%Q.
Proof.
  unfold Js.double.
  destruct (Qeq_bool v 0) eqn:E.
  - apply Qeq_bool_iff in E. rewrite E. apply Qle_bool_iff. reflexivity.
  - apply Qeq_bool_neq in E.
    assert (Hv : (0 < Qabs v)%Q).
    { pose proof (Qabs_nonneg v) as H0.
      destruct (Qeq_dec (Qabs v) 0) as [Z0 | NZ]; [| lra].
      elim E. now apply Qabs_zero. }
    pose proof (ilog2_le (Qabs v) Hv) as Hl.
    set (e := Js.ilog2 (Qabs v)) in *.
    assert (Hu : (2 ^ (e - 52) == 2 ^ e * (1 # 4503599627370496))%Q).
    { replace (e - 52) with (e + -52) by lia.
      rewrite Qpower_plus by discriminate. reflexivity. }
    pose proof (pow2_pos (e - 52)) as Hp.
    set (u := (2 ^ (e - 52))%Q) in *.
    pose proof (roundHalfEven_near (v / u)) as Hr.
    set (k := inject_Z (Js.roundHalfEven (v / u))) in *.
    rewrite Qred_correct.
    setoid_replace (k * u - v)%Q with ((k - v / u) * u)%Q by (field; lra).
    rewrite Qabs_Qmult. rewrite (Qabs_pos u) by lra.
    apply Qle_trans with ((1 # 2) * u)%Q.
    + apply Qmult_le_compat_r; [exact Hr | lra].
    + rewrite Hu. pose proof (pow2_pos e). lra.
Qed.

(** [Math.sqrt] stays below 1/4 on arguments below 1/16 - 2^-57. *)
Lemma sqrt_below (v : Q) :
  (v <= (1 # 16) - (1 # 144115188075855872))%Q -> (Js.sqrt v < 1 # 4)%Q.
Proof.
  intros Hv. unfold Js.sqrt.
  destruct (Qle_bool v 0) eqn:E0; [reflexivity |].
  assert (Hpos : (0 < v)%Q).
  { destruct (Qlt_le_dec 0 v) as [H | H]; [exact H |].
    apply Qle_bool_iff in H. congruence. }
  pose proof (ilog2_le v Hpos) as Hl.
  assert (He : Js.ilog2 v <= -5).
  { assert (H : Js.ilog2 v < -4); [| lia].
    apply Qpower_lt_compat_l_inv with (q := 2%Q); [| reflexivity].
    apply Qle_lt_trans with v; [exact Hl |].
    change (2 ^ (-4))%Q with (1 # 16)%Q. clear Hl. lra. }
  assert (Hes : Js.ilog2 v / 2 - 52 <= -55).
  { pose proof (Z.div_le_mono _ (-5) 2 ltac:(lia) He) as H.
    change (-5 / 2) with (-3) in H. lia. }
  pose proof (Qpower_le_compat_l 2 _ _ Hes ltac:(discriminate)) as Hu.
  change (2 ^ (-55))%Q with (1 # 36028797018963968)%Q in Hu.
  pose proof (pow2_pos (Js.ilog2 v / 2 - 52)) as Hu0.
  set (u := (2 ^ (Js.ilog2 v / 2 - 52))%Q) in *. clearbody u. clear Hl.
  assert (Hq : (0 <= v / (u * u))%Q).
  { apply Qle_shift_div_l; nra. }
  assert (Hf : 0 <= Qfloor (v / (u * u))).
  { change 0 with (Qfloor 0). now apply Qfloor_resp_le. }
  pose proof (Z.sqrt_spec _ Hf) as [Hk _]. cbv zeta in Hk.
  pose proof (Z.sqrt_nonneg (Qfloor (v / (u * u)))) as Hk0.
  set (k := Z.sqrt (Qfloor (v / (u * u)))) in *.
  assert (Hkv : (inject_Z k * u * (inject_Z k * u) <= v)%Q).
  { assert (H1 : (inject_Z (k * k) <= v / (u * u))%Q).
    { eapply Qle_trans; [| apply Qfloor_le]. now rewrite <- Zle_Qle. }
    rewrite inject_Z_mult in H1.
    assert (H2 : (inject_Z k * inject_Z k * (u * u)
                  <= v / (u * u) * (u * u))%Q)
      by (apply Qmult_le_compat_r; [exact H1 | nra]).
    setoid_replace (v / (u * u) * (u * u))%Q with v in H2 by (field; lra).
    lra. }
  assert (Hk1 : (0 <= inject_Z k)%Q) by (now rewrite <- (Zle_Qle 0)).
  set (K := inject_Z k) in *.
  assert (Hsame : (K * u < 1 # 4)%Q) by nra.
  assert (Hnext : ((K + (1 # 2)) * u * ((K + (1 # 2)) * u) <= v ->
                   (K + 1) * u < 1 # 4)%Q).
  { intros Hm.
    assert (Hm1 : ((K + (1 # 2)) * u < (1 # 4) - (1 # 72057594037927936))%Q)
      by nra.
    nra. }
  rewrite Qred_correct.
  destruct (Qcompare_spec v ((K + (1 # 2)) * u * ((K + (1 # 2)) * u)))
    as [Ec | Ec | Ec].
  - destruct (Z.even k); [exact Hsame |].
    rewrite inject_Z_plus. change (inject_Z 1) with 1%Q. fold K.
    apply Hnext. rewrite Ec. apply Qle_refl.
  - exact Hsame.
  - rewrite inject_Z_plus. change (inject_Z 1) with 1%Q. fold K.
    apply Hnext. lra.
Qed.

Local Open Scope Q_scope.

Lemma double_near (v : Q) :
  -128 <= v <= 128 -> v - eta <= Js.double v <= v + eta.
Proof.
  intros [Hlo Hhi]. pose proof (double_error v) as H.
  assert (Hv : Qabs v <= 128) by (apply Qabs_Qle_condition; split; lra).
  assert (He : Qabs (Js.double v - v) <= eta).
  { eapply Qle_trans; [exact H |]. unfold eta.
    setoid_replace (1 # 70368744177664) with (128 * (1 # 9007199254740992))
      by reflexivity.
    apply Qmult_le_compat_r; [exact Hv | discriminate]. }
  apply Qabs_Qle_condition in He. split; lra.
Qed.

Lemma mul_close (x y y0 e : Q) :
  -2 <= x <= 2 -> - e <= y - y0 <= e -> - (2 * e) <= x * y - x * y0 <= 2 * e.
Proof. intros. split; nra. Qed.

Lemma sq_range (a : Q) : -2 <= a <= 2 -> 0 <= a * a <= 4.
Proof. intros. split; nra. Qed.

(** One rounding: the value is replaced by a number within [eta] of it. *)
Ltac rounding t :=
  let H := fresh "R" in
  let d := fresh "d" in
  pose proof (double_near t ltac:(split; lra)) as H;
  unfold eta in H;
  set (d := Js.double t) in *; clearbody d.

(** ** The length of a drag *)

(** The square of a rounded difference. *)
Lemma square_close (e d sq : Q) :
  - (1 # 4) <= e <= 1 # 4 ->
  e - eta <= d <= e + eta ->
  d * d - eta <= sq <= d * d + eta ->
  e * e - 2 * eta <= sq <= e * e + 2 * eta.
Proof. unfold eta. intros He Hd Hs. split; nra. Qed.

(** A drag shorter than 0.2499999 is shorter than 0.25 as computed. *)
Lemma length_short (p s : Three.Vector3) :
  Three.lengthSq (difference p s)
  <= (2499999 # 10000000) * (2499999 # 10000000) ->
  Three.length (Three.sub p s) < 1 # 4.
Proof.
  destruct p as [px py pz], s as [sx sy sz].
  cbv [difference Three.lengthSq Three.length Three.sub Three.x Three.y
       Three.z Js.add Js.sub Js.mul].
  set (ex := px - sx). set (ey := py - sy). set (ez := pz - sz).
  intros H.
  assert (Hx : - (1 # 4) <= ex <= 1 # 4) by (split; nra).
  assert (Hy : - (1 # 4) <= ey <= 1 # 4) by (split; nra).
  assert (Hz : - (1 # 4) <= ez <= 1 # 4) by (split; nra).
  pose proof (double_near ex ltac:(split; lra)) as Dx.
  pose proof (double_near ey ltac:(split; lra)) as Dy.
  pose proof (double_near ez ltac:(split; lra)) as Dz.
  set (dx := Js.double ex) in *. set (dy := Js.double ey) in *.
  set (dz := Js.double ez) in *. clearbody dx dy dz.
  assert (Bx : -128 <= dx * dx <= 128) by (unfold eta in *; split; nra).
  assert (By : -128 <= dy * dy <= 128) by (unfold eta in *; split; nra).
  assert (Bz : -128 <= dz * dz <= 128) by (unfold eta in *; split; nra).
  pose proof (square_close ex dx _ Hx Dx (double_near _ Bx)) as Sx.
  pose proof (square_close ey dy _ Hy Dy (double_near _ By)) as Sy.
  pose proof (square_close ez dz _ Hz Dz (double_near _ Bz)) as Sz.
  set (qx := Js.double (dx * dx)) in *. set (qy := Js.double (dy * dy)) in *.
  set (qz := Js.double (dz * dz)) in *. clearbody qx qy qz.
  unfold eta in *.
  assert (0 <= ex * ex) by nra. assert (0 <= ey * ey) by nra.
  assert (0 <= ez * ez) by nra.
  rounding (qx + qy). rounding (d + qz).
  apply sqrt_below. lra.
Qed.

(** ** The solved check *)

(** [up.applyQuaternion(q)] and [front.applyQuaternion(q)] in doubles: the
    coordinate the check reads is, up to 1e-9, the entry of the matrix of
    the quaternion, not divided by the norm. *)
Lemma applyQuaternion_up (a b c w : Q) :
  -2 <= a <= 2 -> -2 <= b <= 2 -> -2 <= c <= 2 -> -2 <= w <= 2 ->
  - (1 # 1000000000)
  <= Three.y (Three.applyQuaternion (Three.quat a b c w) upAxis)
     - (1 - 2 * (a * a + c * c))
  <= 1 # 1000000000.
Proof.
  intros Ha Hb Hc Hw.
  pose proof (sq_range a Ha) as Ha2. pose proof (sq_range c Hc) as Hc2.
  cbv [Three.applyQuaternion upAxis Three.x Three.y Three.z Three.qx Three.qy
       Three.qz Three.qw Js.add Js.sub Js.mul].
  rounding (b * 0). rounding (c * 1). rounding (d - d0). rounding (2 * d1).
  rounding (c * 0). rounding (a * 0). rounding (d3 - d4). rounding (2 * d5).
  rounding (a * 1). rounding (d7 - d). rounding (2 * d8).
  pose proof (mul_close w d6 0 (1 # 100000000000) Hw ltac:(lra)) as M1.
  pose proof (mul_close c d2 (-2 * c) (1 # 100000000000) Hc ltac:(lra)) as M2.
  pose proof (mul_close a d9 (2 * a) (1 # 100000000000) Ha ltac:(lra)) as M3.
  rounding (w * d6). rounding (1 + d10). rounding (c * d2). rounding (d11 + d12).
  rounding (a * d9). rounding (d13 - d14).
  lra.
Qed.

Lemma applyQuaternion_front (a b c w : Q) :
  -2 <= a <= 2 -> -2 <= b <= 2 -> -2 <= c <= 2 -> -2 <= w <= 2 ->
  - (1 # 1000000000)
  <= Three.z (Three.applyQuaternion (Three.quat a b c w) frontAxis)
     - (1 - 2 * (a * a + b * b))
  <= 1 # 1000000000.
Proof.
  intros Ha Hb Hc Hw.
  pose proof (sq_range a Ha) as Ha2. pose proof (sq_range b Hb) as Hb2.
  cbv [Three.applyQuaternion frontAxis Three.x Three.y Three.z Three.qx
       Three.qy Three.qz Three.qw Js.add Js.sub Js.mul].
  rounding (b * 1). rounding (c * 0). rounding (d - d0). rounding (2 * d1).
  rounding (a * 1). rounding (d0 - d3). rounding (2 * d4).
  rounding (a * 0). rounding (b * 0). rounding (d6 - d7). rounding (2 * d8).
  pose proof (mul_close w d9 0 (1 # 100000000000) Hw ltac:(lra)) as M1.
  pose proof (mul_close a d5 (-2 * a) (1 # 100000000000) Ha ltac:(lra)) as M2.
  pose proof (mul_close b d2 (2 * b) (1 # 100000000000) Hb ltac:(lra)) as M3.
  rounding (w * d9). rounding (1 + d10). rounding (a * d5). rounding (d11 + d12).
  rounding (b * d2). rounding (d13 - d14).
  lra.
Qed.

(** The components of a quaternion near the unit sphere. *)
Lemma nearUnit_bounds (a b c w : Q) :
  nearUnit (Three.quat a b c w) ->
  (-2 <= a <= 2 /\ -2 <= b <= 2 /\ -2 <= c <= 2 /\ -2 <= w <= 2)
  /\ 999999 # 1000000 <= a * a + b * b + c * c + w * w <= 1000001 # 1000000.
Proof.
  unfold nearUnit, Three.normSq. cbn [Three.qx Three.qy Three.qz Three.qw].
  intros H. apply Qabs_Qle_condition in H.
  assert (0 <= a * a) by nra. assert (0 <= b * b) by nra.
  assert (0 <= c * c) by nra. assert (0 <= w * w) by nra.
  split; [| lra].
  repeat split; nra.
Qed.

(** The test of the check on a coordinate [t] that is within 1e-9 of
    [1 - 2 * r * n], where [n] is the squared norm of the quaternion and
    [1 - 2 * r] the cosine of the angle. *)
Lemma tilt_pass (t r n : Q) :
  - (1 # 1000000000) <= t - (1 - 2 * (r * n)) <= 1 # 1000000000 ->
  0 <= r <= 1 -> 999999 # 1000000 <= n <= 1000001 # 1000000 ->
  90001 # 100000 <= 1 - 2 * r ->
  Js.gtb (Qabs (Js.sub t 1)) tolerance = false.
Proof.
  intros Ht Hr Hn Hy.
  assert (Hrn : r * (n - 1) <= 1 # 1000000 /\ - (1 # 1000000) <= r * (n - 1))
    by (split; nra).
  apply gtb_false_iff. unfold Js.sub.
  assert (Hb : -128 <= t - 1 <= 128) by (split; nra).
  pose proof (double_near (t - 1) Hb) as [H1 H2]. unfold eta in *.
  apply Qabs_Qle_condition. unfold tolerance.
  split; nra.
Qed.

Lemma tilt_only (t r n : Q) :
  - (1 # 1000000000) <= t - (1 - 2 * (r * n)) <= 1 # 1000000000 ->
  0 <= r <= 1 -> 999999 # 1000000 <= n <= 1000001 # 1000000 ->
  Js.gtb (Qabs (Js.sub t 1)) tolerance = false ->
  89999 # 100000 <= 1 - 2 * r.
Proof.
  intros Ht Hr Hn H.
  assert (Hrn : r * (n - 1) <= 1 # 1000000 /\ - (1 # 1000000) <= r * (n - 1))
    by (split; nra).
  apply gtb_false_iff in H. unfold Js.sub in H.
  assert (Hb : -128 <= t - 1 <= 128) by (split; nra).
  pose proof (double_near (t - 1) Hb) as [H1 H2]. unfold eta in *.
  apply Qabs_Qle_condition in H. unfold tolerance in H.
  nra.
Qed.

(** A rotation keeps lengths: the turned up direction has length 1, and its
    scalar product with up is the middle entry of the matrix. *)
Lemma rotated_up (a b c w : Q) :
  ~ a * a + b * b + c * c + w * w == 0 ->
  Three.dot (rotated (Three.quat a b c w) upAxis) upAxis
  == 1 - 2 * ((a * a + c * c) / (a * a + b * b + c * c + w * w))
  /\ Three.lengthSq (rotated (Three.quat a b c w) upAxis) == 1
  /\ Three.lengthSq upAxis == 1.
Proof.
  intros Hn.
  cbv [rotated upAxis Three.applyMatrix3 Three.rotationOf Three.normSq
       Three.dot Three.lengthSq Three.x Three.y Three.z Three.r1 Three.r2
       Three.r3 Three.qx Three.qy Three.qz Three.qw].
  repeat split; field; exact Hn.
Qed.

Lemma rotated_front (a b c w : Q) :
  ~ a * a + b * b + c * c + w * w == 0 ->
  Three.dot (rotated (Three.quat a b c w) frontAxis) frontAxis
  == 1 - 2 * ((a * a + b * b) / (a * a + b * b + c * c + w * w))
  /\ Three.lengthSq (rotated (Three.quat a b c w) frontAxis) == 1
  /\ Three.lengthSq frontAxis == 1.
Proof.
  intros Hn.
  cbv [rotated frontAxis Three.applyMatrix3 Three.rotationOf Three.normSq
       Three.dot Three.lengthSq Three.x Three.y Three.z Three.r1 Three.r2
       Three.r3 Three.qx Three.qy Three.qz Three.qw].
  repeat split; field; exact Hn.
Qed.

(** For vectors of length 1 the angle is within the bound exactly when the
    scalar product is at least the cosine. *)
Lemma withinAngle_unit (k : Q) (v u : Three.Vector3) (y : Q) :
  0 < k ->
  Three.dot v u == y -> Three.lengthSq v == 1 -> Three.lengthSq u == 1 ->
  (withinAngle k v u <-> k <= y).
Proof.
  intros Hk Hd Hv Hu. unfold withinAngle. rewrite Hd, Hv, Hu.
  split; [intros [H0 H] | intros H; split]; nra.
Qed.

(** The share of the squared norm that two components have. *)
Lemma share (p n : Q) :
  0 <= p <= n -> 0 < n -> 0 <= p / n <= 1 /\ p / n * n == p.
Proof.
  intros [H0 H1] Hn. split; [split |].
  - apply Qle_shift_div_l; lra.
  - apply Qle_shift_div_r; lra.
  - field. lra.
Qed.

Local Close Scope Q_scope.

(** The test on the up direction, between two bounds on the angle. *)
Lemma up_test (q : Three.Quaternion) :
  nearUnit q ->
  (withinAngle (90001 # 100000) (rotated q upAxis) upAxis ->
   Js.gtb (Qabs (Js.sub (Three.y (Three.applyQuaternion q upAxis)) 1))
          tolerance = false)
  /\ (Js.gtb (Qabs (Js.sub (Three.y (Three.applyQuaternion q upAxis)) 1))
             tolerance = false ->
      withinAngle (89999 # 100000) (rotated q upAxis) upAxis).
Proof.
  destruct q as [a b c w]. intros Hq.
  destruct (nearUnit_bounds a b c w Hq) as [(Ha & Hb & Hc & Hw) Hn].
  set (n := (a * a + b * b + c * c + w * w)%Q) in *.
  assert (Hn0 : ~ (n == 0)%Q) by (intros E; rewrite E in Hn; lra).
  destruct (rotated_up a b c w Hn0) as (Ed & Ev & Eu). fold n in Ed.
  assert (Hp : (0 <= a * a + c * c <= n)%Q) by (unfold n; split; nra).
  destruct (share (a * a + c * c) n Hp ltac:(lra)) as [Hr Er].
  pose proof (applyQuaternion_up a b c w Ha Hb Hc Hw) as Ht.
  rewrite <- Er in Ht.
  rewrite (withinAngle_unit (90001 # 100000) _ _ _ ltac:(reflexivity) Ed Ev Eu).
  rewrite (withinAngle_unit (89999 # 100000) _ _ _ ltac:(reflexivity) Ed Ev Eu).
  split; intros H.
  - exact (tilt_pass _ _ n Ht Hr Hn H).
  - exact (tilt_only _ _ n Ht Hr Hn H).
Qed.

Lemma front_test (q : Three.Quaternion) :
  nearUnit q ->
  (withinAngle (90001 # 100000) (rotated q frontAxis) frontAxis ->
   Js.gtb (Qabs (Js.sub (Three.z (Three.applyQuaternion q frontAxis)) 1))
          tolerance = false)
  /\ (Js.gtb (Qabs (Js.sub (Three.z (Three.applyQuaternion q frontAxis)) 1))
             tolerance = false ->
      withinAngle (89999 # 100000) (rotated q frontAxis) frontAxis).
Proof.
  destruct q as [a b c w]. intros Hq.
  destruct (nearUnit_bounds a b c w Hq) as [(Ha & Hb & Hc & Hw) Hn].
  set (n := (a * a + b * b + c * c + w * w)%Q) in *.
  assert (Hn0 : ~ (n == 0)%Q) by (intros E; rewrite E in Hn; lra).
  destruct (rotated_front a b c w Hn0) as (Ed & Ev & Eu). fold n in Ed.
  assert (Hp : (0 <= a * a + b * b <= n)%Q) by (unfold n; split; nra).
  destruct (share (a * a + b * b) n Hp ltac:(lra)) as [Hr Er].
  pose proof (applyQuaternion_front a b c w Ha Hb Hc Hw) as Ht.
  rewrite <- Er in Ht.
  rewrite (withinAngle_unit (90001 # 100000) _ _ _ ltac:(reflexivity) Ed Ev Eu).
  rewrite (withinAngle_unit (89999 # 100000) _ _ _ ltac:(reflexivity) Ed Ev Eu).
  split; intros H.
  - exact (tilt_pass _ _ n Ht Hr Hn H).
  - exact (tilt_only _ _ n Ht Hr Hn H).
Qed.

(** The body of the loop, test by test. *)
Lemma cubieSolved_spec (c : Cubelet) :
  cubieSolved c = true <->
  forall mesh, ref c = Some mesh ->
    currentPos c = initialPos c
    /\ Js.gtb (Qabs (Js.sub (Three.y (Three.applyQuaternion (quaternion mesh)
                                        upAxis)) 1)) tolerance = false
    /\ Js.gtb (Qabs (Js.sub (Three.z (Three.applyQuaternion (quaternion mesh)
                                        frontAxis)) 1)) tolerance = false.
Proof.
  unfold cubieSolved. destruct (ref c) as [r |].
  2: { split; [intros _ mesh E; discriminate E | reflexivity]. }
  rewrite roundV_injV.
  destruct (currentPos c) as [[x y] z]; destruct (initialPos c) as [[x0 y0] z0].
  cbn [coord]. change (Three.vec3 0 1 0) with upAxis.
  change (Three.vec3 0 0 1) with frontAxis.
  destruct (Z.eqb_spec x x0) as [-> | Nx]; cbn [negb orb].
  2: { split; [discriminate | intros H].
       destruct (H r eq_refl) as [E _]. congruence. }
  destruct (Z.eqb_spec y y0) as [-> | Ny]; cbn [negb orb].
  2: { split; [discriminate | intros H].
       destruct (H r eq_refl) as [E _]. congruence. }
  destruct (Z.eqb_spec z z0) as [-> | Nz]; cbn [negb orb].
  2: { split; [discriminate | intros H].
       destruct (H r eq_refl) as [E _]. congruence. }
  destruct (Js.gtb (Qabs (Js.sub (Three.y (Three.applyQuaternion
              (quaternion r) upAxis)) 1)) tolerance) eqn:Eu.
  { split; [discriminate | intros H].
    destruct (H r eq_refl) as (_ & E & _). rewrite Eu in E. discriminate E. }
  destruct (Js.gtb (Qabs (Js.sub (Three.z (Three.applyQuaternion
              (quaternion r) frontAxis)) 1)) tolerance) eqn:Ef.
  { split; [discriminate | intros H].
    destruct (H r eq_refl) as (_ & _ & E). rewrite Ef in E. discriminate E. }
  split; [| reflexivity].
  intros _ mesh E. injection E as <-. auto.
Qed.

(** A mounted cubelet that passes the check is at home. *)
Lemma cubieSolved_home (c : Cubelet) :
  ref c <> None -> cubieSolved c = true -> currentPos c = initialPos c.
Proof.
  intros Hm H. destruct (ref c) as [mesh |] eqn:E; [| congruence].
  now destruct (proj1 (cubieSolved_spec c) H mesh E).
Qed.

Lemma nearUnit_checked (cs : list Cubelet) :
  forallb nearUnitb cs = true ->
  forall c q, In c cs -> orientation c = Some q -> nearUnit q.
Proof.
  intros H c q Hc Hq. rewrite forallb_forall in H. specialize (H c Hc).
  unfold nearUnitb in H. rewrite Hq in H. now apply Qle_bool_iff.
Qed.

(** ** [isSolved] *)

Lemma round_spec (v : Q) (m : Z) :
  round v = m <-> (inject_Z m - (1 # 2) <= v < inject_Z m + (1 # 2))%Q.
Proof.
  unfold round. split.
  - intros <-. pose proof (Qfloor_le (v + (1 # 2))) as H1.
    pose proof (Qlt_floor (v + (1 # 2))) as H2.
    rewrite inject_Z_plus in H2. change (inject_Z 1) with 1%Q in H2.
    split; lra.
  - intros [H1 H2].
    pose proof (Qfloor_le (v + (1 # 2))) as H3.
    pose proof (Qlt_floor (v + (1 # 2))) as H4.
    rewrite inject_Z_plus in H4. change (inject_Z 1) with 1%Q in H4.
    assert (A : (inject_Z (Qfloor (v + (1 # 2))) < inject_Z (m + 1))%Q).
    { rewrite inject_Z_plus. change (inject_Z 1) with 1%Q. lra. }
    assert (B : (inject_Z m < inject_Z (Qfloor (v + (1 # 2)) + 1))%Q).
    { rewrite inject_Z_plus. change (inject_Z 1) with 1%Q. lra. }
    rewrite <- Zlt_Qlt in A, B. lia.
Qed.

Lemma wholeTurns_iff (angle : Q) :
  (Z.rem (round (quarterTurns angle)) 4 =? 0) = true <-> wholeTurns angle.
Proof.
  rewrite Z.eqb_eq, Z.rem_divide by discriminate. unfold wholeTurns. split.
  - intros [k Hk]. exists k. apply round_spec. lia.
  - intros [k Hk]. exists k. apply round_spec in Hk. lia.
Qed.

Lemma isSolved_spec (ds : list CubeletData.t) :
  isSolved ds = true <->
  forall d, In d ds ->
    (let '(r0, r1, r2) := CubeletData.rotation d in
     wholeTurns r0 /\ wholeTurns r1 /\ wholeTurns r2)
    /\ sameCell (CubeletData.currentPos d) (CubeletData.initialPos d).
Proof.
  unfold isSolved. rewrite forallb_forall.
  split; intros H d Hd; specialize (H d Hd); revert H;
    destruct (CubeletData.rotation d) as [[r0 r1] r2];
    destruct (CubeletData.currentPos d) as [[c0 c1] c2];
    destruct (CubeletData.initialPos d) as [[i0 i1] i2];
    cbv zeta; unfold sameCell;
    rewrite !andb_true_iff, !wholeTurns_iff, !Z.eqb_eq; tauto.
Qed.

Lemma checkSolved_guard gs cs : gs <> PLAYING -> checkSolved gs cs = false.
Proof. intros H. unfold checkSolved. destruct gs; auto. congruence. Qed.

Lemma rotateSlice_guard num gs s a k d :
  gs <> PLAYING -> snd (rotateSlice num gs s a k d) = false.
Proof.
  intros H. unfold rotateSlice.
  destruct (rotateSlice_start s a k d) as [[s1 fl] |].
  - unfold rotateSlice_finish; simpl. now apply checkSolved_guard.
  - reflexivity.
Qed.

Lemma runScramble_guard num gs pick n : forall i s,
  gs <> PLAYING -> snd (runScramble num gs pick n i s) = O.
Proof.
  induction n as [| n IH]; intros i s H; simpl.
  - reflexivity.
  - pose proof (rotateSlice_guard num gs s (axis (pick i)) (slice (pick i))
                                 (direction (pick i)) H) as Hr.
    destruct (rotateSlice num gs s (axis (pick i)) (slice (pick i))
                          (direction (pick i))) as [s1 solved].
    simpl in Hr. subst solved.
    specialize (IH (S i) s1 H).
    destruct (runScramble num gs pick n (S i) s1) as [s2 k].
    simpl in *. now subst.
Qed.

(** * Properties of the component *)

(** C1.  After any sequence of committed moves from the mounted component
    (cos(pi/2) and sin(pi/2) computed within 1/8), the store holds 27
    cubelets whose [currentPos] values are pairwise distinct, and a position
    is taken exactly when each of its coordinates is an integer in
    {-1,0,1}. *)
Theorem C1_positions_bijection (num : Numerics) (s : Component) :
  numerics_ok num -> Reachable num s ->
  List.length (cubelets s) = 27%nat
  /\ NoDup (map currentPos (cubelets s))
  /\ (forall p, In p (map currentPos (cubelets s)) <-> inLattice p).
Proof.
  intros Hok H.
  destruct (Reachable_positions num Hok s H) as (Hlen & Hnd & Hlat).
  rewrite length_map in Hlen.
  split; [exact Hlen |]. split; [exact Hnd |].
  intros p. split.
  - rewrite Forall_forall in Hlat. apply Hlat.
  - intros Hp. apply lattice_In in Hp. revert p Hp.
    apply NoDup_length_incl; auto.
    + rewrite length_map, Hlen. reflexivity.
    + intros p Hp. apply lattice_In. rewrite Forall_forall in Hlat. auto.
Qed.

Lemma C1_positions_bijection_witness :
  List.length (cubelets afterLeft) = 27%nat
  /\ NoDup (map currentPos (cubelets afterLeft))
  /\ (forall p, In p (map currentPos (cubelets afterLeft)) <-> inLattice p).
Proof.
  apply (C1_positions_bijection doubleNumerics afterLeft).
  - split; apply Qle_bool_iff; reflexivity.
  - apply reach_commit, reach_mount.
Defined.

(** C2.  Four commits of one move restore the position of every cubelet
    ([currentPos] and the mesh position), and a cubelet outside the slice
    of the move is as it was, orientation included.  The orientation of
    the cubelets of the slice is not part of the statement: every commit
    reads the quaternion back from a product of matrices in double
    precision, and nothing restores it. *)
Theorem C2_four_commits (num : Numerics) (gs : GameState) (s : Component)
    (m : Move) :
  numerics_ok num -> Reachable num s ->
  Forall2 (fun c' c => samePosition c' c /\ (outside m c -> c' = c))
          (cubelets (commit4 num gs s m)) (cubelets s).
Proof.
  intros Hok Hr. pose proof (Reachable_Inv num Hok s Hr) as HI.
  rewrite commit4_cubelets by assumption.
  destruct HI as (_ & _ & Hw).
  apply Forall2_map_left. eapply Forall_impl; [| exact Hw]. intros c Hc.
  split.
  - now apply turnSlice_four_position.
  - intros Ho. cbv zeta. now rewrite !(turnSlice_outside num _ _ _ c Ho).
Qed.

Lemma C2_four_commits_witness :
  Forall2 (fun c' c => samePosition c' c /\ (outside moveRight c -> c' = c))
    (cubelets (commit4 doubleNumerics PLAYING initialComponent moveRight))
    (cubelets initialComponent).
Proof.
  apply (C2_four_commits doubleNumerics PLAYING initialComponent moveRight).
  - split; apply Qle_bool_iff; reflexivity.
  - apply reach_mount.
Defined.

(** Four turns of the slice x = 1 of the mounted component do not restore
    the orientation of its cubelets: the quaternion of the centre of the
    right face ends as (2^-51, 0, 0, 1), which is not the identity, also
    not as a rotation. *)
Lemma C2_orientation_residue :
  numerics_ok doubleNumerics
  /\ Reachable doubleNumerics initialComponent
  /\ ~ Forall2 samePose
         (cubelets (commit4 doubleNumerics PLAYING initialComponent moveRight))
         (cubelets initialComponent)
  /\ ~ Forall2 sameRotation
         (cubelets (commit4 doubleNumerics PLAYING initialComponent moveRight))
         (cubelets initialComponent)
  /\ option_map orientation
       (nth_error
          (cubelets (commit4 doubleNumerics PLAYING initialComponent moveRight))
          22)
     = Some (Some (Three.quat (1 # 2251799813685248) 0 0 1)).
Proof.
  split; [exact doubleNumerics_ok |]. split; [apply reach_mount |].
  split; [| split].
  - intros H. at_entry H 22%nat. destruct H as [_ [E _]]. discriminate E.
  - intros H. at_entry H 22%nat. destruct H as [_ [[_ [_ E]] _]].
    discriminate E.
  - vm_compute. reflexivity.
Qed.

(** C3.  A move followed by its inverse restores the position of every
    cubelet ([currentPos] and the mesh position), and a cubelet outside
    the slice of the move is as it was, orientation included.  The
    orientation of the cubelets of the slice is not part of the statement:
    both commits read the quaternion back from a product of matrices in
    double precision. *)
Theorem C3_move_then_inverse (num : Numerics) (gs : GameState) (s : Component)
    (m : Move) :
  numerics_ok num -> Reachable num s ->
  Forall2 (fun c' c => samePosition c' c /\ (outside m c -> c' = c))
          (cubelets (commitBack num gs s m)) (cubelets s).
Proof.
  intros Hok Hr. pose proof (Reachable_Inv num Hok s Hr) as HI.
  rewrite commitBack_cubelets by assumption.
  destruct HI as (_ & _ & Hw).
  apply Forall2_map_left. eapply Forall_impl; [| exact Hw]. intros c Hc.
  split.
  - now apply turnSlice_inverse_position.
  - intros Ho. now rewrite !(turnSlice_outside num _ _ _ c Ho).
Qed.

Lemma C3_move_then_inverse_witness :
  Forall2 (fun c' c => samePosition c' c /\ (outside moveDown c -> c' = c))
    (cubelets (commitBack doubleNumerics PLAYING afterLeft moveDown))
    (cubelets afterLeft).
Proof.
  apply (C3_move_then_inverse doubleNumerics PLAYING afterLeft moveDown).
  - split; apply Qle_bool_iff; reflexivity.
  - apply reach_commit, reach_mount.
Defined.

(** After the move (x, -1, +1), the move (y, -1, +1) followed by its
    inverse does not restore the orientation of the cubelets it turned:
    the quaternion of the corner (-1, -1, -1) has y = 0 before and a y of
    about -1.7e-32 after, and stands for another rotation. *)
Lemma C3_orientation_residue :
  numerics_ok doubleNumerics
  /\ Reachable doubleNumerics afterLeft
  /\ ~ Forall2 samePose
         (cubelets (commitBack doubleNumerics PLAYING afterLeft moveDown))
         (cubelets afterLeft)
  /\ ~ Forall2 sameRotation
         (cubelets (commitBack doubleNumerics PLAYING afterLeft moveDown))
         (cubelets afterLeft).
Proof.
  split; [exact doubleNumerics_ok |].
  split; [apply reach_commit, reach_mount |].
  split.
  - intros H. at_entry H 0%nat. destruct H as [_ [_ [E _]]]. discriminate E.
  - intros H. at_entry H 0%nat. destruct H as [[_ [_ E]] _]. discriminate E.
Qed.

(** C4.  While [isAnimating] is set, the pointer handlers return before
    anything is resolved and the scramble effect does not start: the
    component, and with it every cubelet, is as before. *)
Theorem C4_busy_guards (s : Component) :
  isAnimating s = true ->
  (forall e, handlePointerMove s e = (s, Ignored))
  /\ (forall gs e, handlePointerDown gs s e = s)
  /\ (forall num gs scr pick, scrambleEffect num gs scr pick s = (s, O)).
Proof.
  intros H. repeat split.
  - intros e. unfold handlePointerMove. rewrite H.
    now rewrite orb_true_r.
  - intros gs e. unfold handlePointerDown. rewrite H.
    now rewrite orb_true_r.
  - intros. unfold scrambleEffect. rewrite H. now rewrite andb_false_r.
Qed.

Lemma C4_busy_guards_witness :
  (forall e, handlePointerMove inFlight e = (inFlight, Ignored))
  /\ (forall gs e, handlePointerDown gs inFlight e = inFlight)
  /\ (forall num gs scr pick,
         scrambleEffect num gs scr pick inFlight = (inFlight, O)).
Proof.
  apply (C4_busy_guards inFlight). reflexivity.
Defined.

(** [rotateSlice] itself does not look at the flag: called for the slice
    x = -1 while the move on the slice x = 1 is in flight, it turns its
    slice. *)
Lemma C4_rotateSlice_while_busy :
  isAnimating inFlight = true
  /\ map currentPos
       (cubelets (fst (rotateSlice exactNumerics IDLE inFlight
                                   ax_x (-1) dir_pos)))
     <> map currentPos (cubelets inFlight).
Proof.
  split; [reflexivity |]. vm_compute. discriminate.
Qed.

(** C5.  After every committed move every cubelet sits on the lattice,
    with its mesh at [currentPos]: rounding removes the residue of the
    position on every commit.  The orientation is not part of the
    statement: a commit rounds the position only, and leaves the
    quaternion as [Matrix4.decompose] computed it. *)
Theorem C5_commit_snaps_positions (num : Numerics) (s : Component) :
  numerics_ok num -> Reachable num s ->
  Forall snappedPosition (cubelets s)
  /\ (forall gs m, Forall snappedPosition (cubelets (commit num gs s m))).
Proof.
  intros Hok Hr.
  assert (G : forall s', Reachable num s' ->
                         Forall snappedPosition (cubelets s')).
  { intros s' Hr'. destruct (Reachable_Inv num Hok s' Hr') as (_ & _ & Hw).
    eapply Forall_impl; [| exact Hw]. apply wellPlaced_snapped. }
  split; [now apply G |].
  intros gs m. apply G. now apply reach_commit.
Qed.

Lemma C5_commit_snaps_positions_witness :
  Forall snappedPosition (cubelets afterLeft)
  /\ (forall gs m,
        Forall snappedPosition (cubelets (commit doubleNumerics gs afterLeft m))).
Proof.
  apply (C5_commit_snaps_positions doubleNumerics afterLeft).
  - split; apply Qle_bool_iff; reflexivity.
  - apply reach_commit, reach_mount.
Defined.

(** After the single move (x, -1, +1) the orientation of the cubelets it
    turned is not a member of the rotation group of the cube: the
    quaternion of the corner (-1, -1, -1) is
    (-0.7071067811865475, 0, 0, 0.7071067811865476), and the rotation it
    stands for has entries that are none of -1, 0 and 1. *)
Lemma C5_orientation_not_snapped :
  numerics_ok doubleNumerics
  /\ Reachable doubleNumerics afterLeft
  /\ ~ Forall inGroup (cubelets afterLeft)
  /\ option_map orientation (nth_error (cubelets afterLeft) 0)
     = Some (Some (Three.quat (-1592262918131443 # 2251799813685248) 0 0
                              (6369051672525773 # 9007199254740992))).
Proof.
  split; [exact doubleNumerics_ok |].
  split; [apply reach_commit, reach_mount |].
  split; [| vm_compute; reflexivity].
  intros H.
  destruct (nth_error (cubelets afterLeft) 0) as [c |] eqn:E;
    [| vm_compute in E; discriminate E].
  apply nth_error_In in E as Hin. rewrite Forall_forall in H.
  destruct (H c Hin) as [q [Hq Hg]].
  vm_compute in E. injection E as <-.
  vm_compute in Hq. injection Hq as <-.
  vm_compute in Hg. discriminate Hg.
Qed.

(** C6.  The solved check of the component calls [onSolve] only when the
    [gameState] it captured is PLAYING, and then it looks at the mounted
    cubelets among the 27 only.  For quaternions whose squared norm is
    within 1e-6 of 1, the two tests in doubles amount to an angular
    tolerance of about 25.84 degrees: the check succeeds when every
    mounted cubelet is at home with up and front turned by an angle of
    cosine at least 0.90001, and only when every mounted cubelet is at
    home with up and front turned by an angle of cosine at least 0.89999.
    [isSolved] of constants.ts is another test: every Euler angle of
    [rotation] is a whole number of turns up to an eighth of a turn, and
    the positions round to the same integers. *)
Theorem C6_solved_check (gs : GameState) (cs : list Cubelet) :
  (forall c q, In c (firstn 27 cs) -> orientation c = Some q -> nearUnit q) ->
  (checkSolved gs cs = true ->
   gs = PLAYING
   /\ forall c, In c (firstn 27 cs) -> ref c <> None ->
                homeAndUpright (89999 # 100000) c)
  /\ (gs = PLAYING ->
      (forall c, In c (firstn 27 cs) -> ref c <> None ->
                 homeAndUpright (90001 # 100000) c) ->
      checkSolved gs cs = true)
  /\ (forall ds,
        isSolved ds = true <->
        forall d, In d ds ->
          (let '(r0, r1, r2) := CubeletData.rotation d in
           wholeTurns r0 /\ wholeTurns r1 /\ wholeTurns r2)
          /\ sameCell (CubeletData.currentPos d) (CubeletData.initialPos d)).
Proof.
  intros Hq. unfold checkSolved, solvedLoop. split; [| split].
  - destruct gs; cbn [GameState_eqb negb]; try discriminate.
    intros H. split; [reflexivity |].
    rewrite forallb_forall in H. intros c Hc Hm.
    destruct (ref c) as [mesh |] eqn:Er; [clear Hm | congruence].
    destruct (proj1 (cubieSolved_spec c) (H c Hc) mesh Er) as (Hh & Hu & Hf).
    assert (Ho : orientation c = Some (quaternion mesh))
      by (unfold orientation; now rewrite Er).
    pose proof (Hq c _ Hc Ho) as Hn.
    split; [exact Hh |]. exists (quaternion mesh). split; [exact Ho |].
    split; [now apply up_test | now apply front_test].
  - intros -> H. cbn [GameState_eqb negb].
    apply forallb_forall. intros c Hc. apply cubieSolved_spec.
    intros mesh Er.
    destruct (H c Hc ltac:(congruence)) as (Hh & q & Ho & Hu & Hf).
    unfold orientation in Ho. rewrite Er in Ho. cbn in Ho.
    injection Ho as <-.
    assert (Hn : nearUnit (quaternion mesh)).
    { apply (Hq c); [exact Hc |]. unfold orientation. now rewrite Er. }
    split; [exact Hh |].
    split; [now apply up_test | now apply front_test].
  - exact isSolved_spec.
Qed.

Lemma C6_solved_check_witness :
  (checkSolved PLAYING (cubelets afterLeft) = true ->
   PLAYING = PLAYING
   /\ forall c, In c (firstn 27 (cubelets afterLeft)) -> ref c <> None ->
                homeAndUpright (89999 # 100000) c)
  /\ (PLAYING = PLAYING ->
      (forall c, In c (firstn 27 (cubelets afterLeft)) -> ref c <> None ->
                 homeAndUpright (90001 # 100000) c) ->
      checkSolved PLAYING (cubelets afterLeft) = true)
  /\ (forall ds,
        isSolved ds = true <->
        forall d, In d ds ->
          (let '(r0, r1, r2) := CubeletData.rotation d in
           wholeTurns r0 /\ wholeTurns r1 /\ wholeTurns r2)
          /\ sameCell (CubeletData.currentPos d) (CubeletData.initialPos d)).
Proof.
  apply (C6_solved_check PLAYING (cubelets afterLeft)).
  apply nearUnit_checked. vm_compute. reflexivity.
Defined.

(** Four stores on which the solved check is not the test of the claim.
    The mounted cube, every cubelet at home and exactly upright, while the
    state is IDLE: the check returns without a call.  The cube after the
    move (x, -1, +1) with no mesh mounted: eight cubelets are away from
    home and the check succeeds.  The mounted cube with every quaternion
    set to (1/8, 0, 0, 1/8), a quarter turn about x that takes up to
    front: the check succeeds.  And for [isSolved], a cubelet three
    eighths of a unit from its home: the function answers true. *)
Lemma C6_check_is_another_test :
  (Forall (homeAndUpright 1) initialCubelets
   /\ checkSolved IDLE initialCubelets = false)
  /\ (checkSolved PLAYING (map unmount (cubelets afterLeft)) = true
      /\ List.length
           (filter (fun c => negb (Three.vec_eqb (injV (currentPos c))
                                                 (injV (initialPos c))))
                   (map unmount (cubelets afterLeft))) = 8%nat)
  /\ (checkSolved PLAYING (map tilt initialCubelets) = true
      /\ Forall (fun c => exists q,
                   orientation c = Some q
                   /\ Three.vec_eq (rotated q upAxis) frontAxis
                   /\ ~ withinAngle (1 # 100) (rotated q upAxis) upAxis)
                (map tilt initialCubelets))
  /\ (isSolved offGrid = true
      /\ Forall (fun d => CubeletData.currentPos d <> CubeletData.initialPos d)
                offGrid).
Proof.
  split; [| split; [| split]].
  - split; [| reflexivity].
    unfold initialCubelets, lattice. cbn [flat_map map app pushAll].
    repeat (constructor;
            [split; [reflexivity |];
             exists Three.identityQuaternion; split; [reflexivity |];
             split; vm_compute; split; discriminate |]).
    constructor.
  - split; vm_compute; reflexivity.
  - split; [vm_compute; reflexivity |].
    unfold initialCubelets, lattice. cbn [flat_map map app pushAll].
    repeat (constructor;
            [exists (Three.quat (1 # 8) 0 0 (1 # 8)); split; [reflexivity |];
             split; [vm_compute; repeat split; reflexivity |];
             vm_compute; intros [_ H]; apply H; reflexivity |]).
    constructor.
  - split; [vm_compute; reflexivity |].
    constructor; [| constructor]. vm_compute. discriminate.
Qed.

(** C7.  For a snapped normal and a drag beyond the threshold that is not
    parallel to the normal, the gesture resolves to a move, and with the
    opposite normal and the same drag it resolves to the move with the
    same axis and slice and the opposite direction. *)
Theorem C7_opposite_faces (s : Component) (e : PointerEvent) :
  armed s ->
  snapped (startFaceNormal (interactRef s)) ->
  Three.length_lt (dragVector s e) (1 # 4) = false ->
  ~ alongNormal (startFaceNormal (interactRef s)) (dragVector s e) ->
  exists m m',
    resolved (snd (handlePointerMove s e)) = Some m
    /\ resolved (snd (handlePointerMove
                        (withNormal (Three.negate (startFaceNormal (interactRef s))) s)
                        e)) = Some m'
    /\ axis m' = axis m /\ slice m' = slice m
    /\ direction m' = opposite (direction m).
Proof.
  intros Ha Hs Hl Hn.
  destruct (handlePointerMove_resolved s e Ha Hl) as (c & Hc & Hr).
  set (n := startFaceNormal (interactRef s)) in *.
  destruct (handlePointerMove_resolved (withNormal (Three.negate n) s) e
              (withNormal_armed _ s Ha) Hl) as (c' & Hc' & Hr').
  cbn [withNormal setInteract cubelets interactRef intersectedCubieId] in Hc'.
  assert (c' = c) by congruence. subst c'.
  eexists; eexists. split; [exact Hr |]. split; [exact Hr' |].
  cbn [withNormal setInteract interactRef startFaceNormal].
  apply resolveMove_opposite; assumption.
Qed.

Lemma C7_opposite_faces_witness :
  exists m m',
    resolved (snd (handlePointerMove pressed dragUp)) = Some m
    /\ resolved (snd (handlePointerMove
                        (withNormal (Three.negate (startFaceNormal (interactRef pressed)))
                                    pressed)
                        dragUp)) = Some m'
    /\ axis m' = axis m /\ slice m' = slice m
    /\ direction m' = opposite (direction m).
Proof.
  apply (C7_opposite_faces pressed dragUp).
  - exact pressed_armed.
  - vm_compute. auto.
  - reflexivity.
  - vm_compute. intros (_ & _ & H). discriminate H.
Defined.

(** A drag straight along the normal, one unit long: the right face and
    its opposite resolve to the same move, with the same direction. *)
Lemma C7_drag_along_normal :
  armed pressed
  /\ snapped (startFaceNormal (interactRef pressed))
  /\ Three.length_lt (dragVector pressed dragOut) (1 # 4) = false
  /\ exists m m',
       resolved (snd (handlePointerMove pressed dragOut)) = Some m
       /\ resolved (snd (handlePointerMove
                           (withNormal (Three.negate (startFaceNormal (interactRef pressed)))
                                       pressed)
                           dragOut)) = Some m'
       /\ axis m' = axis m
       /\ direction m' <> opposite (direction m).
Proof.
  split; [exact pressed_armed |].
  split; [vm_compute; auto |].
  split; [reflexivity |].
  exists (mkMove ax_y 0 dir_neg), (mkMove ax_y 0 dir_neg).
  repeat split; try reflexivity. discriminate.
Qed.

(** C8.  A drag update whose vector [point - startPoint] has a length
    below 0.25, as [Vector3.length] computes it in double precision from
    the computed difference, resolves no move and returns the component,
    and with it the store, as it was; and every drag whose exact length is
    at most 0.2499999 has a computed length below 0.25. *)
Theorem C8_dead_zone (s : Component) (e : PointerEvent) :
  ((Three.length (dragVector s e) < 1 # 4)%Q ->
   handlePointerMove s e = (s, Ignored)
   /\ resolved (snd (handlePointerMove s e)) = None
   /\ cubelets (fst (handlePointerMove s e)) = cubelets s)
  /\ ((Three.lengthSq (difference (point e) (startPoint (interactRef s)))
       <= (2499999 # 10000000) * (2499999 # 10000000))%Q ->
      (Three.length (dragVector s e) < 1 # 4)%Q).
Proof.
  split; [| apply length_short].
  intros H. apply ltb_true_iff in H.
  assert (G : handlePointerMove s e = (s, Ignored)).
  { unfold handlePointerMove.
    destruct (negb (isDragging (interactRef s)) || isAnimating s
              || (intersectedCubieId (interactRef s) =? -1)); auto.
    unfold dragVector, Three.length_lt in *. now rewrite H. }
  rewrite G. auto.
Qed.

Lemma C8_dead_zone_witness :
  (handlePointerMove pressed jitter = (pressed, Ignored)
   /\ resolved (snd (handlePointerMove pressed jitter)) = None
   /\ cubelets (fst (handlePointerMove pressed jitter)) = cubelets pressed)
  /\ (Three.length (dragVector pressed jitter) < 1 # 4)%Q.
Proof.
  destruct (C8_dead_zone pressed jitter) as [H1 H2].
  split; [apply H1; vm_compute; reflexivity
        | apply H2; vm_compute; discriminate].
Defined.

(** A drag whose length is below 0.25 and resolves a move: from the press
    on the right face, 9/64 upwards and 0.20669... towards the viewer.
    The drag vector is computed without error, its squared length is
    below 1/16 by less than 4e-18, the sum of the squares rounds to 1/16,
    [length()] returns 0.25, and the update starts the move (y, 0, +1),
    which turns the middle layer. *)
Lemma C8_short_drag_resolves :
  dragVector pressed graze
  = Three.vec3 0 (9 # 64) (1861781971660233 # 9007199254740992)
  /\ (Three.lengthSq (dragVector pressed graze) < (1 # 4) * (1 # 4))%Q
  /\ Three.length (dragVector pressed graze) = (1 # 4)%Q
  /\ exists s2 fl,
       handlePointerMove pressed graze
       = (s2, Requested (mkMove ax_y 0 dir_pos) (Some fl))
       /\ resolved (snd (handlePointerMove pressed graze))
          = Some (mkMove ax_y 0 dir_pos)
       /\ map currentPos
            (cubelets (fst (rotateSlice_finish doubleNumerics PLAYING s2 fl)))
          <> map currentPos (cubelets pressed).
Proof.
  split; [vm_compute; reflexivity |].
  split; [vm_compute; reflexivity |].
  split; [vm_compute; reflexivity |].
  destruct (handlePointerMove pressed graze) as [s2 o] eqn:E.
  vm_compute in E. injection E as <- <-.
  eexists _, _. split; [reflexivity |]. split; [reflexivity |].
  vm_compute. discriminate.
Qed.

(** C9.  A move leaves the [id], [initialPos] and [colorMap] of every
    cubelet as they were, and leaves [currentPos] as it was for every cubelet
    whose rounded coordinate along the axis is not the slice index when the
    move starts. *)
Theorem C9_move_frame (num : Numerics) (gs : GameState) (s : Component)
    (a : Axis) (k : Z) (d : Direction) :
  Forall2 (framed a k) (cubelets s)
          (cubelets (fst (rotateSlice num gs s a k d))).
Proof.
  destruct (groupRef s) eqn:Hg; destruct (pivotRef s) eqn:Hp;
    try (unfold rotateSlice, rotateSlice_start; rewrite Hg, Hp; simpl;
         apply Forall2_same; intros c; unfold framed; auto; fail).
  rewrite rotateSlice_cubelets by assumption.
  apply Forall2_map_right. intros c. apply turnSlice_framed.
Qed.

(** C10.  The guard of the solved check reads the [gameState] of the
    render whose [rotateSlice] was called, not the state of the game when
    the check runs.  The moves of a scramble are called from a render with
    [gameState] IDLE and never call [onSolve].  A move requested while
    playing and completed after HOME was pressed does.  The scramble draws
    (x, 1, +1) twenty times; while playing the same move is made once
    more, and the inverse move is requested; HOME sets the state to IDLE;
    the completion of the move calls [onSolve], which is the [handleSolve]
    of the render of the request: the game is SOLVED and the time is in
    the rankings, while a check reading the state the game is in would
    have returned at once. *)
Theorem C10_solved_event_while_idle :
  (forall num scr pick s, snd (scrambleEffect num IDLE scr pick s) = O)
  /\ isAnimating oneMoveAway = false
  /\ requested <> None
  /\ App.gameState (App.ui (App.handleReset whilePlaying)) = IDLE
  /\ snd (landed (App.gameState (App.ui whilePlaying))) = true
  /\ snd (landed (App.gameState (App.ui (App.handleReset whilePlaying))))
     = false
  /\ App.gameState
       (App.ui (App.handleSolve 61000 "d4" (App.ui whilePlaying)
                  (App.handleReset whilePlaying)))
     = SOLVED
  /\ map nickname
       (rankingsOf
          (App.store (App.handleSolve 61000 "d4" (App.ui whilePlaying)
                        (App.handleReset whilePlaying))))
     = ["SpeedDemon"; "Neo"; "CubeMaster"; "RookieOne"]%string.
Proof.
  split.
  { intros. unfold scrambleEffect.
    destruct (scr && negb (isAnimating s));
      [apply runScramble_guard; discriminate | reflexivity]. }
  split; [vm_compute; reflexivity |].
  split; [vm_compute; discriminate |].
  split; [vm_compute; reflexivity |].
  split; [vm_compute; reflexivity |].
  split; [vm_compute; reflexivity |].
  split; vm_compute; reflexivity.
Qed.

(** * Further properties of the component *)

(** * Further properties of the move engine *)

(** ** The size of a slice *)

Lemma activeFrom_length a k cs : forall i,
  List.length (activeFrom a k i cs) = List.length (filter (inSlice a k) cs).
Proof.
  induction cs as [| c rest IH]; intros i; simpl; [reflexivity |].
  destruct (inSlice a k c); simpl; now rewrite IH.
Qed.

Lemma filter_inSlice_positions a k cs :
  List.length (filter (inSlice a k) cs)
  = List.length (filter (fun p => coord a p =? k) (map currentPos cs)).
Proof.
  induction cs as [| c rest IH]; simpl; [reflexivity |].
  rewrite inSlice_coord. destruct (coord a (currentPos c) =? k); simpl; now rewrite IH.
Qed.

Lemma Permutation_filter_length {A : Type} (f : A -> bool) (l l' : list A) :
  Permutation l l' -> List.length (filter f l) = List.length (filter f l').
Proof.
  induction 1 as [| u l l' _ IH | u v l | l l' l'' _ IH1 _ IH2]; simpl.
  - reflexivity.
  - destruct (f u); simpl; now rewrite IH.
  - destruct (f u), (f v); reflexivity.
  - now rewrite IH1.
Qed.

Lemma Reachable_lattice_permutation num s :
  numerics_ok num -> Reachable num s ->
  Permutation (map currentPos (cubelets s)) lattice.
Proof.
  intros Hok H.
  destruct (Reachable_positions num Hok s H) as (Hlen & Hnd & Hlat).
  apply NoDup_Permutation_bis; auto.
  - rewrite Hlen. reflexivity.
  - intros p Hp. apply lattice_In. rewrite Forall_forall in Hlat. auto.
Qed.

Lemma filter_none {A : Type} (f : A -> bool) (l : list A) :
  (forall u, In u l -> f u = false) -> filter f l = [].
Proof.
  induction l as [| u l IH]; intros H; simpl; [reflexivity |].
  rewrite (H u (or_introl eq_refl)). apply IH. intros v Hv. apply H. now right.
Qed.

Lemma lattice_slice_size a k :
  List.length (filter (fun p => coord a p =? k) lattice)
  = if (-1 <=? k) && (k <=? 1) then 9%nat else 0%nat.
Proof.
  destruct (Z.leb_spec (-1) k) as [Hlo | Hlo];
    [destruct (Z.leb_spec k 1) as [Hhi | Hhi] |]; cbn [andb].
  - assert (E : k = -1 \/ k = 0 \/ k = 1) by lia.
    destruct E as [-> | [-> | ->]]; destruct a; reflexivity.
  - rewrite filter_none; [reflexivity |].
    intros [[x y] z] Hp. apply lattice_In in Hp. apply Z.eqb_neq.
    destruct a; simpl in *; lia.
  - rewrite filter_none; [reflexivity |].
    intros [[x y] z] Hp. apply lattice_In in Hp. apply Z.eqb_neq.
    destruct a; simpl in *; lia.
Qed.

(** X1.  In every state reached by whole moves, a move on a slice index
    -1, 0 or 1 starts with exactly nine cubelets in [activeCubies]. *)
Theorem X1_nine_cubelets_per_slice (num : Numerics) (s : Component)
    (a : Axis) (k : Z) (d : Direction) :
  numerics_ok num -> Reachable num s -> -1 <= k <= 1 ->
  exists s1 fl,
    rotateSlice_start s a k d = Some (s1, fl)
    /\ List.length (fl_active fl) = 9%nat.
Proof.
  intros Hok Hr Hk.
  destruct (Reachable_Inv num Hok s Hr) as (Hg & Hp & _).
  unfold rotateSlice_start. rewrite Hg, Hp. cbn [negb orb].
  eexists; eexists; split; [reflexivity |]. cbn [fl_active].
  rewrite activeFrom_length, filter_inSlice_positions.
  rewrite (Permutation_filter_length _ _ _
             (Reachable_lattice_permutation num s Hok Hr)).
  rewrite lattice_slice_size.
  destruct (Z.leb_spec (-1) k); [| lia].
  destruct (Z.leb_spec k 1); [reflexivity | lia].
Qed.

Lemma X1_nine_cubelets_per_slice_witness :
  exists s1 fl,
    rotateSlice_start afterLeft ax_y 1 dir_neg = Some (s1, fl)
    /\ List.length (fl_active fl) = 9%nat.
Proof.
  apply (X1_nine_cubelets_per_slice doubleNumerics afterLeft ax_y 1 dir_neg).
  - split; apply Qle_bool_iff; reflexivity.
  - apply reach_commit, reach_mount.
  - lia.
Defined.

(** ** Slices that do not exist, and slices that do not meet *)

Lemma map_same {A : Type} (f : A -> A) (l : list A) :
  (forall u, In u l -> f u = u) -> map f l = l.
Proof.
  induction l as [| u l IH]; intros H; simpl; [reflexivity |].
  rewrite (H u (or_introl eq_refl)), IH; auto. intros v Hv. apply H. now right.
Qed.

(** X2.  A move whose slice index is not -1, 0 or 1 selects no cubelet and
    leaves every cubelet, its mesh included, as it was. *)
Theorem X2_no_such_slice (num : Numerics) (gs : GameState) (s : Component)
    (a : Axis) (k : Z) (d : Direction) :
  numerics_ok num -> Reachable num s -> k < -1 \/ 1 < k ->
  cubelets (fst (rotateSlice num gs s a k d)) = cubelets s
  /\ activeFrom a k 0 (cubelets s) = [].
Proof.
  intros Hok Hr Hk.
  pose proof (Reachable_Inv num Hok s Hr) as (Hg & Hp & Hw).
  rewrite Forall_forall in Hw.
  assert (Hout : forall c, In c (cubelets s) -> inSlice a k c = false).
  { intros c Hc. rewrite inSlice_coord. apply Z.eqb_neq.
    destruct (Hw c Hc) as [Hl _].
    destruct (currentPos c) as [[x y] z]. destruct a; simpl in *; lia. }
  split.
  - rewrite rotateSlice_cubelets by assumption.
    apply map_same. intros c Hc. unfold turnSlice. now rewrite Hout.
  - apply length_zero_iff_nil.
    rewrite activeFrom_length. now rewrite filter_none.
Qed.

Lemma X2_no_such_slice_witness :
  cubelets (fst (rotateSlice doubleNumerics PLAYING afterLeft ax_z 2 dir_pos))
  = cubelets afterLeft
  /\ activeFrom ax_z 2 0 (cubelets afterLeft) = [].
Proof.
  apply (X2_no_such_slice doubleNumerics PLAYING afterLeft ax_z 2 dir_pos).
  - split; apply Qle_bool_iff; reflexivity.
  - apply reach_commit, reach_mount.
  - lia.
Defined.

Lemma turnSlice_commute num a k1 k2 d1 d2 c :
  numerics_ok num -> wellPlaced c -> k1 <> k2 ->
  turnSlice num a k2 d2 (turnSlice num a k1 d1 c)
  = turnSlice num a k1 d1 (turnSlice num a k2 d2 c).
Proof.
  intros Hok Hw Hk.
  assert (Hout : forall k k' d d', coord a (currentPos c) <> k' ->
            turnSlice num a k' d' (turnSlice num a k d c)
            = turnSlice num a k d c).
  { intros k k' d d' Hne. apply turnSlice_outside.
    rewrite inSlice_coord, (turnSlice_currentPos num Hok) by exact Hw.
    rewrite sliceTurn_coord. now apply Z.eqb_neq. }
  destruct (Z.eq_dec (coord a (currentPos c)) k1) as [E1 | E1];
    destruct (Z.eq_dec (coord a (currentPos c)) k2) as [E2 | E2]; try lia.
  - rewrite (Hout k1 k2) by exact E2.
    rewrite (turnSlice_outside num a k2 d2 c); [reflexivity |].
    rewrite inSlice_coord. now apply Z.eqb_neq.
  - rewrite (Hout k2 k1) by exact E1.
    rewrite (turnSlice_outside num a k1 d1 c); [reflexivity |].
    rewrite inSlice_coord. now apply Z.eqb_neq.
  - rewrite (Hout k1 k2), (Hout k2 k1) by assumption.
    rewrite !turnSlice_outside; try reflexivity;
      rewrite inSlice_coord; now apply Z.eqb_neq.
Qed.

(** X3.  Two moves about the same axis on different slices commute: the
    cubelets after the two moves are the same, positions and orientations
    alike, in either order. *)
Theorem X3_parallel_slices_commute (num : Numerics) (gs : GameState)
    (s : Component) (a : Axis) (k1 k2 : Z) (d1 d2 : Direction) :
  numerics_ok num -> Reachable num s -> k1 <> k2 ->
  cubelets (commit num gs (commit num gs s (mkMove a k1 d1)) (mkMove a k2 d2))
  = cubelets (commit num gs (commit num gs s (mkMove a k2 d2)) (mkMove a k1 d1)).
Proof.
  intros Hok Hr Hk. pose proof (Reachable_Inv num Hok s Hr) as HI.
  rewrite !commit_cubelets by auto using commit_Inv.
  rewrite !map_map. cbn [axis slice direction].
  apply map_ext_in. intros c Hc.
  destruct HI as (_ & _ & Hw). rewrite Forall_forall in Hw.
  apply turnSlice_commute; auto.
Qed.

Lemma X3_parallel_slices_commute_witness :
  cubelets (commit doubleNumerics PLAYING
              (commit doubleNumerics PLAYING afterLeft (mkMove ax_y 1 dir_pos))
              (mkMove ax_y (-1) dir_neg))
  = cubelets (commit doubleNumerics PLAYING
                (commit doubleNumerics PLAYING afterLeft (mkMove ax_y (-1) dir_neg))
                (mkMove ax_y 1 dir_pos)).
Proof.
  apply (X3_parallel_slices_commute doubleNumerics PLAYING afterLeft ax_y 1 (-1)
           dir_pos dir_neg).
  - split; apply Qle_bool_iff; reflexivity.
  - apply reach_commit, reach_mount.
  - lia.
Defined.

(** ** Undoing a run *)

Lemma commits_cubelets num gs ms : forall s,
  numerics_ok num -> Inv s ->
  Inv (commits num gs s ms)
  /\ cubelets (commits num gs s ms) = map (turnsBy num ms) (cubelets s).
Proof.
  induction ms as [| m ms IH]; intros s Hok HI; simpl.
  - split; [assumption |]. symmetry. apply map_id.
  - destruct (IH (commit num gs s m) Hok (commit_Inv num Hok gs s m HI))
      as [HI' E].
    split; [exact HI' |].
    rewrite E, commit_cubelets by assumption. now rewrite map_map.
Qed.

(** The position of a cubelet after the moves of a list. *)
Lemma turnsBy_position num ms : numerics_ok num -> forall c,
  wellPlaced c ->
  wellPlaced (turnsBy num ms c)
  /\ currentPos (turnsBy num ms c)
     = fold_left (fun p m => sliceTurn (axis m) (slice m) (direction m) p)
                 ms (currentPos c).
Proof.
  intros Hok. induction ms as [| m ms IH]; intros c Hw.
  - split; [exact Hw | reflexivity].
  - cbn [turnsBy fold_left].
    destruct (turnSlice_position num Hok (axis m) (slice m) (direction m) c Hw)
      as (W1 & P1 & _).
    destruct (IH _ W1) as [W2 P2]. unfold turnsBy in W2, P2.
    split; [exact W2 |]. now rewrite P2, P1.
Qed.

(** A run followed by its undoing, on one position. *)
Lemma sliceTurns_undo ms : forall p,
  fold_left (fun p m => sliceTurn (axis m) (slice m) (direction m) p)
            (ms ++ undo ms) p = p.
Proof.
  induction ms as [| m ms IH]; intros p.
  - reflexivity.
  - replace ((m :: ms) ++ undo (m :: ms))
      with (m :: (ms ++ undo ms) ++ [inverse m])
      by (unfold undo; cbn [map rev app]; now rewrite app_assoc).
    cbn [fold_left]. rewrite fold_left_app, IH. cbn [fold_left inverse axis
      slice direction]. apply sliceTurn_inverse.
Qed.

(** X4.  A run of moves followed by the inverse moves in reverse order
    restores the position of every cubelet: [currentPos] and the position
    of the mesh. *)
Theorem X4_undo_restores (num : Numerics) (gs : GameState) (s : Component)
    (ms : list Move) :
  numerics_ok num -> Reachable num s ->
  Forall2 samePosition
    (cubelets (commits num gs (commits num gs s ms) (undo ms))) (cubelets s).
Proof.
  intros Hok Hr. pose proof (Reachable_Inv num Hok s Hr) as HI.
  unfold commits. rewrite <- fold_left_app. fold (commits num gs s (ms ++ undo ms)).
  destruct (commits_cubelets num gs (ms ++ undo ms) s Hok HI) as [_ ->].
  destruct HI as (_ & _ & Hw).
  apply Forall2_map_left. eapply Forall_impl; [| exact Hw]. intros c Hc.
  destruct (turnsBy_position num (ms ++ undo ms) Hok c Hc) as [W P].
  rewrite sliceTurns_undo in P.
  destruct (wellPlaced_snapped _ W) as [_ M].
  destruct (wellPlaced_snapped _ Hc) as [_ M0].
  split; [exact P |]. now rewrite M, M0, P.
Qed.

Lemma X4_undo_restores_witness :
  Forall2 samePosition
    (cubelets (commits doubleNumerics PLAYING
                 (commits doubleNumerics PLAYING afterLeft [moveRight; moveDown])
                 (undo [moveRight; moveDown])))
    (cubelets afterLeft).
Proof.
  apply (X4_undo_restores doubleNumerics PLAYING afterLeft [moveRight; moveDown]).
  - split; apply Qle_bool_iff; reflexivity.
  - apply reach_commit, reach_mount.
Defined.

(** ** A press, a drag, and the move they start *)

Lemma activeFrom_In a k cs : forall i j,
  In j (activeFrom a k i cs)
  <-> exists c, (i <= j)%nat /\ nth_error cs (j - i) = Some c
                /\ inSlice a k c = true.
Proof.
  induction cs as [| c0 cs IH]; intros i j; cbn [activeFrom].
  - split; [intros [] | intros (c & _ & H & _)].
    destruct (j - i)%nat; discriminate.
  - assert (Hrest : In j (activeFrom a k (S i) cs)
                    <-> exists c, (i < j)%nat
                          /\ nth_error (c0 :: cs) (j - i) = Some c
                          /\ inSlice a k c = true).
    { rewrite IH. split; intros (c & Hle & Hn & Hs); exists c;
        (split; [lia |]); (split; [| exact Hs]).
      - replace (j - i)%nat with (S (j - S i)) by lia. exact Hn.
      - replace (j - i)%nat with (S (j - S i)) in Hn by lia. exact Hn. }
    destruct (inSlice a k c0) eqn:E0.
    + cbn [In]. rewrite Hrest. split.
      * intros [<- | (c & Hlt & Hn & Hs)].
        -- exists c0. rewrite Nat.sub_diag. auto.
        -- exists c. split; [lia | auto].
      * intros (c & Hle & Hn & Hs).
        destruct (Nat.eq_dec i j) as [-> | Hne]; [now left | right].
        exists c. split; [lia | auto].
    + rewrite Hrest. split.
      * intros (c & Hlt & Hn & Hs). exists c. split; [lia | auto].
      * intros (c & Hle & Hn & Hs).
        destruct (Nat.eq_dec i j) as [-> | Hne].
        -- rewrite Nat.sub_diag in Hn. cbn in Hn. congruence.
        -- exists c. split; [lia | auto].
Qed.

Lemma resolveMove_inSlice n d c :
  inSlice (axis (resolveMove n d c)) (slice (resolveMove n d c)) c = true.
Proof.
  unfold resolveMove, inSlice.
  repeat match goal with
  | |- context [Js.gtb ?u ?v] => destruct (Js.gtb u v)
  end; cbn [axis slice]; apply Z.eqb_refl.
Qed.

Lemma resolveMove_axis n d c :
  snapped n ->
  (component (axis (resolveMove n d c)) n == 0)%Q
  /\ (forall b, b <> axis (resolveMove n d c) -> (component b n == 0)%Q ->
        (Qabs (component (axis (resolveMove n d c)) d)
         <= Qabs (component b d))%Q).
Proof.
  intros Hs. destruct d as [dx dy dz].
  unfold snapped in Hs; simpl in Hs;
  destruct Hs as [<- | [<- | [<- | [<- | [<- | [<- | []]]]]]];
  unfold resolveMove; cbn [Three.x Three.y Three.z];
  normal_tests;
  match goal with
  | |- context [if Js.gtb ?u ?v then mkMove _ _ _ else _] =>
      let E := fresh "E" in
      destruct (Js.gtb u v) eqn:E;
      [apply gtb_true_iff in E | apply gtb_false_iff in E]
  end; cbn [axis component Three.x Three.y Three.z];
  (split; [reflexivity |]);
  intros [] Hb Hz; cbn [component Three.x Three.y Three.z] in *;
  try congruence; try discriminate Hz; try lra.
Qed.

(** X6.  A drag past the threshold on a pressed face starts a move of a
    slice that holds the pressed cubelet; the rotation axis lies in the
    plane of the face, and of the two axes in that plane it is the one
    along which the drag is not the longer. *)
Theorem X6_drag_selects_pressed_slice (s : Component) (e : PointerEvent) :
  groupRef s = true -> pivotRef s = true ->
  armed s -> snapped (startFaceNormal (interactRef s)) ->
  Three.length_lt (dragVector s e) (1 # 4) = false ->
  exists s2 m fl,
    handlePointerMove s e = (s2, Requested m (Some fl))
    /\ In (Z.to_nat (intersectedCubieId (interactRef s))) (fl_active fl)
    /\ (component (axis m) (startFaceNormal (interactRef s)) == 0)%Q
    /\ (forall b, b <> axis m ->
          (component b (startFaceNormal (interactRef s)) == 0)%Q ->
          (Qabs (component (axis m) (dragVector s e))
           <= Qabs (component b (dragVector s e)))%Q).
Proof.
  intros Hg Hp (Hd & Ha & Hi & c & Hc) Hn Hl.
  unfold handlePointerMove. rewrite Hd, Ha. cbn [negb orb].
  destruct (Z.eqb_spec (intersectedCubieId (interactRef s)) (-1)) as [E | _];
    [lia |].
  unfold dragVector in Hl |- *. rewrite Hl.
  destruct (Z.ltb_spec (intersectedCubieId (interactRef s)) 0) as [E | _];
    [lia |].
  rewrite Hc.
  set (m := resolveMove (startFaceNormal (interactRef s))
              (Three.sub (point e) (startPoint (interactRef s))) c).
  unfold rotateSlice_start. cbn [pivotRef groupRef setInteract cubelets].
  rewrite Hg, Hp. cbn [negb orb].
  eexists _, m, _. split; [reflexivity |]. cbn [fl_active].
  split; [| apply resolveMove_axis; assumption].
  apply activeFrom_In. exists c. split; [lia |].
  rewrite Nat.sub_0_r. split; [exact Hc | apply resolveMove_inSlice].
Qed.

Lemma X6_drag_selects_pressed_slice_witness :
  exists s2 m fl,
    handlePointerMove pressed dragUp = (s2, Requested m (Some fl))
    /\ In (Z.to_nat (intersectedCubieId (interactRef pressed))) (fl_active fl)
    /\ (component (axis m) (startFaceNormal (interactRef pressed)) == 0)%Q
    /\ (forall b, b <> axis m ->
          (component b (startFaceNormal (interactRef pressed)) == 0)%Q ->
          (Qabs (component (axis m) (dragVector pressed dragUp))
           <= Qabs (component b (dragVector pressed dragUp)))%Q).
Proof.
  apply (X6_drag_selects_pressed_slice pressed dragUp).
  - reflexivity.
  - reflexivity.
  - repeat split; try reflexivity; try (vm_compute; discriminate).
    eexists. reflexivity.
  - vm_compute. auto.
  - reflexivity.
Defined.

(** ** The latch of a press *)

(** X7.  One press starts at most one move: once a drag update did
    anything, or the pointer was released, every later drag update is
    ignored and leaves the component as it is, while the move is in flight
    and after it has finished. *)
Theorem X7_one_move_per_press (s : Component) (e : PointerEvent) :
  snd (handlePointerMove s e) <> Ignored ->
  (forall e', handlePointerMove (fst (handlePointerMove s e)) e'
              = (fst (handlePointerMove s e), Ignored))
  /\ (forall num gs fl e',
        handlePointerMove
          (fst (rotateSlice_finish num gs (fst (handlePointerMove s e)) fl)) e'
        = (fst (rotateSlice_finish num gs (fst (handlePointerMove s e)) fl),
           Ignored))
  /\ (forall e', handlePointerMove (handlePointerUp s) e'
                 = (handlePointerUp s, Ignored)).
Proof.
  intros H.
  assert (Hu : forall s0 e', handlePointerMove (handlePointerUp s0) e'
                             = (handlePointerUp s0, Ignored)).
  { intros s0 e'. unfold handlePointerUp, handlePointerMove.
    destruct (isDragging (interactRef s0)) eqn:E; cbn [negb];
      [reflexivity | now rewrite E]. }
  assert (Hd : isDragging (interactRef (fst (handlePointerMove s e))) = false).
  { revert H. unfold handlePointerMove.
    destruct (negb (isDragging (interactRef s)) || isAnimating s
              || (intersectedCubieId (interactRef s) =? -1));
      [intros H; now elim H |].
    destruct (Three.length_lt _ _); [intros H; now elim H |].
    intros _.
    destruct (if intersectedCubieId (interactRef s) <? 0 then None
              else nth_error (cubelets s)
                     (Z.to_nat (intersectedCubieId (interactRef s))))
      as [c |]; [| reflexivity].
    unfold rotateSlice_start. cbn [pivotRef groupRef setInteract].
    destruct (negb (pivotRef s) || negb (groupRef s)); reflexivity. }
  split; [| split; [| apply Hu]]; intros; unfold handlePointerMove at 1;
    cbn [rotateSlice_finish fst setIsAnimating setCubelets interactRef];
    rewrite Hd; reflexivity.
Qed.

Lemma X7_one_move_per_press_witness :
  (forall e', handlePointerMove (fst (handlePointerMove pressed dragUp)) e'
              = (fst (handlePointerMove pressed dragUp), Ignored))
  /\ (forall num gs fl e',
        handlePointerMove
          (fst (rotateSlice_finish num gs
                  (fst (handlePointerMove pressed dragUp)) fl)) e'
        = (fst (rotateSlice_finish num gs
                  (fst (handlePointerMove pressed dragUp)) fl),
           Ignored))
  /\ (forall e', handlePointerMove (handlePointerUp pressed) e'
                 = (handlePointerUp pressed, Ignored)).
Proof.
  apply (X7_one_move_per_press pressed dragUp).
  vm_compute. discriminate.
Defined.

(** ** From the press to the committed move *)

(** X8.  A press on a cubelet of an idle cube while playing, followed by a
    drag past the threshold, starts the move resolved from the snapped
    normal and the drag; when its animation completes, the cubelets are
    those of the whole move committed on the state before the press, the
    solved check gives the same answer, and the component is idle and
    unlatched. *)
Theorem X8_gesture_commits_move (num : Numerics) (gs : GameState)
    (s0 : Component) (e0 e : PointerEvent) (n : Three.Vector3) (c : Cubelet) :
  groupRef s0 = true -> pivotRef s0 = true -> isAnimating s0 = false ->
  worldNormal e0 = Some n ->
  0 <= objectIndex e0 ->
  nth_error (cubelets s0) (Z.to_nat (objectIndex e0)) = Some c ->
  Three.length_lt (Three.sub (point e) (point e0)) (1 # 4) = false ->
  exists s2 m fl,
    m = resolveMove (snapNormal n) (Three.sub (point e) (point e0)) c
    /\ handlePointerMove (handlePointerDown PLAYING s0 e0) e
       = (s2, Requested m (Some fl))
    /\ cubelets (fst (rotateSlice_finish num gs s2 fl))
       = cubelets (commit num gs s0 m)
    /\ snd (rotateSlice_finish num gs s2 fl)
       = snd (rotateSlice num gs s0 (axis m) (slice m) (direction m))
    /\ isAnimating (fst (rotateSlice_finish num gs s2 fl)) = false
    /\ isDragging (interactRef (fst (rotateSlice_finish num gs s2 fl))) = false.
Proof.
  intros Hg Hp Ha Hn Hi Hc Hl.
  unfold handlePointerDown. rewrite Ha, Hn. cbn [GameState_eqb negb orb].
  unfold handlePointerMove.
  cbn [setInteract interactRef isDragging isAnimating intersectedCubieId
       startPoint startFaceNormal cubelets negb orb].
  rewrite Ha. cbn [orb].
  destruct (Z.eqb_spec (objectIndex e0) (-1)) as [E | _]; [lia |].
  rewrite Hl.
  destruct (Z.ltb_spec (objectIndex e0) 0) as [E | _]; [lia |].
  rewrite Hc.
  set (m := resolveMove (snapNormal n) (Three.sub (point e) (point e0)) c).
  unfold commit, rotateSlice, rotateSlice_start.
  cbn [pivotRef groupRef setInteract]. rewrite Hg, Hp. cbn [negb orb].
  eexists _, m, _. repeat split; reflexivity.
Qed.

Lemma X8_gesture_commits_move_witness :
  exists s2 m fl,
    m = resolveMove (snapNormal (Three.vec3 1 0 0))
          (Three.sub (point dragUp) (point pressRight))
          (mkCubelet 22 (1, 0, 0) (1, 0, 0) Three.identityQuaternion
             (initialColorMap (1, 0, 0))
             (Some (mkMesh (1, 0, 0) Three.identityQuaternion unitScale)))
    /\ handlePointerMove (handlePointerDown PLAYING initialComponent pressRight)
         dragUp
       = (s2, Requested m (Some fl))
    /\ cubelets (fst (rotateSlice_finish doubleNumerics PLAYING s2 fl))
       = cubelets (commit doubleNumerics PLAYING initialComponent m)
    /\ snd (rotateSlice_finish doubleNumerics PLAYING s2 fl)
       = snd (rotateSlice doubleNumerics PLAYING initialComponent
                (axis m) (slice m) (direction m))
    /\ isAnimating (fst (rotateSlice_finish doubleNumerics PLAYING s2 fl)) = false
    /\ isDragging
         (interactRef (fst (rotateSlice_finish doubleNumerics PLAYING s2 fl)))
       = false.
Proof.
  apply (X8_gesture_commits_move doubleNumerics PLAYING initialComponent
           pressRight dragUp (Three.vec3 1 0 0)).
  - reflexivity.
  - reflexivity.
  - reflexivity.
  - reflexivity.
  - simpl. lia.
  - reflexivity.
  - reflexivity.
Defined.

(** ** The scramble *)

Lemma runScramble_commits num gs pick n : forall i s,
  fst (runScramble num gs pick n i s) = commits num gs s (map pick (seq i n)).
Proof.
  induction n as [| n IH]; intros i s; cbn [runScramble seq map].
  - reflexivity.
  - change (commits num gs s (pick i :: map pick (seq (S i) n)))
      with (commits num gs (commit num gs s (pick i)) (map pick (seq (S i) n))).
    rewrite <- IH. unfold commit.
    destruct (rotateSlice num gs s (axis (pick i)) (slice (pick i))
                          (direction (pick i))) as [s1 solved].
    cbn [fst].
    destruct (runScramble num gs pick n (S i) s1) as [s2 k].
    reflexivity.
Qed.

Lemma Reachable_commits num gs ms : forall s,
  Reachable num s -> Reachable num (commits num gs s ms).
Proof.
  induction ms as [| m ms IH]; intros s H; simpl; [exact H |].
  apply IH. now apply reach_commit.
Qed.

Lemma Reachable_idle num s :
  numerics_ok num -> Reachable num s -> isAnimating s = false.
Proof.
  intros Hok H. destruct H as [| s gs m H].
  - reflexivity.
  - destruct (Reachable_Inv num Hok s H) as (Hg & Hp & _).
    unfold commit, rotateSlice, rotateSlice_start. now rewrite Hg, Hp.
Qed.

(** X9.  Started on a state the component reaches, the scramble effect
    commits the twenty drawn moves in the order they are drawn; it ends
    idle, in a reachable state, with the 27 cubelets on the 27 lattice
    points. *)
Theorem X9_scramble_twenty_moves (num : Numerics) (gs : GameState)
    (pick : nat -> Move) (s : Component) :
  numerics_ok num -> Reachable num s ->
  fst (scrambleEffect num gs true pick s)
  = commits num gs s (map pick (seq 0 20))
  /\ Reachable num (fst (scrambleEffect num gs true pick s))
  /\ isAnimating (fst (scrambleEffect num gs true pick s)) = false
  /\ Permutation
       (map currentPos (cubelets (fst (scrambleEffect num gs true pick s))))
       lattice.
Proof.
  intros Hok Hr.
  assert (E : fst (scrambleEffect num gs true pick s)
              = commits num gs s (map pick (seq 0 20))).
  { unfold scrambleEffect. rewrite (Reachable_idle num s Hok Hr).
    cbn [negb andb]. apply runScramble_commits. }
  rewrite E.
  pose proof (Reachable_commits num gs (map pick (seq 0 20)) s Hr) as Hr'.
  repeat split.
  - exact Hr'.
  - now apply (Reachable_idle num).
  - now apply (Reachable_lattice_permutation num).
Qed.

Lemma X9_scramble_twenty_moves_witness :
  fst (scrambleEffect doubleNumerics IDLE true (fun _ => moveDown) afterLeft)
  = commits doubleNumerics IDLE afterLeft (map (fun _ => moveDown) (seq 0 20))
  /\ Reachable doubleNumerics
       (fst (scrambleEffect doubleNumerics IDLE true (fun _ => moveDown)
               afterLeft))
  /\ isAnimating
       (fst (scrambleEffect doubleNumerics IDLE true (fun _ => moveDown)
               afterLeft)) = false
  /\ Permutation
       (map currentPos
          (cubelets (fst (scrambleEffect doubleNumerics IDLE true
                            (fun _ => moveDown) afterLeft))))
       lattice.
Proof.
  apply (X9_scramble_twenty_moves doubleNumerics IDLE (fun _ => moveDown)
           afterLeft).
  - split; apply Qle_bool_iff; reflexivity.
  - apply reach_commit, reach_mount.
Defined.

(** ** The press *)

Lemma sign_abs v : (Js.sign v * v == Qabs v)%Q.
Proof.
  destruct v as [[| p | p] d]; unfold Js.sign, Qeq; simpl; lia.
Qed.

Lemma snapNormal_dominant n :
  (Three.dot (snapNormal n) n
   == Qmax (Qmax (Qabs (Three.x n)) (Qabs (Three.y n))) (Qabs (Three.z n)))%Q.
Proof.
  destruct n as [nx ny nz]. unfold snapNormal; cbn [Three.x Three.y Three.z].
  set (mx := Qmax (Qmax (Qabs nx) (Qabs ny)) (Qabs nz)).
  assert (Hmax : (mx == Qabs nx \/ mx == Qabs ny \/ mx == Qabs nz)%Q).
  { unfold mx.
    destruct (Q.max_spec (Qmax (Qabs nx) (Qabs ny)) (Qabs nz))
      as [[_ E] | [_ E]].
    - right; right; exact E.
    - destruct (Q.max_spec (Qabs nx) (Qabs ny)) as [[_ E'] | [_ E']];
        [right; left | left]; rewrite E; exact E'. }
  pose proof (sign_abs nx) as Sx. pose proof (sign_abs ny) as Sy.
  pose proof (sign_abs nz) as Sz.
  unfold Js.eqb.
  destruct (Qeq_bool (Qabs nx) mx) eqn:Ex.
  { apply Qeq_bool_iff in Ex. unfold Three.dot; cbn [Three.x Three.y Three.z].
    rewrite <- Ex, <- Sx. ring. }
  destruct (Qeq_bool (Qabs ny) mx) eqn:Ey.
  { apply Qeq_bool_iff in Ey. unfold Three.dot; cbn [Three.x Three.y Three.z].
    rewrite <- Ey, <- Sy. ring. }
  assert (Ez : (mx == Qabs nz)%Q).
  { destruct Hmax as [E | [E | E]]; auto.
    - apply Qeq_sym, Qeq_bool_iff in E. congruence.
    - apply Qeq_sym, Qeq_bool_iff in E. congruence. }
  unfold Three.dot; cbn [Three.x Three.y Three.z].
  rewrite Ez, <- Sz. ring.
Qed.

(** X10.  A press on a cubelet of an idle cube while playing arms the
    component without touching a cubelet; the normal it records is one of
    the six axis directions, the one along which the face normal has its
    largest component, pointing the same way. *)
Theorem X10_press_arms (s : Component) (e : PointerEvent)
    (n : Three.Vector3) (c : Cubelet) :
  isAnimating s = false ->
  worldNormal e = Some n -> ~ Three.vec_eq n (Three.vec3 0 0 0) ->
  0 <= objectIndex e ->
  nth_error (cubelets s) (Z.to_nat (objectIndex e)) = Some c ->
  armed (handlePointerDown PLAYING s e)
  /\ snapped (startFaceNormal (interactRef (handlePointerDown PLAYING s e)))
  /\ (Three.dot (startFaceNormal (interactRef (handlePointerDown PLAYING s e)))
                n
      == Qmax (Qmax (Qabs (Three.x n)) (Qabs (Three.y n))) (Qabs (Three.z n)))%Q
  /\ cubelets (handlePointerDown PLAYING s e) = cubelets s.
Proof.
  intros Ha Hn Hz Hi Hc.
  unfold handlePointerDown. rewrite Ha, Hn. cbn [GameState_eqb negb orb].
  cbn [setInteract interactRef startFaceNormal cubelets].
  split; [| split; [| split]].
  - unfold armed. cbn. repeat split; try assumption. now exists c.
  - now apply snapNormal_snapped.
  - apply snapNormal_dominant.
  - reflexivity.
Qed.

Lemma X10_press_arms_witness :
  armed (handlePointerDown PLAYING initialComponent pressRight)
  /\ snapped (startFaceNormal
                (interactRef (handlePointerDown PLAYING initialComponent
                                pressRight)))
  /\ (Three.dot
        (startFaceNormal
           (interactRef (handlePointerDown PLAYING initialComponent
                           pressRight)))
        (Three.vec3 1 0 0)
      == Qmax (Qmax (Qabs (Three.x (Three.vec3 1 0 0)))
                    (Qabs (Three.y (Three.vec3 1 0 0))))
              (Qabs (Three.z (Three.vec3 1 0 0))))%Q
  /\ cubelets (handlePointerDown PLAYING initialComponent pressRight)
     = cubelets initialComponent.
Proof.
  apply (X10_press_arms initialComponent pressRight (Three.vec3 1 0 0)
           (mkCubelet 22 (1, 0, 0) (1, 0, 0) Three.identityQuaternion
              (initialColorMap (1, 0, 0))
              (Some (mkMesh (1, 0, 0) Three.identityQuaternion unitScale)))).
  - reflexivity.
  - reflexivity.
  - intros (E & _). vm_compute in E. discriminate E.
  - simpl. lia.
  - reflexivity.
Defined.

(** ** Kinds of pieces *)

Lemma sliceTurn_zeros a k d p : zeros (sliceTurn a k d p) = zeros p.
Proof.
  unfold sliceTurn. destruct (coord a p =? k); [| reflexivity].
  destruct p as [[x y] z]. unfold zeros, quarterTurn.
  destruct a, d; cbv [targetRot dirZ];
    repeat match goal with
    | |- context [?u =? 0] => destruct (Z.eqb_spec u 0)
    end; try reflexivity; lia.
Qed.

(** X11.  A corner stays a corner, an edge an edge, a face centre a face
    centre, and the core stays the core: along every run the position of
    a cubelet has as many coordinates equal to 0 as the position it was
    mounted at. *)
Theorem X11_piece_kind_is_kept (num : Numerics) (s : Component) :
  numerics_ok num -> Reachable num s ->
  Forall (fun c => zeros (currentPos c) = zeros (initialPos c)) (cubelets s).
Proof.
  intros Hok H. induction H as [| s gs m H IH].
  - unfold initialComponent, initialCubelets, lattice; simpl.
    repeat (constructor; [reflexivity |]). constructor.
  - pose proof (Reachable_Inv num Hok s H) as HI.
    rewrite commit_cubelets by exact HI.
    destruct HI as (_ & _ & Hw).
    apply Forall_map. rewrite Forall_forall in *. intros c Hc.
    rewrite (turnSlice_currentPos num Hok) by auto.
    destruct (turnSlice_framed num (axis m) (slice m) (direction m) c)
      as (_ & -> & _).
    rewrite sliceTurn_zeros. auto.
Qed.

Lemma X11_piece_kind_is_kept_witness :
  Forall (fun c => zeros (currentPos c) = zeros (initialPos c))
         (cubelets afterLeft).
Proof.
  apply (X11_piece_kind_is_kept doubleNumerics afterLeft).
  - split; apply Qle_bool_iff; reflexivity.
  - apply reach_commit, reach_mount.
Defined.

(** ** One move away from home *)

Lemma quarterTurn_moves a k d :
  -1 <= k <= 1 ->
  exists p, inLattice p /\ coord a p = k
            /\ quarterTurn a (targetRot d) p <> p.
Proof.
  intros Hk.
  destruct a;
    [exists (k, 1, 1) | exists (1, k, 1) | exists (1, 1, k)];
    (split; [simpl; lia |]); (split; [reflexivity |]);
    destruct d; cbn; intros [=]; lia.
Qed.

(** X12.  One move of a slice of the cube, made when every cubelet is
    where it was mounted, is never followed by the solved callback: the
    check that ends the move finds a cubelet away from home, whatever the
    orientations are and however cos and sin were rounded. *)
Theorem X12_one_move_from_home (num : Numerics) (gs : GameState)
    (s : Component) (m : Move) :
  numerics_ok num -> Reachable num s -> allHome s -> -1 <= slice m <= 1 ->
  snd (rotateSlice num gs s (axis m) (slice m) (direction m)) = false
  /\ solvedLoop (cubelets (commit num gs s m)) = false.
Proof.
  intros Hok Hr Hh Hk.
  pose proof (Reachable_Inv num Hok s Hr) as HI.
  assert (Hloop : solvedLoop (cubelets (commit num gs s m)) = false).
  { rewrite commit_cubelets by exact HI.
    destruct (quarterTurn_moves (axis m) (slice m) (direction m) Hk)
      as (p & Hp & Hc & Hmv).
    destruct (Reachable_positions num Hok s Hr) as (Hlen & Hnd & _).
    assert (Hin : In p (map currentPos (cubelets s))).
    { eapply Permutation_in;
        [symmetry; apply (Reachable_lattice_permutation num s Hok Hr) |].
      now apply lattice_In. }
    apply in_map_iff in Hin. destruct Hin as (c & Ec & Hin).
    destruct HI as (_ & _ & Hw). rewrite Forall_forall in Hw.
    pose proof (Hw c Hin) as Hwc.
    unfold solvedLoop. rewrite firstn_all2
      by (rewrite length_map; rewrite length_map in Hlen; rewrite Hlen;
          apply le_n).
    apply not_true_is_false. intros Ht. rewrite forallb_forall in Ht.
    specialize (Ht (turnSlice num (axis m) (slice m) (direction m) c)
                   (in_map _ _ _ Hin)).
    pose proof (turnSlice_wellPlaced num Hok (axis m) (slice m) (direction m)
                  c Hwc) as Hw'.
    apply cubieSolved_home in Ht.
    2: { destruct Hw' as [_ [q [s' ->]]]. discriminate. }
    rename Ht into Hhome.
    rewrite (turnSlice_currentPos num Hok) in Hhome by exact Hwc.
    destruct (turnSlice_framed num (axis m) (slice m) (direction m) c)
      as (_ & Ei & _).
    rewrite Ei in Hhome.
    unfold allHome in Hh. rewrite Forall_forall in Hh.
    rewrite <- (Hh c Hin), Ec in Hhome.
    rewrite sliceTurn_in in Hhome by exact Hc. contradiction. }
  split; [| exact Hloop].
  revert Hloop. unfold commit, rotateSlice.
  destruct (rotateSlice_start s (axis m) (slice m) (direction m))
    as [[s1 fl] |]; [| reflexivity].
  unfold rotateSlice_finish. cbn [fst snd setIsAnimating setCubelets cubelets].
  unfold checkSolved. intros ->. now destruct (negb _).
Qed.

Lemma X12_one_move_from_home_witness :
  snd (rotateSlice doubleNumerics PLAYING initialComponent
         (axis moveRight) (slice moveRight) (direction moveRight)) = false
  /\ solvedLoop (cubelets (commit doubleNumerics PLAYING initialComponent
                             moveRight)) = false.
Proof.
  apply (X12_one_move_from_home doubleNumerics PLAYING initialComponent
           moveRight).
  - split; apply Qle_bool_iff; reflexivity.
  - apply reach_mount.
  - unfold allHome, initialComponent, initialCubelets, lattice; simpl.
    repeat (constructor; [reflexivity |]). constructor.
  - simpl. lia.
Defined.

(** * The ranking service *)

Lemma insertRecord_Permutation r l : Permutation (insertRecord r l) (r :: l).
Proof.
  induction l as [| y l IH]; simpl; [reflexivity |].
  destruct (timeMs r <=? timeMs y); [reflexivity |].
  rewrite IH. apply perm_swap.
Qed.

Lemma sortByTimeMs_Permutation l : Permutation (sortByTimeMs l) l.
Proof.
  induction l as [| r l IH]; simpl; [reflexivity |].
  rewrite insertRecord_Permutation. now constructor.
Qed.

Lemma insertRecord_byTime r l : byTime l -> byTime (insertRecord r l).
Proof.
  unfold byTime. induction 1 as [| y l Hl IH Hy]; simpl.
  - repeat constructor.
  - destruct (Z.leb_spec (timeMs r) (timeMs y)) as [Hle | Hgt].
    + constructor; [now constructor |].
      constructor; [exact Hle |].
      eapply Forall_impl; [| exact Hy]. simpl; intros; lia.
    + constructor; [exact IH |].
      eapply Permutation_Forall;
        [symmetry; apply insertRecord_Permutation |].
      constructor; [lia | exact Hy].
Qed.

Lemma sortByTimeMs_byTime l : byTime (sortByTimeMs l).
Proof.
  induction l as [| r l IH]; simpl; [constructor |].
  now apply insertRecord_byTime.
Qed.

(** In front of records that are not faster, a record stays in front. *)
Lemma insertRecord_head r l :
  Forall (fun y => timeMs r <= timeMs y) l -> insertRecord r l = r :: l.
Proof.
  intros H. destruct H as [| y l Hy _]; simpl; [reflexivity |].
  destruct (Z.leb_spec (timeMs r) (timeMs y)); [reflexivity | lia].
Qed.

Lemma filter_all {A : Type} (f : A -> bool) (l : list A) :
  Forall (fun u => f u = true) l -> filter f l = l.
Proof.
  induction 1 as [| u l Hu _ IH]; simpl; [reflexivity |].
  now rewrite Hu, IH.
Qed.

(** Where the stable sort puts a record pushed behind a sorted array:
    behind every record that is not slower. *)
Lemma sort_pushed l r :
  byTime l ->
  sortByTimeMs (l ++ [r])
  = filter (fun y => timeMs y <=? timeMs r) l
    ++ r :: filter (fun y => timeMs r <? timeMs y) l.
Proof.
  unfold sortByTimeMs. rewrite fold_right_app. cbn [fold_right insertRecord].
  unfold byTime. induction 1 as [| a l Hl IH Ha]; cbn [fold_right filter app].
  - reflexivity.
  - rewrite IH.
    destruct (Z.leb_spec (timeMs a) (timeMs r)) as [Hle | Hgt].
    + destruct (Z.ltb_spec (timeMs r) (timeMs a)) as [Hlt | _]; [lia |].
      cbn [app]. apply insertRecord_head.
      apply Forall_app. split.
      * apply Forall_forall. intros y Hy. apply filter_In in Hy.
        rewrite Forall_forall in Ha. now apply Ha.
      * constructor; [exact Hle |].
        apply Forall_forall. intros y Hy. apply filter_In in Hy.
        rewrite Forall_forall in Ha. now apply Ha.
    + destruct (Z.ltb_spec (timeMs r) (timeMs a)) as [_ | Hge]; [| lia].
      assert (E1 : filter (fun y => timeMs y <=? timeMs r) l = []).
      { apply filter_none. intros y Hy. rewrite Forall_forall in Ha.
        specialize (Ha y Hy). apply Z.leb_gt. lia. }
      assert (E2 : filter (fun y => timeMs r <? timeMs y) l = l).
      { apply filter_all. eapply Forall_impl; [| exact Ha].
        simpl; intros y Hy. apply Z.ltb_lt. lia. }
      rewrite E1, E2. cbn [app insertRecord].
      destruct (Z.leb_spec (timeMs a) (timeMs r)) as [Hle | _]; [lia |].
      f_equal. now apply insertRecord_head.
Qed.

Lemma getRankings_item st :
  item (fst (getRankings st)) = Some (rankingsOf st)
  /\ mock (fst (getRankings st)) = mock st.
Proof.
  unfold rankingsOf, getRankings. destruct st as [[l |] m]; simpl; auto.
Qed.

Lemma saveScore_result now st n t :
  snd (saveScore now st n t)
  = sortByTimeMs (rankingsOf st ++ [mkPlayerRecord n t now])
  /\ item (fst (saveScore now st n t)) = Some (snd (saveScore now st n t))
  /\ mock (fst (saveScore now st n t))
     = match item st with
       | None => snd (saveScore now st n t)
       | Some _ => mock st
       end.
Proof.
  unfold saveScore, rankingsOf, getRankings.
  destruct st as [[l |] m]; simpl; auto.
Qed.

(** X13.  Whatever the store holds, [saveScore] returns the previous
    rankings with the new record added, nothing lost and nothing
    duplicated, ordered by time; that array is what it stores, and what
    the next [getRankings] returns. *)
Theorem X13_saveScore_sorted_permutation (now : string) (st : Storage)
    (n : string) (t : Z) :
  Permutation (snd (saveScore now st n t))
              (mkPlayerRecord n t now :: rankingsOf st)
  /\ byTime (snd (saveScore now st n t))
  /\ rankingsOf (fst (saveScore now st n t)) = snd (saveScore now st n t).
Proof.
  destruct (saveScore_result now st n t) as (E & Hi & _).
  split; [| split].
  - rewrite E, sortByTimeMs_Permutation.
    rewrite Permutation_app_comm. reflexivity.
  - rewrite E. apply sortByTimeMs_byTime.
  - unfold rankingsOf, getRankings. now rewrite Hi.
Qed.

(** X14.  When the stored rankings are ordered by time, [saveScore] keeps
    their order and puts the new record behind every record that is not
    slower: a tie is ranked behind the records it ties with. *)
Theorem X14_saveScore_behind_ties (now : string) (st : Storage)
    (n : string) (t : Z) :
  byTime (rankingsOf st) ->
  snd (saveScore now st n t)
  = filter (fun y => timeMs y <=? t) (rankingsOf st)
    ++ mkPlayerRecord n t now
       :: filter (fun y => t <? timeMs y) (rankingsOf st).
Proof.
  intros H. destruct (saveScore_result now st n t) as (E & _).
  rewrite E. now rewrite sort_pushed.
Qed.

Lemma X14_saveScore_behind_ties_witness :
  snd (saveScore "d4"%string (mkStorage None (MOCK_RANKINGS "d1"%string "d2"%string "d3"%string))
         "Tie"%string 120000)
  = filter (fun y => timeMs y <=? 120000)
      (rankingsOf (mkStorage None (MOCK_RANKINGS "d1"%string "d2"%string "d3"%string)))
    ++ mkPlayerRecord "Tie"%string 120000 "d4"%string
       :: filter (fun y => 120000 <? timeMs y)
            (rankingsOf (mkStorage None (MOCK_RANKINGS "d1"%string "d2"%string "d3"%string))).
Proof.
  apply (X14_saveScore_behind_ties "d4"%string
           (mkStorage None (MOCK_RANKINGS "d1"%string "d2"%string "d3"%string)) "Tie"%string 120000).
  unfold byTime. repeat constructor; simpl; lia.
Defined.

(** ** The stores a browser reaches *)

Lemma MOCK_RANKINGS_byTime d1 d2 d3 : byTime (MOCK_RANKINGS d1 d2 d3).
Proof. unfold byTime. repeat constructor; simpl; lia. Qed.

Lemma Stored_byTime st :
  Stored st ->
  byTime (mock st) /\ (forall l, item st = Some l -> byTime l).
Proof.
  induction 1 as [d1 d2 d3 | st H [IHm IHi] | st now n t H [IHm IHi]
                  | st d1 d2 d3 H [IHm IHi] | st H [IHm IHi]].
  - split; [apply MOCK_RANKINGS_byTime | discriminate].
  - destruct (getRankings_item st) as [Ei Em]. rewrite Ei, Em.
    split; [exact IHm |]. intros l [= <-].
    unfold rankingsOf, getRankings. destruct (item st) eqn:E; simpl; auto.
  - destruct (saveScore_result now st n t) as (E & Ei & Em).
    rewrite Ei, Em, E.
    split.
    + destruct (item st); [exact IHm | apply sortByTimeMs_byTime].
    + intros l [= <-]. apply sortByTimeMs_byTime.
  - split; [apply MOCK_RANKINGS_byTime | exact IHi].
  - split; [exact IHm | discriminate].
Qed.

Lemma Stored_rankings_byTime st : Stored st -> byTime (rankingsOf st).
Proof.
  intros H. destruct (Stored_byTime st H) as [Hm Hi].
  unfold rankingsOf, getRankings. destruct (item st) eqn:E; simpl; auto.
Qed.

Lemma byTime_split t l :
  byTime l ->
  l = filter (fun r => timeMs r <? t) l
      ++ filter (fun r => negb (timeMs r <? t)) l.
Proof.
  unfold byTime. induction 1 as [| a l Hl IH Ha]; simpl; [reflexivity |].
  destruct (Z.ltb_spec (timeMs a) t) as [Hlt | Hge]; cbn [negb app].
  - now rewrite <- IH.
  - assert (E1 : filter (fun r => timeMs r <? t) l = []).
    { apply filter_none. intros y Hy. rewrite Forall_forall in Ha.
      specialize (Ha y Hy). apply Z.ltb_ge. lia. }
    rewrite E1 in IH |- *. cbn [app] in *. now rewrite <- IH.
Qed.

(** X15.  In every store a browser reaches the rankings are ordered by
    time, as [getPlayerRank] assumes, so that the rank it computes is the
    place where the time fits: the records in front of that place are
    exactly the faster ones, and no record from that place on is faster. *)
Theorem X15_rank_is_place (st : Storage) (t : Z) :
  Stored st ->
  byTime (rankingsOf st)
  /\ firstn (snd (getPlayerRank st t) - 1) (rankingsOf st)
     = filter (fun r => timeMs r <? t) (rankingsOf st)
  /\ Forall (fun r => t <= timeMs r)
       (skipn (snd (getPlayerRank st t) - 1) (rankingsOf st)).
Proof.
  intros H. pose proof (Stored_rankings_byTime st H) as Hs.
  split; [exact Hs |].
  assert (E : snd (getPlayerRank st t)
              = (List.length (filter (fun r => (timeMs r <? t)%Z)
                                     (rankingsOf st))
                 + 1)%nat).
  { unfold getPlayerRank, rankingsOf. now destruct (getRankings st). }
  rewrite E, Nat.add_sub.
  pose proof (byTime_split t (rankingsOf st) Hs) as Hsp.
  set (lo := filter (fun r => timeMs r <? t) (rankingsOf st)) in *.
  set (hi := filter (fun r => negb (timeMs r <? t)) (rankingsOf st)) in *.
  split.
  - rewrite Hsp at 1. rewrite firstn_app, Nat.sub_diag, firstn_all.
    cbn [firstn]. apply app_nil_r.
  - rewrite Hsp at 1. rewrite skipn_app, Nat.sub_diag, skipn_all.
    cbn [skipn app]. apply Forall_forall. intros r Hr.
    apply filter_In in Hr. destruct Hr as [_ Hr].
    apply negb_true_iff, Z.ltb_ge in Hr. exact Hr.
Qed.

Lemma X15_rank_is_place_witness :
  byTime (rankingsOf (fst (saveScore "d4"%string
            (mkStorage None (MOCK_RANKINGS "d1"%string "d2"%string "d3"%string)) "Neo"%string 60000)))
  /\ firstn (snd (getPlayerRank (fst (saveScore "d4"%string
               (mkStorage None (MOCK_RANKINGS "d1"%string "d2"%string "d3"%string)) "Neo"%string 60000))
               100000) - 1)
       (rankingsOf (fst (saveScore "d4"%string
          (mkStorage None (MOCK_RANKINGS "d1"%string "d2"%string "d3"%string)) "Neo"%string 60000)))
     = filter (fun r => timeMs r <? 100000)
         (rankingsOf (fst (saveScore "d4"%string
            (mkStorage None (MOCK_RANKINGS "d1"%string "d2"%string "d3"%string)) "Neo"%string 60000)))
  /\ Forall (fun r => 100000 <= timeMs r)
       (skipn (snd (getPlayerRank (fst (saveScore "d4"%string
                 (mkStorage None (MOCK_RANKINGS "d1"%string "d2"%string "d3"%string)) "Neo"%string 60000))
                 100000) - 1)
          (rankingsOf (fst (saveScore "d4"%string
             (mkStorage None (MOCK_RANKINGS "d1"%string "d2"%string "d3"%string)) "Neo"%string 60000)))).
Proof.
  apply (X15_rank_is_place
           (fst (saveScore "d4"%string (mkStorage None (MOCK_RANKINGS "d1"%string "d2"%string "d3"%string))
                   "Neo"%string 60000)) 100000).
  apply stored_save, stored_load.
Defined.

Lemma byTime_ties t l :
  byTime l ->
  filter (fun y => timeMs y <=? t) l
  = filter (fun y => timeMs y <? t) l ++ filter (fun y => timeMs y =? t) l.
Proof.
  unfold byTime. induction 1 as [| a l Hl IH Ha]; simpl; [reflexivity |].
  destruct (Z.leb_spec (timeMs a) t) as [Hle | Hgt];
    destruct (Z.ltb_spec (timeMs a) t) as [Hlt | Hge];
    destruct (Z.eqb_spec (timeMs a) t) as [Heq | Hne]; try lia.
  - cbn [app]. now rewrite IH.
  - assert (E1 : filter (fun y => timeMs y <? t) l = []).
    { apply filter_none. intros y Hy. rewrite Forall_forall in Ha.
      specialize (Ha y Hy). apply Z.ltb_ge. lia. }
    rewrite E1 in IH |- *. cbn [app] in *. now rewrite IH.
  - exact IH.
Qed.

Lemma rank_value st t :
  snd (getPlayerRank st t)
  = (List.length (filter (fun r => (timeMs r <? t)%Z) (rankingsOf st)) + 1)%nat.
Proof. unfold getPlayerRank, rankingsOf. now destruct (getRankings st). Qed.

Lemma saveScore_rankings now st n t :
  rankingsOf (fst (saveScore now st n t))
  = sortByTimeMs (rankingsOf st ++ [mkPlayerRecord n t now]).
Proof.
  destruct (saveScore_result now st n t) as (E & Hi & _).
  unfold rankingsOf at 1, getRankings. now rewrite Hi.
Qed.

(** A save does not change the rank of the saved time. *)
Lemma save_keeps_rank (now : string) (st : Storage) (n : string) (t : Z) :
  snd (getPlayerRank (fst (saveScore now st n t)) t)
  = snd (getPlayerRank st t).
Proof.
  rewrite !rank_value, saveScore_rankings. f_equal.
  rewrite (Permutation_filter_length _ _ _ (sortByTimeMs_Permutation _)).
  rewrite filter_app. cbn [filter timeMs].
  now rewrite Z.ltb_irrefl, app_nil_r.
Qed.

(** The place behind the faster records holds the saved time. *)
Lemma saved_place (now : string) (st : Storage) (n : string) (t : Z) :
  byTime (rankingsOf st) ->
  exists r,
    nth_error (rankingsOf (fst (saveScore now st n t)))
              (List.length (filter (fun y => timeMs y <? t) (rankingsOf st)))
    = Some r
    /\ timeMs r = t
    /\ ((forall y, In y (rankingsOf st) -> timeMs y <> t) ->
        r = mkPlayerRecord n t now).
Proof.
  intros Hs. rewrite saveScore_rankings.
  rewrite sort_pushed by exact Hs. cbn [timeMs].
  rewrite (byTime_ties t _ Hs).
  rewrite <- app_assoc, nth_error_app2 by apply le_n.
  rewrite Nat.sub_diag.
  destruct (filter (fun y => timeMs y =? t) (rankingsOf st))
    as [| y ties] eqn:E.
  - eexists. split; [reflexivity |]. split; [reflexivity | auto].
  - assert (Hy : In y (filter (fun y => timeMs y =? t) (rankingsOf st)))
      by (rewrite E; now left).
    apply filter_In in Hy. destruct Hy as [Hin Hy]. apply Z.eqb_eq in Hy.
    exists y. split; [reflexivity |]. split; [exact Hy |].
    intros Hno. now elim (Hno y Hin).
Qed.

(** X16.  A save does not change the rank of the saved time: the record
    itself is not counted as faster.  When the rankings were ordered, the
    record at that rank after the save has the saved time, and it is the
    saved record itself unless an earlier record ties with it. *)
Theorem X16_rank_after_save (now : string) (st : Storage) (n : string)
    (t : Z) :
  byTime (rankingsOf st) ->
  snd (getPlayerRank (fst (saveScore now st n t)) t)
  = snd (getPlayerRank st t)
  /\ exists r,
       nth_error (rankingsOf (fst (saveScore now st n t)))
                 (snd (getPlayerRank st t) - 1) = Some r
       /\ timeMs r = t
       /\ ((forall y, In y (rankingsOf st) -> timeMs y <> t) ->
           r = mkPlayerRecord n t now).
Proof.
  intros Hs. split; [apply save_keeps_rank |].
  rewrite rank_value, Nat.add_sub.
  destruct (saved_place now st n t Hs) as (r & Hn & Ht & Hr).
  exists r. repeat split; assumption.
Qed.

Lemma X16_rank_after_save_witness :
  snd (getPlayerRank
         (fst (saveScore "d4"%string
                 (mkStorage None (MOCK_RANKINGS "d1"%string "d2"%string "d3"%string))
                 "Neo"%string 60000)) 60000)
  = snd (getPlayerRank
           (mkStorage None (MOCK_RANKINGS "d1"%string "d2"%string "d3"%string))
           60000)
  /\ exists r,
       nth_error
         (rankingsOf
            (fst (saveScore "d4"%string
                    (mkStorage None
                       (MOCK_RANKINGS "d1"%string "d2"%string "d3"%string))
                    "Neo"%string 60000)))
         (snd (getPlayerRank
                 (mkStorage None
                    (MOCK_RANKINGS "d1"%string "d2"%string "d3"%string))
                 60000) - 1) = Some r
       /\ timeMs r = 60000
       /\ ((forall y,
              In y (rankingsOf
                      (mkStorage None
                         (MOCK_RANKINGS "d1"%string "d2"%string "d3"%string))) ->
              timeMs y <> 60000) ->
           r = mkPlayerRecord "Neo"%string 60000 "d4"%string).
Proof.
  apply (X16_rank_after_save "d4"%string
           (mkStorage None (MOCK_RANKINGS "d1"%string "d2"%string "d3"%string))
           "Neo"%string 60000).
  unfold byTime. repeat constructor; simpl; lia.
Defined.

Lemma saveScore_keeps now st n t r :
  In r (rankingsOf st) -> In r (rankingsOf (fst (saveScore now st n t))).
Proof.
  intros H. rewrite saveScore_rankings.
  eapply Permutation_in; [symmetry; apply sortByTimeMs_Permutation |].
  apply in_or_app. now left.
Qed.

Lemma saveAll_keeps saves : forall st r,
  In r (rankingsOf st) -> In r (rankingsOf (saveAll saves st)).
Proof.
  induction saves as [| sv saves IH]; intros st r H; simpl; [exact H |].
  apply IH. now apply saveScore_keeps.
Qed.

Lemma nickname_taken (toLowerCase : string -> string) st r n' :
  In r (rankingsOf st) -> toLowerCase n' = toLowerCase (nickname r) ->
  snd (checkNicknameAvailability toLowerCase st n') = false.
Proof.
  intros H E. unfold checkNicknameAvailability. unfold rankingsOf in H.
  destruct (getRankings st) as [st1 rk]. cbn [snd fst] in *.
  apply negb_false_iff, existsb_exists.
  exists r. split; [exact H |]. rewrite E. apply String.eqb_refl.
Qed.

(** X17.  Once a score is saved under a nickname, that nickname, in any
    letter case, is reported as taken, and stays so after any further
    saves: no record is ever dropped or renamed. *)
Theorem X17_nickname_stays_taken (toLowerCase : string -> string)
    (now : string) (st : Storage) (n : string) (t : Z) (saves : list Save)
    (n' : string) :
  toLowerCase n' = toLowerCase n ->
  snd (checkNicknameAvailability toLowerCase
         (saveAll saves (fst (saveScore now st n t))) n') = false.
Proof.
  intros E.
  assert (H : In (mkPlayerRecord n t now)
                 (rankingsOf (saveAll saves (fst (saveScore now st n t))))).
  { apply saveAll_keeps. rewrite saveScore_rankings.
    eapply Permutation_in; [symmetry; apply sortByTimeMs_Permutation |].
    apply in_or_app. right. now left. }
  now apply (nickname_taken toLowerCase _ _ n' H).
Qed.

Lemma X17_nickname_stays_taken_witness :
  snd (checkNicknameAvailability (fun s => s)
         (saveAll [mkSave "Trinity"%string 50000 "d5"%string]
            (fst (saveScore "d4"%string
                    (mkStorage None
                       (MOCK_RANKINGS "d1"%string "d2"%string "d3"%string))
                    "Neo"%string 60000)))
         "Neo"%string) = false.
Proof.
  apply (X17_nickname_stays_taken (fun s => s) "d4"%string
           (mkStorage None (MOCK_RANKINGS "d1"%string "d2"%string "d3"%string))
           "Neo"%string 60000 [mkSave "Trinity"%string 50000 "d5"%string]
           "Neo"%string).
  reflexivity.
Defined.

(** X18.  The first save on an empty store pushes the record into
    [MOCK_RANKINGS] itself: the array then holds the saved record, and a
    store that is emptied again is seeded with it.  A save on a store that
    holds an item leaves [MOCK_RANKINGS] as it is. *)
Theorem X18_first_save_changes_mock (now : string) (st : Storage)
    (n : string) (t : Z) :
  (item st = None ->
   mock (fst (saveScore now st n t)) = snd (saveScore now st n t)
   /\ In (mkPlayerRecord n t now) (mock (fst (saveScore now st n t)))
   /\ rankingsOf (mkStorage None (mock (fst (saveScore now st n t))))
      = snd (saveScore now st n t))
  /\ (item st <> None ->
      mock (fst (saveScore now st n t)) = mock st).
Proof.
  destruct (saveScore_result now st n t) as (E & Hi & Hm).
  split; intros H.
  - rewrite H in Hm. rewrite Hm. split; [reflexivity |].
    split; [| reflexivity].
    rewrite E.
    eapply Permutation_in; [symmetry; apply sortByTimeMs_Permutation |].
    apply in_or_app. right. now left.
  - rewrite Hm. destruct (item st); [reflexivity | congruence].
Qed.

Lemma X18_first_save_changes_mock_witness :
  mock (fst (saveScore "d4"%string
               (mkStorage None
                  (MOCK_RANKINGS "d1"%string "d2"%string "d3"%string))
               "Neo"%string 60000))
  = snd (saveScore "d4"%string
           (mkStorage None (MOCK_RANKINGS "d1"%string "d2"%string "d3"%string))
           "Neo"%string 60000)
  /\ In (mkPlayerRecord "Neo"%string 60000 "d4"%string)
        (mock (fst (saveScore "d4"%string
                      (mkStorage None
                         (MOCK_RANKINGS "d1"%string "d2"%string "d3"%string))
                      "Neo"%string 60000)))
  /\ rankingsOf
       (mkStorage None
          (mock (fst (saveScore "d4"%string
                        (mkStorage None
                           (MOCK_RANKINGS "d1"%string "d2"%string "d3"%string))
                        "Neo"%string 60000))))
     = snd (saveScore "d4"%string
              (mkStorage None
                 (MOCK_RANKINGS "d1"%string "d2"%string "d3"%string))
              "Neo"%string 60000).
Proof.
  apply (proj1 (X18_first_save_changes_mock "d4"%string
                  (mkStorage None
                     (MOCK_RANKINGS "d1"%string "d2"%string "d3"%string))
                  "Neo"%string 60000)).
  reflexivity.
Defined.

Lemma filter_length_mono {A : Type} (f g : A -> bool) (l : list A) :
  (forall u, f u = true -> g u = true) ->
  (List.length (filter f l) <= List.length (filter g l))%nat.
Proof.
  intros H. induction l as [| u l IH]; simpl; [apply le_n |].
  destruct (f u) eqn:E.
  - rewrite (H u E). simpl. lia.
  - destruct (g u); simpl; lia.
Qed.

(** X19.  The rank of a time lies between 1 and the number of stored
    records plus 1, a time that is not slower never gets a worse rank, and
    the rank is 1 exactly when no stored record is faster. *)
Theorem X19_rank_is_monotone (st : Storage) (t t' : Z) :
  t <= t' ->
  (1 <= snd (getPlayerRank st t) <= List.length (rankingsOf st) + 1)%nat
  /\ (snd (getPlayerRank st t) <= snd (getPlayerRank st t'))%nat
  /\ (snd (getPlayerRank st t) = 1%nat
      <-> Forall (fun r => t <= timeMs r) (rankingsOf st)).
Proof.
  intros Ht. rewrite !rank_value.
  split; [| split].
  - pose proof (List.filter_length_le (fun r => timeMs r <? t) (rankingsOf st)).
    lia.
  - apply Nat.add_le_mono_r, filter_length_mono.
    intros r Hr. apply Z.ltb_lt in Hr. apply Z.ltb_lt. lia.
  - split.
    + intros E. apply Forall_forall. intros r Hr.
      destruct (Z.ltb_spec (timeMs r) t) as [Hlt | Hge]; [| exact Hge].
      assert (Hin : In r (filter (fun r => timeMs r <? t) (rankingsOf st))).
      { apply filter_In. split; [exact Hr | now apply Z.ltb_lt]. }
      destruct (filter (fun r => timeMs r <? t) (rankingsOf st));
        [destruct Hin | simpl in E; lia].
    + intros H. rewrite filter_none; [reflexivity |].
      intros r Hr. rewrite Forall_forall in H. apply Z.ltb_ge. auto.
Qed.

Lemma X19_rank_is_monotone_witness :
  (1 <= snd (getPlayerRank
               (mkStorage None
                  (MOCK_RANKINGS "d1"%string "d2"%string "d3"%string)) 60000)
   <= List.length
        (rankingsOf (mkStorage None
                       (MOCK_RANKINGS "d1"%string "d2"%string "d3"%string)))
      + 1)%nat
  /\ (snd (getPlayerRank
             (mkStorage None
                (MOCK_RANKINGS "d1"%string "d2"%string "d3"%string)) 60000)
      <= snd (getPlayerRank
                (mkStorage None
                   (MOCK_RANKINGS "d1"%string "d2"%string "d3"%string))
                200000))%nat
  /\ (snd (getPlayerRank
             (mkStorage None
                (MOCK_RANKINGS "d1"%string "d2"%string "d3"%string)) 60000)
      = 1%nat
      <-> Forall (fun r => 60000 <= timeMs r)
            (rankingsOf (mkStorage None
                           (MOCK_RANKINGS "d1"%string "d2"%string
                              "d3"%string)))).
Proof.
  apply (X19_rank_is_monotone
           (mkStorage None (MOCK_RANKINGS "d1"%string "d2"%string "d3"%string))
           60000 200000).
  lia.
Defined.

(** * The application shell *)

(** ** The clock display *)

Lemma string_length_append (s t : string) :
  String.length (s ++ t)%string = (String.length s + String.length t)%nat.
Proof. induction s as [| c s IH]; simpl; [reflexivity | now rewrite IH]. Qed.

Lemma append_inj_tail (s s' t t' : string) :
  String.length t = String.length t' ->
  (s ++ t)%string = (s' ++ t')%string -> s = s' /\ t = t'.
Proof.
  intros Hl. revert s'. induction s as [| c s IH]; intros [| c' s'] E;
    simpl in E.
  - auto.
  - apply (f_equal String.length) in E. simpl in E.
    rewrite string_length_append in E. lia.
  - apply (f_equal String.length) in E. simpl in E.
    rewrite string_length_append in E. lia.
  - injection E as -> E. destruct (IH s' E) as [-> ->]. auto.
Qed.

Lemma toString_inj (u v : Z) : App.toString u = App.toString v -> u = v.
Proof.
  unfold App.toString. intros E.
  apply DecimalZ.to_int_inj.
  apply (f_equal NilEmpty.int_of_string) in E.
  rewrite !NilEmpty.isi in E. congruence.
Qed.

Lemma range_forallb (P : Z -> bool) (k : nat) :
  forallb P (map Z.of_nat (seq 0 k)) = true ->
  forall v, 0 <= v < Z.of_nat k -> P v = true.
Proof.
  intros H v Hv. rewrite forallb_forall in H. apply H.
  apply in_map_iff. exists (Z.to_nat v). split; [lia |].
  apply in_seq. lia.
Qed.

Lemma digit_length v :
  0 <= v < 10 -> String.length (App.toString v) = 1%nat.
Proof.
  intros H. apply Nat.eqb_eq.
  apply (range_forallb
           (fun v => Nat.eqb (String.length (App.toString v)) 1) 10);
    [vm_compute; reflexivity | exact H].
Qed.

Lemma seconds_length v :
  0 <= v < 60 ->
  String.length (App.padStart 2 "0" (App.toString v)) = 2%nat.
Proof.
  intros H. apply Nat.eqb_eq.
  apply (range_forallb
           (fun v => Nat.eqb (String.length
                                (App.padStart 2 "0" (App.toString v))) 2) 60);
    [vm_compute; reflexivity | exact H].
Qed.

Lemma seconds_inj u v :
  0 <= u < 60 -> 0 <= v < 60 ->
  App.padStart 2 "0" (App.toString u) = App.padStart 2 "0" (App.toString v) ->
  u = v.
Proof.
  intros Hu Hv E. apply Z.eqb_eq.
  pose proof (range_forallb
    (fun u => forallb
       (fun v => implb (String.eqb (App.padStart 2 "0" (App.toString u))
                                   (App.padStart 2 "0" (App.toString v)))
                       (u =? v))
       (map Z.of_nat (seq 0 60))) 60) as H.
  specialize (H ltac:(vm_compute; reflexivity) u Hu).
  pose proof (range_forallb _ 60 H v Hv) as H'. cbv beta in H'.
  rewrite E, String.eqb_refl in H'. exact H'.
Qed.

(** The display is a function of the tenths of a second. *)
Lemma formatTime_parts ms :
  0 <= ms ->
  App.formatTime ms
  = (App.toString (ms / 100 / 600) ++ ":"
     ++ App.padStart 2 "0" (App.toString ((ms / 100 / 10) mod 60)) ++ "."
     ++ App.toString ((ms / 100) mod 10))%string.
Proof.
  intros H. unfold App.formatTime.
  assert (E1 : ms / 1000 / 60 = ms / 100 / 600).
  { rewrite !Z.div_div by lia. reflexivity. }
  assert (E2 : Z.rem (ms / 1000) 60 = (ms / 100 / 10) mod 60).
  { rewrite Z.rem_mod_nonneg by (try apply Z.div_pos; lia).
    rewrite (Z.div_div ms 100 10) by lia. reflexivity. }
  assert (E3 : Z.rem ms 1000 / 100 = (ms / 100) mod 10).
  { rewrite Z.rem_mod_nonneg by lia.
    pose proof (Z.div_mod ms 1000 ltac:(lia)).
    pose proof (Z.mod_pos_bound ms 1000 ltac:(lia)).
    pose proof (Z.div_mod ms 100 ltac:(lia)).
    pose proof (Z.mod_pos_bound ms 100 ltac:(lia)).
    pose proof (Z.div_mod (ms / 100) 10 ltac:(lia)).
    pose proof (Z.mod_pos_bound (ms / 100) 10 ltac:(lia)).
    pose proof (Z.div_mod (ms mod 1000) 100 ltac:(lia)).
    pose proof (Z.mod_pos_bound (ms mod 1000) 100 ltac:(lia)).
    lia. }
  now rewrite E1, E2, E3.
Qed.

(** X20.  For times that are not negative, the clock shows minutes, two
    digits of seconds and one digit of tenths, and it tells two times
    apart exactly when they differ in their tenths of a second. *)
Theorem X20_formatTime_resolution (ms ms' : Z) :
  0 <= ms -> 0 <= ms' ->
  (App.formatTime ms = App.formatTime ms' <-> ms / 100 = ms' / 100)
  /\ String.length (App.formatTime ms)
     = (String.length (App.toString (ms / 60000)) + 5)%nat.
Proof.
  intros H H'. rewrite !formatTime_parts by assumption.
  assert (Hq : 0 <= ms / 100) by (apply Z.div_pos; lia).
  assert (Hq' : 0 <= ms' / 100) by (apply Z.div_pos; lia).
  set (q := ms / 100) in *. set (q' := ms' / 100) in *.
  pose proof (Z.mod_pos_bound (q / 10) 60 ltac:(lia)) as B1.
  pose proof (Z.mod_pos_bound (q' / 10) 60 ltac:(lia)) as B1'.
  pose proof (Z.mod_pos_bound q 10 ltac:(lia)) as B2.
  pose proof (Z.mod_pos_bound q' 10 ltac:(lia)) as B2'.
  split; [split |].
  - intros E.
    apply append_inj_tail in E.
    2: { cbn [String.length append].
         rewrite !string_length_append. cbn [String.length].
         rewrite !seconds_length, !digit_length by assumption. reflexivity. }
    destruct E as [Em E]. apply toString_inj in Em.
    cbn [append] in E. injection E as E.
    apply append_inj_tail in E.
    2: { cbn [String.length append]. now rewrite !digit_length. }
    destruct E as [Es E]. apply seconds_inj in Es; [| assumption ..].
    cbn [append] in E. injection E as E. apply toString_inj in E.
    pose proof (Z.div_mod q 10 ltac:(lia)).
    pose proof (Z.div_mod q' 10 ltac:(lia)).
    pose proof (Z.div_mod (q / 10) 60 ltac:(lia)).
    pose proof (Z.div_mod (q' / 10) 60 ltac:(lia)).
    assert (Eq : q / 10 / 60 = q' / 10 / 60).
    { rewrite !Z.div_div by lia. exact Em. }
    lia.
  - intros ->. reflexivity.
  - rewrite string_length_append. cbn [String.length append].
    rewrite string_length_append. cbn [String.length append].
    rewrite seconds_length, (digit_length (q mod 10)) by assumption.
    unfold q. rewrite Z.div_div by lia. cbn. lia.
Qed.

Lemma X20_formatTime_resolution_witness :
  (App.formatTime 83456 = App.formatTime 83499 <-> 83456 / 100 = 83499 / 100)
  /\ String.length (App.formatTime 83456)
     = (String.length (App.toString (83456 / 60000)) + 5)%nat.
Proof.
  apply (X20_formatTime_resolution 83456 83499); lia.
Defined.

(** ** The handlers *)

Lemma getRankings_rankings st : rankingsOf (fst (getRankings st)) = rankingsOf st.
Proof.
  unfold rankingsOf, getRankings. destruct st as [[l |] m]; reflexivity.
Qed.

Lemma check_store (toLowerCase : string -> string) st n :
  fst (checkNicknameAvailability toLowerCase st n) = fst (getRankings st).
Proof. unfold checkNicknameAvailability. now destruct (getRankings st). Qed.

Lemma rank_store st t : fst (getPlayerRank st t) = fst (getRankings st).
Proof. unfold getPlayerRank. now destruct (getRankings st). Qed.

Lemma handleStart_store trim toLowerCase w :
  App.store (App.handleStart trim toLowerCase w) = App.store w
  \/ App.store (App.handleStart trim toLowerCase w)
     = fst (getRankings (App.store w)).
Proof.
  unfold App.handleStart.
  destruct (String.eqb _ _); [now left |].
  pose proof (check_store toLowerCase (App.store w)
                (trim (App.nickname (App.ui w)))) as E.
  destruct (checkNicknameAvailability _ _ _) as [st1 [|]];
    cbn [fst negb] in *; right; subst; reflexivity.
Qed.

Lemma handleSolve_store nowMs nowIso r w :
  App.gameState r = PLAYING ->
  App.store (App.handleSolve nowMs nowIso r w)
  = fst (getRankings
           (fst (saveScore nowIso (App.store w) (App.nickname r)
                   (nowMs - App.startTime r)))).
Proof.
  intros E. unfold App.handleSolve. rewrite E. cbn [GameState_eqb negb].
  destruct (saveScore _ _ _ _) as [st1 res]. cbn [fst].
  pose proof (rank_store st1 (nowMs - App.startTime r)) as Er.
  destruct (getPlayerRank st1 _) as [st2 rank]. cbn [fst] in Er.
  now subst.
Qed.

(** No event drops a stored record. *)
Lemma step_keeps trim toLowerCase w e rec :
  In rec (rankingsOf (App.store w)) ->
  In rec (rankingsOf (App.store (App.step trim toLowerCase w e))).
Proof.
  intros H. destruct e; cbn [App.step]; try exact H.
  - destruct (handleStart_store trim toLowerCase w) as [-> | ->];
      [exact H | now rewrite getRankings_rankings].
  - unfold App.timerFires. now destruct (App.timers w).
  - unfold App.tick. now destruct (GameState_eqb _ _).
  - destruct (App.gameState r) eqn:E;
      try (unfold App.handleSolve; rewrite E; exact H).
    rewrite (handleSolve_store _ _ _ _ E), getRankings_rankings.
    now apply saveScore_keeps.
Qed.

Lemma run_keeps trim toLowerCase es : forall w rec,
  In rec (rankingsOf (App.store w)) ->
  In rec (rankingsOf (App.store (App.run trim toLowerCase w es))).
Proof.
  induction es as [| e es IH]; intros w rec H; simpl; [exact H |].
  apply IH. now apply step_keeps.
Qed.

(** X21.  After a solve is recorded under a nickname that [trim] leaves
    as it is, whatever happens next, the start form does not start a game
    under that nickname: [handleStart] reports it as taken and changes
    nothing else, while [handleRetry] starts the scramble without asking. *)
Theorem X21_solved_nickname_is_taken (trim toLowerCase : string -> string)
    (nowMs : Z) (nowIso : string) (r : App.State) (w : App.World)
    (es : list App.Event) :
  App.gameState r = PLAYING ->
  trim (App.nickname r) = App.nickname r ->
  App.nickname r <> EmptyString ->
  App.nickname
    (App.ui (App.run trim toLowerCase (App.handleSolve nowMs nowIso r w) es))
  = App.nickname r ->
  App.nicknameError
    (App.ui (App.handleStart trim toLowerCase
               (App.run trim toLowerCase (App.handleSolve nowMs nowIso r w) es)))
  = "Nickname already taken. Choose another."%string
  /\ App.gameState
       (App.ui (App.handleStart trim toLowerCase
                  (App.run trim toLowerCase
                     (App.handleSolve nowMs nowIso r w) es)))
     = App.gameState
         (App.ui (App.run trim toLowerCase
                    (App.handleSolve nowMs nowIso r w) es))
  /\ App.isScrambling
       (App.ui (App.handleStart trim toLowerCase
                  (App.run trim toLowerCase
                     (App.handleSolve nowMs nowIso r w) es)))
     = App.isScrambling
         (App.ui (App.run trim toLowerCase
                    (App.handleSolve nowMs nowIso r w) es))
  /\ App.timers
       (App.handleStart trim toLowerCase
          (App.run trim toLowerCase (App.handleSolve nowMs nowIso r w) es))
     = App.timers
         (App.run trim toLowerCase (App.handleSolve nowMs nowIso r w) es)
  /\ App.isScrambling
       (App.ui (App.handleRetry
                  (App.run trim toLowerCase
                     (App.handleSolve nowMs nowIso r w) es)))
     = true.
Proof.
  intros Hp Ht Hn Hk.
  set (w2 := App.run trim toLowerCase (App.handleSolve nowMs nowIso r w) es)
    in *.
  assert (Hin : In (mkPlayerRecord (App.nickname r)
                      (nowMs - App.startTime r) nowIso)
                   (rankingsOf (App.store w2))).
  { apply run_keeps. rewrite (handleSolve_store _ _ _ _ Hp).
    rewrite getRankings_rankings, saveScore_rankings.
    eapply Permutation_in; [symmetry; apply sortByTimeMs_Permutation |].
    apply in_or_app. right. now left. }
  unfold App.handleStart. rewrite Hk, Ht.
  destruct (String.eqb_spec (App.nickname r) EmptyString) as [E | _];
    [contradiction |].
  pose proof (nickname_taken toLowerCase (App.store w2) _ (App.nickname r)
                Hin eq_refl) as Hc.
  destruct (checkNicknameAvailability toLowerCase (App.store w2)
              (App.nickname r)) as [st1 available].
  cbn [snd] in Hc. subst available. cbn [negb].
  repeat split; reflexivity.
Qed.

Lemma X21_solved_nickname_is_taken_witness :
  App.nicknameError
    (App.ui (App.handleStart (fun s => s) (fun s => s)
               (App.run (fun s => s) (fun s => s)
                  (App.handleSolve 95000 "d4"%string
                     (App.mkState PLAYING "Neo"%string EmptyString 5000 0
                        false None EmptyString false false)
                     (App.mkWorld
                        (App.mkState PLAYING "Neo"%string EmptyString 5000 0
                           false None EmptyString false false)
                        (mkStorage None
                           (MOCK_RANKINGS "d1"%string "d2"%string "d3"%string))
                        true 0))
                  [App.ClickHome])))
  = "Nickname already taken. Choose another."%string
  /\ App.gameState
       (App.ui (App.handleStart (fun s => s) (fun s => s)
                  (App.run (fun s => s) (fun s => s)
                     (App.handleSolve 95000 "d4"%string
                        (App.mkState PLAYING "Neo"%string EmptyString 5000 0
                           false None EmptyString false false)
                        (App.mkWorld
                           (App.mkState PLAYING "Neo"%string EmptyString 5000
                              0 false None EmptyString false false)
                           (mkStorage None
                              (MOCK_RANKINGS "d1"%string "d2"%string
                                 "d3"%string))
                           true 0))
                     [App.ClickHome])))
     = App.gameState
         (App.ui (App.run (fun s => s) (fun s => s)
                    (App.handleSolve 95000 "d4"%string
                       (App.mkState PLAYING "Neo"%string EmptyString 5000 0
                          false None EmptyString false false)
                       (App.mkWorld
                          (App.mkState PLAYING "Neo"%string EmptyString 5000
                             0 false None EmptyString false false)
                          (mkStorage None
                             (MOCK_RANKINGS "d1"%string "d2"%string
                                "d3"%string))
                          true 0))
                    [App.ClickHome]))
  /\ App.isScrambling
       (App.ui (App.handleStart (fun s => s) (fun s => s)
                  (App.run (fun s => s) (fun s => s)
                     (App.handleSolve 95000 "d4"%string
                        (App.mkState PLAYING "Neo"%string EmptyString 5000 0
                           false None EmptyString false false)
                        (App.mkWorld
                           (App.mkState PLAYING "Neo"%string EmptyString 5000
                              0 false None EmptyString false false)
                           (mkStorage None
                              (MOCK_RANKINGS "d1"%string "d2"%string
                                 "d3"%string))
                           true 0))
                     [App.ClickHome])))
     = App.isScrambling
         (App.ui (App.run (fun s => s) (fun s => s)
                    (App.handleSolve 95000 "d4"%string
                       (App.mkState PLAYING "Neo"%string EmptyString 5000 0
                          false None EmptyString false false)
                       (App.mkWorld
                          (App.mkState PLAYING "Neo"%string EmptyString 5000
                             0 false None EmptyString false false)
                          (mkStorage None
                             (MOCK_RANKINGS "d1"%string "d2"%string
                                "d3"%string))
                          true 0))
                    [App.ClickHome]))
  /\ App.timers
       (App.handleStart (fun s => s) (fun s => s)
          (App.run (fun s => s) (fun s => s)
             (App.handleSolve 95000 "d4"%string
                (App.mkState PLAYING "Neo"%string EmptyString 5000 0
                   false None EmptyString false false)
                (App.mkWorld
                   (App.mkState PLAYING "Neo"%string EmptyString 5000 0
                      false None EmptyString false false)
                   (mkStorage None
                      (MOCK_RANKINGS "d1"%string "d2"%string "d3"%string))
                   true 0))
             [App.ClickHome]))
     = App.timers
         (App.run (fun s => s) (fun s => s)
            (App.handleSolve 95000 "d4"%string
               (App.mkState PLAYING "Neo"%string EmptyString 5000 0
                  false None EmptyString false false)
               (App.mkWorld
                  (App.mkState PLAYING "Neo"%string EmptyString 5000 0
                     false None EmptyString false false)
                  (mkStorage None
                     (MOCK_RANKINGS "d1"%string "d2"%string "d3"%string))
                  true 0))
            [App.ClickHome])
  /\ App.isScrambling
       (App.ui (App.handleRetry
                  (App.run (fun s => s) (fun s => s)
                     (App.handleSolve 95000 "d4"%string
                        (App.mkState PLAYING "Neo"%string EmptyString 5000 0
                           false None EmptyString false false)
                        (App.mkWorld
                           (App.mkState PLAYING "Neo"%string EmptyString 5000
                              0 false None EmptyString false false)
                           (mkStorage None
                              (MOCK_RANKINGS "d1"%string "d2"%string
                                 "d3"%string))
                           true 0))
                     [App.ClickHome])))
     = true.
Proof.
  apply (X21_solved_nickname_is_taken (fun s => s) (fun s => s) 95000
           "d4"%string
           (App.mkState PLAYING "Neo"%string EmptyString 5000 0
              false None EmptyString false false)
           (App.mkWorld
              (App.mkState PLAYING "Neo"%string EmptyString 5000 0
                 false None EmptyString false false)
              (mkStorage None
                 (MOCK_RANKINGS "d1"%string "d2"%string "d3"%string))
              true 0)
           [App.ClickHome]).
  - reflexivity.
  - reflexivity.
  - discriminate.
  - reflexivity.
Defined.

(** X22.  In whatever order the handlers, the timers and the solve
    callbacks of any render run, from the first render on, after each of
    them: when [isMuted] is set the background music is not playing, and
    when [gameState] is [SOLVED] a rank is set. *)
Theorem X22_muted_is_silent (trim toLowerCase : string -> string)
    (st : Storage) (es : list App.Event) :
  (App.isMuted
     (App.ui (App.run trim toLowerCase
                (App.mkWorld App.initialState st false 0) es)) = true ->
   App.isPlayingBGM
     (App.run trim toLowerCase (App.mkWorld App.initialState st false 0) es)
   = false)
  /\ (App.gameState
        (App.ui (App.run trim toLowerCase
                   (App.mkWorld App.initialState st false 0) es)) = SOLVED ->
      App.finalRank
        (App.ui (App.run trim toLowerCase
                   (App.mkWorld App.initialState st false 0) es)) <> None).
Proof.
  assert (Hinv : forall es w,
    ((App.isMuted (App.ui w) = true -> App.isPlayingBGM w = false)
     /\ (App.gameState (App.ui w) = SOLVED -> App.finalRank (App.ui w) <> None))
    -> ((App.isMuted (App.ui (App.run trim toLowerCase w es)) = true ->
         App.isPlayingBGM (App.run trim toLowerCase w es) = false)
        /\ (App.gameState (App.ui (App.run trim toLowerCase w es)) = SOLVED ->
            App.finalRank (App.ui (App.run trim toLowerCase w es)) <> None))).
  { clear es. induction es as [| e es IH]; intros w Hw; [exact Hw |].
    simpl. apply IH. destruct Hw as [Hm Hs].
    destruct e; cbn [App.step].
    - unfold App.handleStart.
      destruct (String.eqb _ _); [split; assumption |].
      destruct (checkNicknameAvailability _ _ _) as [st1 [|]]; cbn [negb].
      + cbn. split; [| discriminate].
        intros E. rewrite E. cbn. auto.
      + split; assumption.
    - cbn. split; [reflexivity | discriminate].
    - cbn. split; [assumption | discriminate].
    - cbn. split; [| assumption].
      destruct (App.isPlayingBGM w); cbn; intros E;
        [reflexivity | discriminate E].
    - split; assumption.
    - unfold App.timerFires. destruct (App.timers w); [split; assumption |].
      cbn. split; [assumption | discriminate].
    - unfold App.tick. destruct (GameState_eqb _ _); split; assumption.
    - unfold App.handleSolve.
      destruct (negb _); [split; assumption |].
      destruct (saveScore _ _ _ _) as [st1 res].
      destruct (getPlayerRank _ _) as [st2 rank].
      cbn. split; [assumption | discriminate].
    - split; assumption. }
  apply Hinv. cbn. split; discriminate.
Qed.

Lemma X22_muted_is_silent_witness :
  App.isPlayingBGM
    (App.run (fun s => s) (fun s => s)
       (App.mkWorld App.initialState
          (mkStorage None (MOCK_RANKINGS "d1"%string "d2"%string "d3"%string))
          false 0)
       [App.ClickMute; App.ClickMute])
  = false.
Proof.
  apply (proj1 (X22_muted_is_silent (fun s => s) (fun s => s)
                  (mkStorage None
                     (MOCK_RANKINGS "d1"%string "d2"%string "d3"%string))
                  [App.ClickMute; App.ClickMute])).
  reflexivity.
Defined.

Lemma handleSolve_ui nowMs nowIso r w :
  App.gameState r = PLAYING ->
  App.gameState (App.ui (App.handleSolve nowMs nowIso r w)) = SOLVED
  /\ App.elapsed (App.ui (App.handleSolve nowMs nowIso r w))
     = nowMs - App.startTime r
  /\ App.finalRank (App.ui (App.handleSolve nowMs nowIso r w))
     = Some (snd (getPlayerRank
                    (fst (saveScore nowIso (App.store w) (App.nickname r)
                            (nowMs - App.startTime r)))
                    (nowMs - App.startTime r))).
Proof.
  intros E. unfold App.handleSolve. rewrite E. cbn [GameState_eqb negb].
  destruct (saveScore _ _ _ _) as [st1 res]. cbn [fst].
  destruct (getPlayerRank st1 _) as [st2 rank]. cbn. auto.
Qed.

(** X23.  A solve callback of a render in which the game is played makes
    the game solved and stores exactly one new record, under the nickname
    of that render and with the time that is then shown; when the stored
    rankings were ordered, the rank that is set is a place of the stored
    rankings that holds a record with that time.  The callback of the
    render that follows changes nothing: the solve is recorded once. *)
Theorem X23_solve_is_recorded (nowMs : Z) (nowIso : string) (r : App.State)
    (w : App.World) :
  App.gameState r = PLAYING ->
  byTime (rankingsOf (App.store w)) ->
  App.gameState (App.ui (App.handleSolve nowMs nowIso r w)) = SOLVED
  /\ Permutation
       (rankingsOf (App.store (App.handleSolve nowMs nowIso r w)))
       (mkPlayerRecord (App.nickname r)
          (App.elapsed (App.ui (App.handleSolve nowMs nowIso r w))) nowIso
        :: rankingsOf (App.store w))
  /\ (exists k rec,
        App.finalRank (App.ui (App.handleSolve nowMs nowIso r w)) = Some k
        /\ nth_error
             (rankingsOf (App.store (App.handleSolve nowMs nowIso r w)))
             (k - 1) = Some rec
        /\ timeMs rec
           = App.elapsed (App.ui (App.handleSolve nowMs nowIso r w)))
  /\ (forall nowMs' nowIso',
        App.handleSolve nowMs' nowIso'
          (App.ui (App.handleSolve nowMs nowIso r w))
          (App.handleSolve nowMs nowIso r w)
        = App.handleSolve nowMs nowIso r w).
Proof.
  intros Hp Hs.
  destruct (handleSolve_ui nowMs nowIso r w Hp) as (Eg & Ee & Er).
  rewrite Ee, (handleSolve_store _ _ _ _ Hp), getRankings_rankings.
  split; [exact Eg |]. split; [| split].
  - rewrite saveScore_rankings, sortByTimeMs_Permutation.
    apply Permutation_app_comm.
  - destruct (saved_place nowIso (App.store w) (App.nickname r)
                (nowMs - App.startTime r) Hs) as (rec & Hn & Ht & _).
    exists (snd (getPlayerRank (App.store w) (nowMs - App.startTime r))), rec.
    rewrite Er, save_keeps_rank. split; [reflexivity |].
    rewrite rank_value, Nat.add_sub. auto.
  - intros nowMs' nowIso'. unfold App.handleSolve at 1.
    now rewrite Eg.
Qed.

Lemma X23_solve_is_recorded_witness :
  App.gameState
    (App.ui (App.handleSolve 95000 "d4"%string
               (App.mkState PLAYING "Neo"%string EmptyString 5000 0
                  false None EmptyString false false)
               (App.mkWorld
                  (App.mkState PLAYING "Neo"%string EmptyString 5000 0
                     false None EmptyString false false)
                  (mkStorage None
                     (MOCK_RANKINGS "d1"%string "d2"%string "d3"%string))
                  true 0))) = SOLVED
  /\ Permutation
       (rankingsOf
          (App.store (App.handleSolve 95000 "d4"%string
                        (App.mkState PLAYING "Neo"%string EmptyString 5000 0
                           false None EmptyString false false)
                        (App.mkWorld
                           (App.mkState PLAYING "Neo"%string EmptyString 5000
                              0 false None EmptyString false false)
                           (mkStorage None
                              (MOCK_RANKINGS "d1"%string "d2"%string
                                 "d3"%string))
                           true 0))))
       (mkPlayerRecord "Neo"%string
          (App.elapsed
             (App.ui (App.handleSolve 95000 "d4"%string
                        (App.mkState PLAYING "Neo"%string EmptyString 5000 0
                           false None EmptyString false false)
                        (App.mkWorld
                           (App.mkState PLAYING "Neo"%string EmptyString 5000
                              0 false None EmptyString false false)
                           (mkStorage None
                              (MOCK_RANKINGS "d1"%string "d2"%string
                                 "d3"%string))
                           true 0))))
          "d4"%string
        :: rankingsOf
             (mkStorage None
                (MOCK_RANKINGS "d1"%string "d2"%string "d3"%string)))
  /\ (exists k rec,
        App.finalRank
          (App.ui (App.handleSolve 95000 "d4"%string
                     (App.mkState PLAYING "Neo"%string EmptyString 5000 0
                        false None EmptyString false false)
                     (App.mkWorld
                        (App.mkState PLAYING "Neo"%string EmptyString 5000 0
                           false None EmptyString false false)
                        (mkStorage None
                           (MOCK_RANKINGS "d1"%string "d2"%string "d3"%string))
                        true 0))) = Some k
        /\ nth_error
             (rankingsOf
                (App.store (App.handleSolve 95000 "d4"%string
                              (App.mkState PLAYING "Neo"%string EmptyString
                                 5000 0 false None EmptyString false false)
                              (App.mkWorld
                                 (App.mkState PLAYING "Neo"%string EmptyString
                                    5000 0 false None EmptyString false false)
                                 (mkStorage None
                                    (MOCK_RANKINGS "d1"%string "d2"%string
                                       "d3"%string))
                                 true 0))))
             (k - 1) = Some rec
        /\ timeMs rec
           = App.elapsed
               (App.ui (App.handleSolve 95000 "d4"%string
                          (App.mkState PLAYING "Neo"%string EmptyString 5000 0
                             false None EmptyString false false)
                          (App.mkWorld
                             (App.mkState PLAYING "Neo"%string EmptyString
                                5000 0 false None EmptyString false false)
                             (mkStorage None
                                (MOCK_RANKINGS "d1"%string "d2"%string
                                   "d3"%string))
                             true 0))))
  /\ (forall nowMs' nowIso',
        App.handleSolve nowMs' nowIso'
          (App.ui (App.handleSolve 95000 "d4"%string
                     (App.mkState PLAYING "Neo"%string EmptyString 5000 0
                        false None EmptyString false false)
                     (App.mkWorld
                        (App.mkState PLAYING "Neo"%string EmptyString 5000 0
                           false None EmptyString false false)
                        (mkStorage None
                           (MOCK_RANKINGS "d1"%string "d2"%string "d3"%string))
                        true 0)))
          (App.handleSolve 95000 "d4"%string
             (App.mkState PLAYING "Neo"%string EmptyString 5000 0
                false None EmptyString false false)
             (App.mkWorld
                (App.mkState PLAYING "Neo"%string EmptyString 5000 0
                   false None EmptyString false false)
                (mkStorage None
                   (MOCK_RANKINGS "d1"%string "d2"%string "d3"%string))
                true 0))
        = App.handleSolve 95000 "d4"%string
            (App.mkState PLAYING "Neo"%string EmptyString 5000 0
               false None EmptyString false false)
            (App.mkWorld
               (App.mkState PLAYING "Neo"%string EmptyString 5000 0
                  false None EmptyString false false)
               (mkStorage None
                  (MOCK_RANKINGS "d1"%string "d2"%string "d3"%string))
               true 0)).
Proof.
  apply (X23_solve_is_recorded 95000 "d4"%string
           (App.mkState PLAYING "Neo"%string EmptyString 5000 0
              false None EmptyString false false)
           (App.mkWorld
              (App.mkState PLAYING "Neo"%string EmptyString 5000 0
                 false None EmptyString false false)
              (mkStorage None
                 (MOCK_RANKINGS "d1"%string "d2"%string "d3"%string))
              true 0)).
  - reflexivity.
  - unfold byTime. repeat constructor; simpl; lia.
Defined.
